(** * learnvulkan: instance creation, diagnostics callback and device selection

    A shallow embedding of [main.go] (package [main] of delaneyj/learnvulkan):
    [checkValidationLayerSupport], [requiredExtensions], [createInstance],
    [debugCallback] and [pickPhysicalDevice], with the theorems that settle
    what the specification says about them.

    The Vulkan and GLFW runtimes are collaborators of the program: their
    answers are the fields of a [Runtime] record that every function reads.
    The program's own effects are the fields of [HelloTriangleApplication]
    and the calls it makes to the [log] package; both are threaded through a
    small state-and-error monad.

    [sort.Slice] is Go's library. The program is written over the contract
    that its documentation gives, and the theorems that do not depend on the
    order of equal scores hold for every sort that meets it. The sort
    package itself (pattern-defeating quicksort) is embedded too and proved
    to meet the contract: it is the sort of every concrete run below, and
    it decides what happens to equal scores. *)

From Stdlib Require Import ZArith List String Bool Lia Permutation Sorted.
Import ListNotations.

Local Open Scope string_scope.
Local Open Scope Z_scope.
Local Open Scope list_scope.

(** ** Machine integers *)

(** Go's [uint32]: a [Z] in [0, 2^32), arithmetic wraps around. *)
Definition uint32_modulus : Z := 2 ^ 32.

Definition is_uint32 (z : Z) : Prop := 0 <= z < uint32_modulus.

Definition uint32 (z : Z) : Z := z mod uint32_modulus.

(** [a + b] on two [uint32] operands. *)
Definition uint32_add (a b : Z) : Z := uint32 (a + b).

(** ** The [vk] binding, as far as [main.go] uses it *)

Module vk.

(** [VkResult], a C enumeration; [VK_SUCCESS] is zero. *)
Definition Result : Type := Z.
Definition Success : Result := 0.
Definition Incomplete : Result := 5.
Definition ErrorInitializationFailed : Result := -3.
Definition ErrorLayerNotPresent : Result := -6.
Definition ErrorExtensionNotPresent : Result := -7.

(** Handles are C pointers; Go's [nil] is the null pointer. *)
Definition Instance : Type := Z.
Definition PhysicalDevice : Type := Z.
Definition DebugReportCallback : Type := Z.
Definition NullHandle : Z := 0.

(** [VkBool32] and the value [debugCallback] returns. *)
Definition Bool32 : Type := Z.
Definition False : Bool32 := 0.
Definition True : Bool32 := 1.

(** [VkDebugReportFlagBitsEXT]: warning is bit 1, error is bit 3. *)
Definition DebugReportFlags : Type := Z.
Definition DebugReportWarningBit : DebugReportFlags := 2.
Definition DebugReportErrorBit : DebugReportFlags := 8.

Definition ExtDebugReportExtensionName : string := "VK_EXT_debug_report".

Inductive PhysicalDeviceType : Type :=
| PhysicalDeviceTypeOther
| PhysicalDeviceTypeIntegratedGpu
| PhysicalDeviceTypeDiscreteGpu
| PhysicalDeviceTypeVirtualGpu
| PhysicalDeviceTypeCpu.

Definition PhysicalDeviceType_eqb (a b : PhysicalDeviceType) : bool :=
  match a, b with
  | PhysicalDeviceTypeOther, PhysicalDeviceTypeOther
  | PhysicalDeviceTypeIntegratedGpu, PhysicalDeviceTypeIntegratedGpu
  | PhysicalDeviceTypeDiscreteGpu, PhysicalDeviceTypeDiscreteGpu
  | PhysicalDeviceTypeVirtualGpu, PhysicalDeviceTypeVirtualGpu
  | PhysicalDeviceTypeCpu, PhysicalDeviceTypeCpu => true
  | _, _ => false
  end.

(** The fields of [VkPhysicalDeviceProperties] that concern the program:
    [DeviceName] is the name as [vk.ToString] decodes it,
    [MaxImageDimension2D] is [Limits.MaxImageDimension2D], a [uint32]. A
    value of this type is either what the driver wrote for a device (the C
    object behind the binding's struct) or what the Go fields of that struct
    hold; [Deref] takes the first to the second. *)
Record PhysicalDeviceProperties : Type := {
  DeviceType : PhysicalDeviceType;
  DeviceName : string;
  MaxImageDimension2D : Z
}.

(** [properties.Deref()]. The binding's struct keeps a reference to the C
    object that [vk.GetPhysicalDeviceProperties] filled, beside Go fields
    that are zero until [Deref] copies them. [Deref] copies the scalar and
    array fields; for the nested struct [Limits] it only stores a reference
    to the C limits ([NewPhysicalDeviceLimitsRef]), and the Go fields of
    [Limits] stay zero until [Deref] is called on [Limits] itself. After
    [properties.Deref()] alone, [properties.Limits.MaxImageDimension2D]
    reads 0, whatever the driver [reported]. *)
Definition Deref (reported : PhysicalDeviceProperties) : PhysicalDeviceProperties := {|
  DeviceType := DeviceType reported;
  DeviceName := DeviceName reported;
  MaxImageDimension2D := 0
|}.

(** [GeometryShader] holds what [features.GeometryShader.B()] answers. The
    struct has no nested struct: its [Deref], like that of the two structs
    below, copies every field, and the record is not doubled. *)
Record PhysicalDeviceFeatures : Type := {
  GeometryShader : bool
}.

(** [LayerName] and [Description] as [vk.ToString] decodes them. *)
Record LayerProperties : Type := {
  LayerName : string;
  Description : string
}.

Record ExtensionProperties : Type := {
  ExtensionName : string
}.

(** [VK_MAKE_VERSION]. *)
Definition MakeVersion (major minor patch : Z) : Z :=
  uint32 (Z.lor (Z.lor (Z.shiftl major 22) (Z.shiftl minor 12)) patch).

Definition ApiVersion11 : Z := MakeVersion 1 1 0.

Record ApplicationInfo : Type := {
  PApplicationName : string;
  ApplicationVersion : Z;
  PEngineName : string;
  EngineVersion : Z;
  ApiVersion : Z
}.

Record InstanceCreateInfo : Type := {
  PApplicationInfo : ApplicationInfo;
  EnabledExtensionCount : Z;
  PpEnabledExtensionNames : list string
}.

(** [vk.Error]: [nil] for [Success], an error value for every other
    result. *)
Definition Error (result : Result) : option Result :=
  if result =? Success then None else Some result.

End vk.

(** ** Errors, results and the log *)

(** Go [error] values as the program builds them: [errors.New],
    [errors.Wrap], and the value [vk.Error] gives for a result code. *)
Inductive error : Type :=
| errors_New (message : string)
| vk_Error (result : vk.Result)
| errors_Wrap (err : error) (message : string).

(** What a call ends with: a value, a returned [error], or a run-time panic
    (only [candidates[0]] on an empty slice could panic). *)
Inductive outcome (A : Type) : Type :=
| Ok (a : A)
| Err (e : error)
| Panic (message : string).

Arguments Ok {A} a.
Arguments Err {A} e.
Arguments Panic {A} message.

(** An argument of a [log.Printf] call. *)
Inductive arg : Type :=
| arg_int (z : Z)
| arg_string (s : string).

(** A call to the [log] package: the format and arguments are recorded as
    they are passed, their rendering is the logger's. *)
Inductive log_call : Type :=
| log_Printf (format : string) (args : list arg)
| log_Print (message : string).

(** ** Program state *)

(** [window] is a [*glfw.Window]; the three fields are [nil] (zero) in a
    fresh application. *)
Record HelloTriangleApplication : Type := {
  window : Z;
  instance : vk.Instance;
  debug : vk.DebugReportCallback
}.

Record World : Type := {
  app : HelloTriangleApplication;
  logged : list log_call
}.

(** The monad of the methods of [HelloTriangleApplication]: they read and
    write the application, append to the log, and end with an [outcome]. *)
Definition M (A : Type) : Type := World -> outcome A * World.

Definition ret {A : Type} (a : A) : M A := fun w => (Ok a, w).

Definition bind {A B : Type} (m : M A) (k : A -> M B) : M B :=
  fun w =>
    match m w with
    | (Ok a, w') => k a w'
    | (Err e, w') => (Err e, w')
    | (Panic s, w') => (Panic s, w')
    end.

Notation "x <- m ;; k" := (bind m (fun x => k))
  (at level 61, m at next level, right associativity).
Notation "m ;; k" := (bind m (fun _ => k))
  (at level 61, right associativity).

Definition fail {A : Type} (e : error) : M A := fun w => (Err e, w).

Definition panic {A : Type} (message : string) : M A :=
  fun w => (Panic message, w).

Definition emit (c : log_call) : M unit :=
  fun w => (Ok tt, {| app := app w; logged := logged w ++ [c] |}).

Definition Printf (format : string) (args : list arg) : M unit :=
  emit (log_Printf format args).

Definition Print (message : string) : M unit := emit (log_Print message).

Definition get_app : M HelloTriangleApplication := fun w => (Ok (app w), w).

Definition set_instance (i : vk.Instance) : M unit :=
  fun w =>
    (Ok tt,
     {| app := {| window := window (app w); instance := i; debug := debug (app w) |};
        logged := logged w |}).

(** [if err := vk.Error(result); err != nil { return errors.Wrap(err, message) }] *)
Definition check (result : vk.Result) (message : string) : M unit :=
  match vk.Error result with
  | None => ret tt
  | Some r => fail (errors_Wrap (vk_Error r) message)
  end.

(** [v, err := m(); if err != nil { return errors.Wrap(err, message) }] *)
Definition wrapped {A : Type} (m : M A) (message : string) : M A :=
  fun w =>
    match m w with
    | (Err err, w') => (Err (errors_Wrap err message), w')
    | r => r
    end.

(** [m] does not panic and does not write the application. *)
Definition quiet {A : Type} (m : M A) : Prop :=
  forall w, app (snd (m w)) = app w /\ forall s, fst (m w) <> Panic s.

(** ** The runtime *)

(** One two-call enumeration: the status and count of the first call (null
    buffer), the status of the second call and the items it writes. *)
Record Enumeration (A : Type) : Type := {
  count_status : vk.Result;
  count : nat;
  fill_status : vk.Result;
  written : list A
}.

Arguments count_status {A} _.
Arguments count {A} _.
Arguments fill_status {A} _.
Arguments written {A} _.

(** [make([]T, n)]: [n] zero values. *)
Definition make {A : Type} (zero : A) (n : nat) : list A := repeat zero n.

(** A buffer after the runtime wrote [items] into it from index 0: its
    length is unchanged, items beyond it are dropped. *)
Definition fill {A : Type} (buffer items : list A) : list A :=
  firstn (List.length buffer) items ++ skipn (List.length items) buffer.

Record Runtime : Type := {
  EnumerateInstanceLayerProperties : Enumeration vk.LayerProperties;
  EnumerateInstanceExtensionProperties : Enumeration vk.ExtensionProperties;
  GetRequiredInstanceExtensions : list string;
  CreateInstance : vk.InstanceCreateInfo -> vk.Result * vk.Instance;
  EnumeratePhysicalDevices : vk.Instance -> Enumeration vk.PhysicalDevice;
  GetPhysicalDeviceProperties : vk.PhysicalDevice -> vk.PhysicalDeviceProperties;
  GetPhysicalDeviceFeatures : vk.PhysicalDevice -> vk.PhysicalDeviceFeatures
}.

(** The package-level [const] and [var] block. *)
Record Config : Type := {
  enableValidationLayers : bool;
  validationLayerNames : list string
}.

Definition title : string := "Learn Vulkan".

(** The string literal ["\x00"]: one NUL byte. *)
Definition x00 : string := String (Ascii.ascii_of_nat 0) "".

Definition main_config : Config := {|
  enableValidationLayers := true;
  validationLayerNames := ["VK_LAYER_LUNARG_standard_validation"]
|}.

(** ** [sort.Slice] *)

(** What Go's [sort] package asks of a [less] function: a strict weak
    ordering. *)
Record StrictWeakOrder {A : Type} (less : A -> A -> bool) : Prop := {
  less_irrefl : forall a, less a a = false;
  less_trans : forall a b c, less a b = true -> less b c = true -> less a c = true;
  less_incomparable_trans :
    forall a b c, less a b = false -> less b c = false -> less a c = false
}.

(** [sort.SliceIsSorted]: no element is [less] than the one before it. *)
Fixpoint SliceIsSorted {A : Type} (x : list A) (less : A -> A -> bool) : bool :=
  match x with
  | a :: (b :: _) as rest => negb (less b a) && SliceIsSorted rest less
  | _ => true
  end.

(** [sort.Slice] as Go's [sort] package implements it since Go 1.19:
    pattern-defeating quicksort, [pdqsort_func] of [zsortfunc.go], run on
    the slice through [data.Less(i, j)] and [data.Swap(i, j)]. A range of at
    most 12 elements is sorted by insertion sort; a longer one is split
    around a pivot, with heap sort as the fallback. Indices are [nat]; the
    slice is a list that every function returns updated. A difference on
    [nat] stops at 0: each one below is taken where Go's is not negative.
    Go panics on an index outside the slice; here such a [Less] answers
    [false] and such a [Swap] leaves the slice as it is. Every loop runs on
    a count that bounds its turns. *)
Module sort.

Fixpoint set_nth {A : Type} (x : list A) (i : nat) (v : A) : list A :=
  match x, i with
  | [], _ => []
  | _ :: rest, O => v :: rest
  | a :: rest, S i' => a :: set_nth rest i' v
  end.

Section lessSwap.

Context {A : Type}.
Variable less : A -> A -> bool.

(** [data.Less(i, j)]: the [less] function of the caller on the elements
    now at [i] and [j]. *)
Definition Less (x : list A) (i j : nat) : bool :=
  match nth_error x i, nth_error x j with
  | Some a, Some b => less a b
  | _, _ => false
  end.

(** [data.Swap(i, j)]. *)
Definition Swap (x : list A) (i j : nat) : list A :=
  match nth_error x i, nth_error x j with
  | Some a, Some b => set_nth (set_nth x i b) j a
  | _, _ => x
  end.

(** [for j := i; j > a && data.Less(j, j-1); j-- { data.Swap(j, j-1) }] *)
Fixpoint insertion_step (x : list A) (a j : nat) : list A :=
  match j with
  | O => x
  | S j' =>
      if (a <? j)%nat && Less x j j' then insertion_step (Swap x j j') a j' else x
  end.

(** [for i := a + 1; i < b; i++ { ... }], with [n] iterations to go. *)
Fixpoint insertion_loop (x : list A) (a i n : nat) : list A :=
  match n with
  | O => x
  | S n' => insertion_loop (insertion_step x a i) a (S i) n'
  end.

Definition insertionSort_func (x : list A) (a b : nat) : list A :=
  insertion_loop x a (a + 1) (b - (a + 1)).

(** The loop of [siftDown_func]; [root] grows at every turn, so [hi] turns
    are enough. *)
Fixpoint siftDown_loop (x : list A) (root hi first fuel : nat) : list A :=
  match fuel with
  | O => x
  | S fuel' =>
      let child := (2 * root + 1)%nat in
      if (hi <=? child)%nat then x
      else
        let child :=
          if (child + 1 <? hi)%nat && Less x (first + child) (first + child + 1)
          then (child + 1)%nat else child in
        if negb (Less x (first + root) (first + child)) then x
        else siftDown_loop (Swap x (first + root) (first + child)) child hi first fuel'
  end.

Definition siftDown_func (x : list A) (lo hi first : nat) : list A :=
  siftDown_loop x lo hi first hi.

(** [for i := (hi - 1) / 2; i >= 0; i-- { siftDown_func(data, i, hi, first) }] *)
Fixpoint build_heap (x : list A) (i hi first : nat) : list A :=
  let x := siftDown_func x i hi first in
  match i with
  | O => x
  | S i' => build_heap x i' hi first
  end.

(** [for i := hi - 1; i >= 0; i-- { data.Swap(first, first+i);
    siftDown_func(data, lo, i, first) }], entered with [i = hi - 1 >= 0]. *)
Fixpoint pop_heap (x : list A) (i lo first : nat) : list A :=
  let x := Swap x first (first + i) in
  let x := siftDown_func x lo i first in
  match i with
  | O => x
  | S i' => pop_heap x i' lo first
  end.

Definition heapSort_func (x : list A) (a b : nat) : list A :=
  let first := a in
  let lo := O in
  let hi := (b - a)%nat in
  let x := build_heap x ((hi - 1) / 2) hi first in
  match hi with
  | O => x
  | S i => pop_heap x i lo first
  end.

(** [for i <= j && p(i) { i++ }] and [for i <= j && p(j) { j-- }]. *)
Fixpoint scan_up (p : nat -> bool) (i j fuel : nat) : nat :=
  match fuel with
  | O => i
  | S fuel' => if (i <=? j)%nat && p i then scan_up p (S i) j fuel' else i
  end.

Fixpoint scan_down (p : nat -> bool) (i j fuel : nat) : nat :=
  match fuel with
  | O => j
  | S fuel' => if (i <=? j)%nat && p j then scan_down p i (j - 1) fuel' else j
  end.

(** The [for { ... }] loop of [partition_func]; it ends with [i > j]. *)
Fixpoint partition_loop (x : list A) (a i j fuel : nat) : list A * nat :=
  match fuel with
  | O => (x, j)
  | S fuel' =>
      let i := scan_up (fun i => Less x i a) i j (S (j - i)) in
      let j := scan_down (fun j => negb (Less x j a)) i j (S (j - i)) in
      if (j <? i)%nat then (x, j)
      else partition_loop (Swap x i j) a (S i) (j - 1) fuel'
  end.

Definition partition_func (x : list A) (a b pivot : nat) : list A * nat * bool :=
  let x := Swap x a pivot in
  let i := (a + 1)%nat in
  let j := (b - 1)%nat in
  let i := scan_up (fun i => Less x i a) i j (S (j - i)) in
  let j := scan_down (fun j => negb (Less x j a)) i j (S (j - i)) in
  if (j <? i)%nat then (Swap x j a, j, true)
  else
    let x := Swap x i j in
    let '(x, j) := partition_loop x a (S i) (j - 1) (b - a) in
    (Swap x j a, j, false).

(** The [for { ... }] loop of [partitionEqual_func]. *)
Fixpoint partitionEqual_loop (x : list A) (a i j fuel : nat) : list A * nat :=
  match fuel with
  | O => (x, i)
  | S fuel' =>
      let i := scan_up (fun i => negb (Less x a i)) i j (S (j - i)) in
      let j := scan_down (fun j => Less x a j) i j (S (j - i)) in
      if (j <? i)%nat then (x, i)
      else partitionEqual_loop (Swap x i j) a (S i) (j - 1) fuel'
  end.

Definition partitionEqual_func (x : list A) (a b pivot : nat) : list A * nat :=
  let x := Swap x a pivot in
  partitionEqual_loop x a (a + 1) (b - 1) (S (b - a)).

(** [for j := i - 1; j >= 1; j-- { if !data.Less(j, j-1) { break };
    data.Swap(j, j-1) }] *)
Fixpoint shift_left (x : list A) (j : nat) : list A :=
  match j with
  | O => x
  | S j' => if negb (Less x j j') then x else shift_left (Swap x j j') j'
  end.

(** [for j := i + 1; j < b; j++ { if !data.Less(j, j-1) { break };
    data.Swap(j, j-1) }], with [n] iterations to go. *)
Fixpoint shift_right (x : list A) (j n : nat) : list A :=
  match n with
  | O => x
  | S n' =>
      if negb (Less x j (j - 1)) then x else shift_right (Swap x j (j - 1)) (S j) n'
  end.

Definition maxSteps : nat := 5.
Definition shortestShifting : nat := 50.

(** [for j := 0; j < maxSteps; j++ { ... }], with [steps] iterations to
    go. *)
Fixpoint partialInsertionSort_loop (x : list A) (a b i steps : nat) : list A * bool :=
  match steps with
  | O => (x, false)
  | S steps' =>
      let i := scan_up (fun i => (i <? b)%nat && negb (Less x i (i - 1))) i b (S (b - i)) in
      if (i =? b)%nat then (x, true)
      else if (b - a <? shortestShifting)%nat then (x, false)
      else
        let x := Swap x i (i - 1) in
        let x := if (2 <=? i - a)%nat then shift_left x (i - 1) else x in
        let x := if (2 <=? b - i)%nat then shift_right x (i + 1) (b - (i + 1)) else x in
        partialInsertionSort_loop x a b i steps'
  end.

Definition partialInsertionSort_func (x : list A) (a b : nat) : list A * bool :=
  partialInsertionSort_loop x a b (a + 1) maxSteps.

(** [data.Less(b, a)] decides the order of the two indices; [swaps] counts
    the exchanges. *)
Definition order2_func (x : list A) (a b swaps : nat) : nat * nat * nat :=
  if Less x b a then (b, a, S swaps) else (a, b, swaps).

Definition median_func (x : list A) (a b c swaps : nat) : nat * nat :=
  let '(a, b, swaps) := order2_func x a b swaps in
  let '(b, c, swaps) := order2_func x b c swaps in
  let '(a, b, swaps) := order2_func x a b swaps in
  (b, swaps).

Definition medianAdjacent_func (x : list A) (a swaps : nat) : nat * nat :=
  median_func x (a - 1) a (a + 1) swaps.

Inductive sortedHint : Type := unknownHint | increasingHint | decreasingHint.

Definition shortestNinther : nat := 50.
Definition maxSwaps : nat := 4 * 3.

Definition choosePivot_func (x : list A) (a b : nat) : nat * sortedHint :=
  let l := (b - a)%nat in
  let swaps := O in
  let i := (a + l / 4 * 1)%nat in
  let j := (a + l / 4 * 2)%nat in
  let k := (a + l / 4 * 3)%nat in
  let '(j, swaps) :=
    if (8 <=? l)%nat then
      let '(i, j, k, swaps) :=
        if (shortestNinther <=? l)%nat then
          let '(i, swaps) := medianAdjacent_func x i swaps in
          let '(j, swaps) := medianAdjacent_func x j swaps in
          let '(k, swaps) := medianAdjacent_func x k swaps in
          (i, j, k, swaps)
        else (i, j, k, swaps) in
      median_func x i j k swaps
    else (j, swaps) in
  if (swaps =? 0)%nat then (j, increasingHint)
  else if (swaps =? maxSwaps)%nat then (j, decreasingHint)
  else (j, unknownHint).

(** [for i < j { data.Swap(i, j); i++; j-- }] *)
Fixpoint reverseRange_loop (x : list A) (i j fuel : nat) : list A :=
  match fuel with
  | O => x
  | S fuel' =>
      if (i <? j)%nat then reverseRange_loop (Swap x i j) (S i) (j - 1) fuel' else x
  end.

Definition reverseRange_func (x : list A) (a b : nat) : list A :=
  reverseRange_loop x a (b - 1) (b - a).

End lessSwap.

(** [bits.Len(uint(n))]: the number of bits of [n]. *)
Definition bits_Len (n : nat) : nat := Z.to_nat (Z.log2 (Z.of_nat n) + 1).

(** [type xorshift uint64] and its [Next]. *)
Definition uint64 (z : Z) : Z := z mod 2 ^ 64.

Definition xorshift_Next (r : Z) : Z :=
  let r := Z.lxor r (uint64 (Z.shiftl r 13)) in
  let r := Z.lxor r (Z.shiftr r 7) in
  let r := Z.lxor r (uint64 (Z.shiftl r 17)) in
  r.

Definition nextPowerOfTwo (length : nat) : Z := Z.shiftl 1 (Z.of_nat (bits_Len length)).

(** [for i := 0; i < 3; i++ { ... }] of [breakPatterns_func], with [n]
    iterations to go. *)
Fixpoint breakPatterns_loop {A : Type} (x : list A) (a length idx : nat)
    (random modulus : Z) (i n : nat) : list A :=
  match n with
  | O => x
  | S n' =>
      let random := xorshift_Next random in
      let other := Z.to_nat (Z.land random (modulus - 1)) in
      let other := if (length <=? other)%nat then (other - length)%nat else other in
      breakPatterns_loop (Swap x (idx - 1 + i) (a + other)) a length idx
        random modulus (S i) n'
  end.

Definition breakPatterns_func {A : Type} (x : list A) (a b : nat) : list A :=
  let length := (b - a)%nat in
  if (8 <=? length)%nat then
    let random := Z.of_nat length in
    let modulus := nextPowerOfTwo length in
    let idx := (a + length / 4 * 2 - 1)%nat in
    breakPatterns_loop x a length idx random modulus 0 3
  else x.

Definition maxInsertion : nat := 12.

Definition is_increasing (hint : sortedHint) : bool :=
  match hint with increasingHint => true | _ => false end.

Definition is_decreasing (hint : sortedHint) : bool :=
  match hint with decreasingHint => true | _ => false end.

(** [pdqsort_func]: one turn of its [for] loop for each unit of [fuel]; the
    recursive call and the next turn both work on a shorter range, so
    [b - a + 1] units are enough. *)
Fixpoint pdqsort_func {A : Type} (less : A -> A -> bool) (x : list A)
    (a b limit : nat) (wasBalanced wasPartitioned : bool) (fuel : nat) : list A :=
  match fuel with
  | O => x
  | S fuel' =>
      let length := (b - a)%nat in
      if (length <=? maxInsertion)%nat then insertionSort_func less x a b
      else if (limit =? 0)%nat then heapSort_func less x a b
      else
        let '(x, limit) :=
          if negb wasBalanced then (breakPatterns_func x a b, (limit - 1)%nat)
          else (x, limit) in
        let '(pivot, hint) := choosePivot_func less x a b in
        let '(x, pivot, hint) :=
          if is_decreasing hint
          then (reverseRange_func x a b, (b - 1 - (pivot - a))%nat, increasingHint)
          else (x, pivot, hint) in
        let '(x, sorted) :=
          if wasBalanced && wasPartitioned && is_increasing hint
          then partialInsertionSort_func less x a b
          else (x, false) in
        if sorted then x
        else if (0 <? a)%nat && negb (Less less x (a - 1) pivot) then
          let '(x, mid) := partitionEqual_func less x a b pivot in
          pdqsort_func less x mid b limit wasBalanced wasPartitioned fuel'
        else
          let '(x, mid, alreadyPartitioned) := partition_func less x a b pivot in
          let wasPartitioned := alreadyPartitioned in
          let leftLen := (mid - a)%nat in
          let rightLen := (b - mid)%nat in
          let balanceThreshold := (length / 8)%nat in
          if (leftLen <? rightLen)%nat then
            let wasBalanced := (balanceThreshold <=? leftLen)%nat in
            let x := pdqsort_func less x a mid limit true true fuel' in
            pdqsort_func less x (mid + 1) b limit wasBalanced wasPartitioned fuel'
          else
            let wasBalanced := (balanceThreshold <=? rightLen)%nat in
            let x := pdqsort_func less x (mid + 1) b limit true true fuel' in
            pdqsort_func less x a mid limit wasBalanced wasPartitioned fuel'
  end.

Definition Slice {A : Type} (x : list A) (less : A -> A -> bool) : list A :=
  let length := List.length x in
  let limit := bits_Len length in
  pdqsort_func less x 0 length limit true true (S length).

End sort.

(** Insertion sort as a function on lists, to reason about
    [sort.insertionSort_func]. [move_left] is its inner loop: [v] moves left
    while it is [less] than its left neighbour. [before] lists the elements
    to the left of [v], the nearest first; so does the result, [v]
    included. *)
Fixpoint move_left {A : Type} (less : A -> A -> bool) (v : A)
    (before : list A) : list A :=
  match before with
  | [] => [v]
  | b :: rest => if less v b then b :: move_left less v rest else v :: before
  end.

(** Sortedness of the part of the slice that insertion sort has passed,
    read from right to left as [move_left] holds it. *)
Fixpoint sorted_before {A : Type} (less : A -> A -> bool) (before : list A) : bool :=
  match before with
  | a :: (b :: _) as rest => negb (less a b) && sorted_before less rest
  | _ => true
  end.

(** The elements of [x] inserted one after the other to the right of
    [before]. *)
Definition insert_all {A : Type} (less : A -> A -> bool) (x before : list A) : list A :=
  fold_left (fun before v => move_left less v before) x before.

(** [sort.Slice] is the Go library's. What the program may rely on is its
    documented contract: the slice is rearranged (a permutation) so that it
    is sorted by [less]. The documentation adds that the sort is not
    guaranteed to be stable, so the contract says nothing about the order of
    elements neither of which is [less] than the other. The program is
    written over any sort that meets the contract; the sort package above is
    one. *)
Class SliceSorter : Type := {
  sort_Slice : forall {A : Type}, list A -> (A -> A -> bool) -> list A;
  sort_Slice_Permutation :
    forall (A : Type) (x : list A) (less : A -> A -> bool),
      Permutation x (sort_Slice x less);
  sort_Slice_IsSorted :
    forall (A : Type) (x : list A) (less : A -> A -> bool),
      StrictWeakOrder less -> SliceIsSorted (sort_Slice x less) less = true
}.

(** ** What the sort package is proved to do *)

Section Ranges.

Context {A : Type}.
Variable less : A -> A -> bool.

(** [y] is [x] outside the range [a, b). *)
Definition same_outside (a b : nat) (x y : list A) : Prop :=
  forall k, (k < a \/ b <= k)%nat -> nth_error y k = nth_error x k.

(** [y] is [x] with the elements of the range [a, b) in another order. *)
Definition rearranged (a b : nat) (x y : list A) : Prop :=
  Permutation x y /\ same_outside a b x y.

(** Every element of the range [a, b) satisfies [P]. *)
Definition all_in (a b : nat) (x : list A) (P : A -> Prop) : Prop :=
  forall k u, (a <= k < b)%nat -> nth_error x k = Some u -> P u.

(** The range [a, b) is sorted: no element is [less] than one before it. *)
Definition sorted_on (a b : nat) (x : list A) : Prop :=
  forall i j u v, (a <= i)%nat -> (i < j)%nat -> (j < b)%nat ->
    nth_error x i = Some u -> nth_error x j = Some v -> less v u = false.

(** No element of the range [a, b) is [less] than one before the range. *)
Definition prefix_le (a b : nat) (x : list A) : Prop :=
  forall i j u v, (i < a)%nat -> (a <= j < b)%nat ->
    nth_error x i = Some u -> nth_error x j = Some v -> less v u = false.

End Ranges.

Section Heaps.

Context {A : Type}.
Variable less : A -> A -> bool.

(** In the heap [data[first : first+hi]], node [k] is not [less] than its
    children [2k+1] and [2k+2]. *)
Definition heap_at (x : list A) (first hi k : nat) : Prop :=
  forall c u v, (c = 2 * k + 1 \/ c = 2 * k + 2)%nat -> (c < hi)%nat ->
    nth_error x (first + k) = Some u -> nth_error x (first + c) = Some v ->
    less u v = false.

(** No element of the range [mid, hi) is [less] than one of [lo, mid). *)
Definition ranges_le (lo mid hi : nat) (x : list A) : Prop :=
  forall i j u v, (lo <= i < mid)%nat -> (mid <= j < hi)%nat ->
    nth_error x i = Some u -> nth_error x j = Some v -> less v u = false.

End Heaps.

(** ** The program *)

Section Program.

Context {sorter : SliceSorter}.
Variable cfg : Config.
Variable rt : Runtime.

(** The inner loop of [checkValidationLayerSupport]: is [vln] one of
    [availableLayerNames]? The first match is logged and ends the loop. *)
Fixpoint find_layer (vln : string) (availableLayerNames : list string) : M bool :=
  match availableLayerNames with
  | [] => ret false
  | aln :: rest =>
      if String.eqb vln aln then
        Printf "%s is a supported validation layer" [arg_string aln];;
        ret true
      else find_layer vln rest
  end.

(** The outer loop: [false] at the first requested name that is not found. *)
Fixpoint all_layers_found (requested availableLayerNames : list string) : M bool :=
  match requested with
  | [] => ret true
  | vln :: rest =>
      found <- find_layer vln availableLayerNames;;
      if found then all_layers_found rest availableLayerNames else ret false
  end.

(** The loop that logs each available layer and collects its name. *)
Fixpoint layer_names (availableLayers : list vk.LayerProperties) : M (list string) :=
  match availableLayers with
  | [] => ret []
  | layer :: rest =>
      let name := vk.LayerName layer in
      let description := vk.Description layer in
      Printf " > %s <%s>" [arg_string name; arg_string description];;
      names <- layer_names rest;;
      ret (name :: names)
  end.

Definition zero_LayerProperties : vk.LayerProperties :=
  {| vk.LayerName := ""; vk.Description := "" |}.

Definition checkValidationLayerSupport : M bool :=
  let e := EnumerateInstanceLayerProperties rt in
  check (count_status e) "can't get layer count";;
  let availableLayers := make zero_LayerProperties (count e) in
  check (fill_status e) "can't get layers";;
  let availableLayers := fill availableLayers (written e) in
  Print "Available validation layers";;
  availableLayerNames <- layer_names availableLayers;;
  supported <- all_layers_found (validationLayerNames cfg) availableLayerNames;;
  if supported then
    Print "All validation layers are supported";;
    ret true
  else ret false.

Definition requiredExtensions : list string :=
  let requiredExtensions := GetRequiredInstanceExtensions rt in
  if enableValidationLayers cfg then
    requiredExtensions ++ [(vk.ExtDebugReportExtensionName ++ x00)%string]
  else requiredExtensions.

(** The loop of [createInstance] that logs the available extensions. *)
Fixpoint log_extensions (exts : list vk.ExtensionProperties) : M unit :=
  match exts with
  | [] => ret tt
  | ex :: rest =>
      Printf (" > " ++ vk.ExtensionName ex)%string [];;
      log_extensions rest
  end.

(** [strings.Join(elems, sep)]. *)
Fixpoint strings_Join (elems : list string) (sep : string) : string :=
  match elems with
  | [] => ""
  | [e] => e
  | e :: rest => (e ++ sep ++ strings_Join rest sep)%string
  end.

Definition appInfo : vk.ApplicationInfo := {|
  vk.PApplicationName := title;
  vk.ApplicationVersion := vk.MakeVersion 1 0 0;
  vk.PEngineName := "Ingot";
  vk.EngineVersion := vk.MakeVersion 1 0 0;
  vk.ApiVersion := vk.ApiVersion11
|}.

(** The [vk.InstanceCreateInfo] that [createInstance] hands to
    [vk.CreateInstance]. *)
Definition createInfo : vk.InstanceCreateInfo := {|
  vk.PApplicationInfo := appInfo;
  vk.EnabledExtensionCount := uint32 (Z.of_nat (List.length requiredExtensions));
  vk.PpEnabledExtensionNames := requiredExtensions
|}.

Definition zero_ExtensionProperties : vk.ExtensionProperties :=
  {| vk.ExtensionName := "" |}.

Definition createInstance : M unit :=
  (if enableValidationLayers cfg then
     supported <- wrapped checkValidationLayerSupport "can't check validation layers";;
     if supported then ret tt
     else fail (errors_New "validation layers requested but not available")
   else ret tt);;
  let e := EnumerateInstanceExtensionProperties rt in
  check (count_status e) "can't enumerate instance extensions";;
  let availableInstanceExtensions := make zero_ExtensionProperties (count e) in
  check (fill_status e) "can't enumerate instance extensions";;
  let availableInstanceExtensions := fill availableInstanceExtensions (written e) in
  Printf "Available extensions" [];;
  log_extensions availableInstanceExtensions;;
  Printf "Attempting to create instance with %s extensions enabled"
    [arg_string (strings_Join requiredExtensions ",")];;
  let '(result, instance) := CreateInstance rt createInfo in
  check result "can't create instance";;
  set_instance instance.

Definition debugCallback (flags : vk.DebugReportFlags) (objectType : Z)
    (object : Z) (location : Z) (messageCode : Z) (pLayerPrefix : string)
    (pMessage : string) (pUserData : Z) : M vk.Bool32 :=
  (if negb (Z.land flags vk.DebugReportErrorBit =? 0) then
     Printf "[ERROR %d] %s on layer %s"
       [arg_int messageCode; arg_string pMessage; arg_string pLayerPrefix]
   else if negb (Z.land flags vk.DebugReportWarningBit =? 0) then
     Printf "[WARN %d] %s on layer %s"
       [arg_int messageCode; arg_string pMessage; arg_string pLayerPrefix]
   else
     Printf "[WARN] unknown debug message %d (layer %s)"
       [arg_int messageCode; arg_string pLayerPrefix]);;
  ret vk.False.

(** The local type [deviceScore] of [pickPhysicalDevice]. *)
Record deviceScore : Type := {
  Device : vk.PhysicalDevice;
  Name : string;
  Score : Z
}.

(** The body of the scoring loop, for one device [d]. *)
Definition score_device (d : vk.PhysicalDevice) : deviceScore :=
  let score := 0 in
  let properties := GetPhysicalDeviceProperties rt d in
  let properties := vk.Deref properties in
  let isDiscrete :=
    vk.PhysicalDeviceType_eqb (vk.DeviceType properties) vk.PhysicalDeviceTypeDiscreteGpu in
  let score := if isDiscrete then uint32_add score 1000 else score in
  let features := GetPhysicalDeviceFeatures rt d in
  let score := uint32_add score (vk.MaxImageDimension2D properties) in
  let hasGeometryShader := vk.GeometryShader features in
  let score := if hasGeometryShader then 0 else score in
  {| Device := d; Name := vk.DeviceName properties; Score := score |}.

(** The comparator handed to [sort.Slice]. *)
Definition by_score (a b : deviceScore) : bool := Score a >? Score b.

Definition pickPhysicalDevice : M vk.PhysicalDevice :=
  a <- get_app;;
  let e := EnumeratePhysicalDevices rt (instance a) in
  check (count_status e) "can't get physical device count";;
  let devices := make vk.NullHandle (count e) in
  check (fill_status e) "can't get physical device count";;
  let devices := fill devices (written e) in
  if (List.length devices =? 0)%nat then
    fail (errors_New "no phyical device detected")
  else
    let candidates := map score_device devices in
    let candidates := sort_Slice candidates by_score in
    match candidates with
    | [] => panic "index out of range [0] with length 0"
    | chosen :: _ =>
        let physicalDevice := Device chosen in
        if physicalDevice =? vk.NullHandle then
          fail (errors_New "failed to find suitable GPU")
        else
          Printf "Selecting physical device '%s'" [arg_string (Name chosen)];;
          ret physicalDevice
    end.

End Program.

(** ** The specification's reading of the score *)

Definition discrete_bonus (ty : vk.PhysicalDeviceType) : Z :=
  match ty with
  | vk.PhysicalDeviceTypeDiscreteGpu => 1000
  | _ => 0
  end.

(** The score as the specification words it: 1000 for a discrete GPU, plus
    the maximum 2D image dimension, and 0 whenever the geometry-shader flag
    is set. The sum is a [uint32] sum, as [Score] is a [uint32]. *)
Definition spec_score (ty : vk.PhysicalDeviceType) (maxImageDimension2D : Z)
    (geometryShader : bool) : Z :=
  if geometryShader then 0
  else uint32_add (discrete_bonus ty) maxImageDimension2D.

(** The candidate a stable descending sort would put first: the first one,
    in enumeration order, whose score no other candidate exceeds. *)
Fixpoint first_with_top_score (candidates : list deviceScore) : option deviceScore :=
  match candidates with
  | [] => None
  | c :: rest =>
      match first_with_top_score rest with
      | Some best => if Score best >? Score c then Some best else Some c
      | None => Some c
      end
  end.

(** The slice [availableLayers] of [checkValidationLayerSupport] once the
    runtime has filled it, and the names collected from it. *)
Definition available_layers (rt : Runtime) : list vk.LayerProperties :=
  let e := EnumerateInstanceLayerProperties rt in
  fill (make zero_LayerProperties (count e)) (written e).

Definition available_layer_names (rt : Runtime) : list string :=
  map vk.LayerName (available_layers rt).

(** The slice [devices] of [pickPhysicalDevice] once the runtime has filled
    it. *)
Definition enumerated_devices (rt : Runtime) (i : vk.Instance) : list vk.PhysicalDevice :=
  let e := EnumeratePhysicalDevices rt i in
  fill (make vk.NullHandle (count e)) (written e).

(** The slice [candidates] of [pickPhysicalDevice] before it is sorted. *)
Definition candidates (rt : Runtime) (i : vk.Instance) : list deviceScore :=
  map (score_device rt) (enumerated_devices rt i).

(** ** Runtimes to run the program on *)

Definition enumeration_of {A : Type} (items : list A) : Enumeration A := {|
  count_status := vk.Success;
  count := List.length items;
  fill_status := vk.Success;
  written := items
|}.

Definition failed_enumeration {A : Type} (result : vk.Result) : Enumeration A := {|
  count_status := result;
  count := 0;
  fill_status := result;
  written := []
|}.

Definition device_table : Type :=
  list (vk.PhysicalDevice * (vk.PhysicalDeviceProperties * vk.PhysicalDeviceFeatures)).

Definition zero_device : vk.PhysicalDeviceProperties * vk.PhysicalDeviceFeatures :=
  ({| vk.DeviceType := vk.PhysicalDeviceTypeOther;
      vk.DeviceName := "";
      vk.MaxImageDimension2D := 0 |},
   {| vk.GeometryShader := false |}).

Fixpoint describe (table : device_table) (d : vk.PhysicalDevice)
    : vk.PhysicalDeviceProperties * vk.PhysicalDeviceFeatures :=
  match table with
  | [] => zero_device
  | (d', description) :: rest => if d =? d' then description else describe rest d
  end.

Definition gpu (d : vk.PhysicalDevice) (ty : vk.PhysicalDeviceType) (name : string)
    (maxImageDimension2D : Z) (geometryShader : bool)
    : vk.PhysicalDevice * (vk.PhysicalDeviceProperties * vk.PhysicalDeviceFeatures) :=
  (d, ({| vk.DeviceType := ty;
          vk.DeviceName := name;
          vk.MaxImageDimension2D := maxImageDimension2D |},
       {| vk.GeometryShader := geometryShader |})).

(** A host with the given layers, window extensions, answer to
    [vk.CreateInstance] and physical devices, every enumeration succeeding. *)
Definition host (layers : list vk.LayerProperties) (windowExtensions : list string)
    (created : vk.Result * vk.Instance)
    (devices : Enumeration vk.PhysicalDevice) (table : device_table) : Runtime := {|
  EnumerateInstanceLayerProperties := enumeration_of layers;
  EnumerateInstanceExtensionProperties :=
    enumeration_of (map (fun n => {| vk.ExtensionName := n |}) windowExtensions);
  GetRequiredInstanceExtensions := windowExtensions;
  CreateInstance := fun _ => created;
  EnumeratePhysicalDevices := fun _ => devices;
  GetPhysicalDeviceProperties := fun d => fst (describe table d);
  GetPhysicalDeviceFeatures := fun d => snd (describe table d)
|}.

Definition host_with_devices (table : device_table) : Runtime :=
  host [] [] (vk.Success, 1) (enumeration_of (map fst table)) table.

(** A fresh application with a window, and one whose instance exists. *)
Definition fresh : World :=
  {| app := {| window := 1; instance := vk.NullHandle; debug := vk.NullHandle |};
     logged := [] |}.

Definition with_instance : World :=
  {| app := {| window := 1; instance := 1; debug := vk.NullHandle |};
     logged := [] |}.

Definition standard_validation : vk.LayerProperties :=
  {| vk.LayerName := "VK_LAYER_LUNARG_standard_validation";
     vk.Description := "LunarG Standard Validation" |}.

(** A host that has the layer the program asks for, and creates instance 7. *)
Definition validating_host : Runtime :=
  host [standard_validation] ["VK_KHR_surface"; "VK_KHR_xcb_surface"]
    (vk.Success, 7) (enumeration_of []) [].

(** Scenario 3 of the specification: no device at all. *)
Definition no_device_host : Runtime := host_with_devices [].

(** Scenario 2 of the specification. *)
Definition geometry_shader_host : Runtime :=
  host_with_devices [gpu 5 vk.PhysicalDeviceTypeDiscreteGpu "GeForce" 16384 true].

(** Scenario 1 of the specification: a discrete GPU (handle 1) with limit
    4096 and an integrated GPU (handle 2) with limit 8192, neither with the
    geometry-shader flag. *)
Definition scenario_1 : Runtime :=
  host_with_devices
    [gpu 1 vk.PhysicalDeviceTypeDiscreteGpu "discrete" 4096 false;
     gpu 2 vk.PhysicalDeviceTypeIntegratedGpu "integrated" 8192 false].

(** Seven GPUs, handles 1 to 7 in enumeration order; the second and the
    seventh are discrete. *)
Definition seven_gpus : Runtime :=
  host_with_devices
    [gpu 1 vk.PhysicalDeviceTypeIntegratedGpu "gpu1" 10 false;
     gpu 2 vk.PhysicalDeviceTypeDiscreteGpu "gpu2" 20 false;
     gpu 3 vk.PhysicalDeviceTypeIntegratedGpu "gpu3" 5 false;
     gpu 4 vk.PhysicalDeviceTypeIntegratedGpu "gpu4" 5 false;
     gpu 5 vk.PhysicalDeviceTypeIntegratedGpu "gpu5" 5 false;
     gpu 6 vk.PhysicalDeviceTypeIntegratedGpu "gpu6" 5 false;
     gpu 7 vk.PhysicalDeviceTypeDiscreteGpu "gpu7" 20 false].

(** Thirteen GPUs, handles 1 to 13 in enumeration order; the seventh and
    the tenth are discrete. *)
Definition thirteen_gpus : Runtime :=
  host_with_devices
    [gpu 1 vk.PhysicalDeviceTypeIntegratedGpu "gpu1" 4096 false;
     gpu 2 vk.PhysicalDeviceTypeIntegratedGpu "gpu2" 4096 false;
     gpu 3 vk.PhysicalDeviceTypeIntegratedGpu "gpu3" 4096 false;
     gpu 4 vk.PhysicalDeviceTypeIntegratedGpu "gpu4" 4096 false;
     gpu 5 vk.PhysicalDeviceTypeIntegratedGpu "gpu5" 4096 false;
     gpu 6 vk.PhysicalDeviceTypeIntegratedGpu "gpu6" 4096 false;
     gpu 7 vk.PhysicalDeviceTypeDiscreteGpu "gpu7" 4096 false;
     gpu 8 vk.PhysicalDeviceTypeIntegratedGpu "gpu8" 4096 false;
     gpu 9 vk.PhysicalDeviceTypeIntegratedGpu "gpu9" 4096 false;
     gpu 10 vk.PhysicalDeviceTypeDiscreteGpu "gpu10" 4096 false;
     gpu 11 vk.PhysicalDeviceTypeIntegratedGpu "gpu11" 4096 false;
     gpu 12 vk.PhysicalDeviceTypeIntegratedGpu "gpu12" 4096 false;
     gpu 13 vk.PhysicalDeviceTypeIntegratedGpu "gpu13" 4096 false].

(** A discrete GPU whose limit is the largest [uint32], beside an
    integrated GPU with limit 4096. *)
Definition wrapping_host : Runtime :=
  host_with_devices
    [gpu 1 vk.PhysicalDeviceTypeDiscreteGpu "discrete" (2 ^ 32 - 1) false;
     gpu 2 vk.PhysicalDeviceTypeIntegratedGpu "integrated" 4096 false].

(** ** The controller: window, diagnostics handle, main loop and teardown *)

Definition width : Z := 1280.
Definition height : Z := 720.

(** The targets and values of the two [glfw.WindowHint] calls. *)
Inductive window_hint : Type := glfw_ClientAPI | glfw_Resizable.
Inductive hint_value : Type := glfw_NoAPI | glfw_False.

(** The calls the program makes for their effect alone; they are recorded
    in the order they are made. Calls that answer are fields of [Runtime]
    and [Platform]. *)
Inductive platform_call : Type :=
| glfw_WindowHint (target : window_hint) (hint : hint_value)
| vk_SetGetInstanceProcAddr (procAddr : Z)
| glfw_PollEvents
| vk_DestroyDebugReportCallback (i : vk.Instance) (callback : vk.DebugReportCallback)
| vk_DestroyInstance (i : vk.Instance)
| Window_Destroy (w : Z)
| glfw_Terminate.

(** [vk.DebugUtilsMessageSeverity*Bit] and the structure type that
    [setupDebugCallback] writes into its create info. *)
Definition vk_DebugUtilsMessageSeverityVerboseBit : Z := 1.
Definition vk_DebugUtilsMessageSeverityWarningBit : Z := 256.
Definition vk_DebugUtilsMessageSeverityErrorBit : Z := 4096.
Definition vk_StructureTypeDebugUtilsMessengerCreateInfo : Z := 1000128004.

(** [vk.NullDebugReportCallback]: the zero handle. *)
Definition vk_NullDebugReportCallback : vk.DebugReportCallback := vk.NullHandle.

Record DebugReportCallbackCreateInfo : Type := {
  SType : Z;
  Flags : vk.DebugReportFlags;
  PfnCallback :
    vk.DebugReportFlags -> Z -> Z -> Z -> Z -> string -> string -> Z -> M vk.Bool32
}.

(** What GLFW and the Vulkan loader answer besides [Runtime]. A window's
    close flag and the state of its escape key change only when events are
    polled, so [w.ShouldClose()] and [w.GetKey(glfw.KeyEscape) == glfw.Press]
    are given as functions of the window and of the number of
    [glfw.PollEvents] calls made so far. GLFW errors, which the binding
    raises as panics of its own, are not modelled. *)
Record Platform : Type := {
  vulkan : Runtime;
  glfw_Init : option error;
  glfw_CreateWindow : Z -> Z -> string -> error + Z;
  glfw_GetVulkanGetInstanceProcAddress : Z;
  vk_Init : option error;
  vk_CreateDebugReportCallback :
    vk.Instance -> DebugReportCallbackCreateInfo -> vk.Result * vk.DebugReportCallback;
  Window_ShouldClose : Z -> nat -> bool;
  Window_EscapePressed : Z -> nat -> bool
}.

(** The state of a run: the application and its log, the effect calls made
    so far and the number of [glfw.PollEvents] calls among them. *)
Record Process : Type := {
  world : World;
  calls : list platform_call;
  polls : nat
}.

(** The monad of the controller: as [M], over [Process]; [None] is a main
    loop that is still running when its fuel is spent. *)
Definition P (A : Type) : Type := Process -> option (outcome A * Process).

Definition retP {A : Type} (a : A) : P A := fun p => Some (Ok a, p).

Definition bindP {A B : Type} (m : P A) (k : A -> P B) : P B :=
  fun p =>
    match m p with
    | Some (Ok a, p') => k a p'
    | Some (Err e, p') => Some (Err e, p')
    | Some (Panic s, p') => Some (Panic s, p')
    | None => None
    end.

Declare Scope P_scope.
Delimit Scope P_scope with P.
Bind Scope P_scope with P.

Notation "x <- m ;; k" := (bindP m (fun x => k))
  (at level 61, m at next level, right associativity) : P_scope.
Notation "m ;; k" := (bindP m (fun _ => k))
  (at level 61, right associativity) : P_scope.

Definition failP {A : Type} (e : error) : P A := fun p => Some (Err e, p).

(** A method of [M] run by the controller. *)
Definition lift {A : Type} (m : M A) : P A :=
  fun p =>
    let '(r, w) := m (world p) in
    Some (r, {| world := w; calls := calls p; polls := polls p |}).

Definition call (c : platform_call) : P unit :=
  fun p => Some (Ok tt, {| world := world p; calls := calls p ++ [c]; polls := polls p |}).

Definition PollEvents : P unit :=
  fun p =>
    Some (Ok tt,
          {| world := world p; calls := calls p ++ [glfw_PollEvents]; polls := S (polls p) |}).

Definition get_polls : P nat := fun p => Some (Ok (polls p), p).

(** [if err := m(); err != nil { return errors.Wrap(err, message) }] *)
Definition wrappedP {A : Type} (m : P A) (message : string) : P A :=
  fun p =>
    match m p with
    | Some (Err err, p') => Some (Err (errors_Wrap err message), p')
    | r => r
    end.

(** [defer d()] around [body]: [d] runs when [body] returns or panics, and
    the outcome of [body] stands. *)
Definition deferred {A : Type} (body : P A) (d : P unit) : P A :=
  fun p =>
    match body p with
    | Some (r, p') =>
        match d p' with
        | Some (_, p'') => Some (r, p'')
        | None => None
        end
    | None => None
    end.

Definition set_window (w : Z) : M unit :=
  fun s =>
    (Ok tt,
     {| app := {| window := w; instance := instance (app s); debug := debug (app s) |};
        logged := logged s |}).

Definition set_debug (callback : vk.DebugReportCallback) : M unit :=
  fun s =>
    (Ok tt,
     {| app := {| window := window (app s); instance := instance (app s);
                  debug := callback |};
        logged := logged s |}).

Section Controller.

Context {sorter : SliceSorter}.
Variable cfg : Config.
Variable pf : Platform.

Definition initWindow : P unit :=
  (match glfw_Init pf with
   | Some err => failP (errors_Wrap err "can't init GLFW")
   | None =>
       call (glfw_WindowHint glfw_ClientAPI glfw_NoAPI);;
       call (glfw_WindowHint glfw_Resizable glfw_False);;
       match glfw_CreateWindow pf width height title with
       | inl err => failP (errors_Wrap err "can't create GLFW window")
       | inr window => lift (set_window window)
       end
   end)%P.

(** The create info of [setupDebugCallback]. *)
Definition debugCreateInfo : DebugReportCallbackCreateInfo := {|
  SType := vk_StructureTypeDebugUtilsMessengerCreateInfo;
  Flags :=
    Z.lor (Z.lor vk_DebugUtilsMessageSeverityVerboseBit
                 vk_DebugUtilsMessageSeverityWarningBit)
          vk_DebugUtilsMessageSeverityErrorBit;
  PfnCallback := debugCallback
|}.

Definition setupDebugCallback : M unit :=
  if negb (enableValidationLayers cfg) then ret tt
  else
    a <- get_app;;
    let '(result, debugReportCallback) :=
      vk_CreateDebugReportCallback pf (instance a) debugCreateInfo in
    check result "can't create debug report";;
    set_debug debugReportCallback.

Definition initVulkan : P unit :=
  (let procAddr := glfw_GetVulkanGetInstanceProcAddress pf in
   if procAddr =? 0 then failP (errors_New "GLFW instanceProcAddress is nil")
   else
     call (vk_SetGetInstanceProcAddr procAddr);;
     match vk_Init pf with
     | Some err => failP (errors_Wrap err "can't vk.init()")
     | None =>
         wrappedP (lift (createInstance cfg (vulkan pf))) "can't create vk instance";;
         wrappedP (lift setupDebugCallback) "can't create vk instance";;
         wrappedP (lift (pickPhysicalDevice (vulkan pf))) "can't pick physical device";;
         retP tt
     end)%P.

(** The loop of [mainLoop] on the window [w], at most [fuel] iterations of
    it. *)
Fixpoint mainLoop_for (w : Z) (fuel : nat) : P unit :=
  match fuel with
  | O => fun _ => None
  | S fuel' =>
      (n <- get_polls;;
       if Window_ShouldClose pf w n then retP tt
       else
         PollEvents;;
         n <- get_polls;;
         if Window_EscapePressed pf w n then retP tt
         else mainLoop_for w fuel')%P
  end.

Definition mainLoop (fuel : nat) : P unit :=
  (a <- lift get_app;;
   let w := window a in
   mainLoop_for w fuel)%P.

Definition cleanup : P unit :=
  (a <- lift get_app;;
   (if enableValidationLayers cfg && negb (debug a =? 0)
       && negb (debug a =? vk_NullDebugReportCallback)
    then call (vk_DestroyDebugReportCallback (instance a) (debug a))
    else retP tt);;
   a <- lift get_app;;
   (if negb (instance a =? 0) then call (vk_DestroyInstance (instance a))
    else retP tt);;
   a <- lift get_app;;
   (if negb (window a =? 0) then call (Window_Destroy (window a)) else retP tt);;
   call glfw_Terminate)%P.

Definition Run (fuel : nat) : P unit :=
  deferred
    (wrappedP initWindow "can't init window";;
     wrappedP initVulkan "can't init vulkan";;
     wrappedP (mainLoop fuel) "can't init vulkan";;
     retP tt)%P
    cleanup.

End Controller.

(** How the process ends: [main] returns, [log.Fatal] exits with status 1
    after logging its argument, or a panic reaches the top. *)
Inductive exit_status : Type :=
| returned
| fatal (err : error)
| crashed (message : string).

Definition logP (c : log_call) (p : Process) : Process :=
  {| world := {| app := app (world p); logged := logged (world p) ++ [c] |};
     calls := calls p;
     polls := polls p |}.

(** The process [main] starts [Run] in: a zero [HelloTriangleApplication],
    "Starting" already logged. *)
Definition started : Process :=
  {| world :=
       {| app := {| window := 0; instance := vk.NullHandle; debug := vk.NullHandle |};
          logged := [log_Printf "Starting %s" [arg_string title]] |};
     calls := [];
     polls := 0 |}.

(** [main]. The deferred "Closing" line is logged when [main] returns or
    panics; [log.Fatal] exits the process without running deferred calls. *)
Definition main {sorter : SliceSorter} (cfg : Config) (pf : Platform) (fuel : nat)
    : option (exit_status * Process) :=
  match Run cfg pf fuel started with
  | None => None
  | Some (Err err, p) =>
      Some (fatal (errors_Wrap err ("can't run " ++ title)%string), p)
  | Some (Ok _, p) =>
      Some (returned,
            logP (log_Printf "Closing %s" [arg_string title])
              (logP (log_Printf "Ran %s successfully" [arg_string title]) p))
  | Some (Panic s, p) =>
      Some (crashed s, logP (log_Printf "Closing %s" [arg_string title]) p)
  end.

(** A platform on which every stage succeeds: window 3, instance 7,
    diagnostics handle 9, one discrete GPU, and a close request after two
    polls. *)
Definition working_platform : Platform := {|
  vulkan :=
    host [standard_validation] ["VK_KHR_surface"] (vk.Success, 7)
      (enumeration_of [5])
      [gpu 5 vk.PhysicalDeviceTypeDiscreteGpu "GeForce" 16384 false];
  glfw_Init := None;
  glfw_CreateWindow := fun _ _ _ => inr 3;
  glfw_GetVulkanGetInstanceProcAddress := 11;
  vk_Init := None;
  vk_CreateDebugReportCallback := fun _ _ => (vk.Success, 9);
  Window_ShouldClose := fun _ n => (2 <=? n)%nat;
  Window_EscapePressed := fun _ _ => false
|}.

(** The same platform without the validation layer (scenario 4 of the
    specification). *)
Definition platform_without_layer : Platform := {|
  vulkan :=
    host [] ["VK_KHR_surface"] (vk.Success, 7) (enumeration_of [5])
      [gpu 5 vk.PhysicalDeviceTypeDiscreteGpu "GeForce" 16384 false];
  glfw_Init := None;
  glfw_CreateWindow := fun _ _ _ => inr 3;
  glfw_GetVulkanGetInstanceProcAddress := 11;
  vk_Init := None;
  vk_CreateDebugReportCallback := fun _ _ => (vk.Success, 9);
  Window_ShouldClose := fun _ n => (2 <=? n)%nat;
  Window_EscapePressed := fun _ _ => false
|}.

(** Two devices with the same limit, one discrete and one integrated. *)
Definition same_limit_host : Runtime :=
  host_with_devices
    [gpu 1 vk.PhysicalDeviceTypeDiscreteGpu "discrete" 4096 false;
     gpu 2 vk.PhysicalDeviceTypeIntegratedGpu "integrated" 4096 false].

(** A host whose enumerations all report [result]. *)
Definition failing_host (result : vk.Result) : Runtime := {|
  EnumerateInstanceLayerProperties := failed_enumeration result;
  EnumerateInstanceExtensionProperties := failed_enumeration result;
  GetRequiredInstanceExtensions := [];
  CreateInstance := fun _ => (vk.Success, 7);
  EnumeratePhysicalDevices := fun _ => failed_enumeration result;
  GetPhysicalDeviceProperties := fun _ => fst zero_device;
  GetPhysicalDeviceFeatures := fun _ => snd zero_device
|}.

(** The status [vk.Error] sees first in a two-call enumeration: that of the
    count call unless it is [Success], then that of the fill call. *)
Definition first_status {A : Type} (e : Enumeration A) : vk.Result :=
  if count_status e =? vk.Success then fill_status e else count_status e.

(** The log lines of [checkValidationLayerSupport]. *)
Definition layer_line (layer : vk.LayerProperties) : log_call :=
  log_Printf " > %s <%s>"
    [arg_string (vk.LayerName layer); arg_string (vk.Description layer)].

Definition supported_line (name : string) : log_call :=
  log_Printf "%s is a supported validation layer" [arg_string name].

(** The requested names that come before the first one that is not
    available. *)
Fixpoint supported_prefix (available requested : list string) : list string :=
  match requested with
  | [] => []
  | vln :: rest =>
      if existsb (String.eqb vln) available
      then vln :: supported_prefix available rest
      else []
  end.

Definition all_supported (available requested : list string) : bool :=
  forallb (fun vln => existsb (String.eqb vln) available) requested.

(** The first thing that makes [createInstance] fail, if anything does, in
    the order the function meets them. *)
Definition createInstance_failure (cfg : Config) (rt : Runtime) : option error :=
  let layers := EnumerateInstanceLayerProperties rt in
  let extensions := EnumerateInstanceExtensionProperties rt in
  let result := fst (CreateInstance rt (createInfo cfg rt)) in
  if enableValidationLayers cfg && negb (count_status layers =? vk.Success) then
    Some (errors_Wrap
            (errors_Wrap (vk_Error (count_status layers)) "can't get layer count")
            "can't check validation layers")
  else if enableValidationLayers cfg && negb (fill_status layers =? vk.Success) then
    Some (errors_Wrap
            (errors_Wrap (vk_Error (fill_status layers)) "can't get layers")
            "can't check validation layers")
  else if enableValidationLayers cfg
          && negb (all_supported (available_layer_names rt) (validationLayerNames cfg))
  then Some (errors_New "validation layers requested but not available")
  else if negb (count_status extensions =? vk.Success) then
    Some (errors_Wrap (vk_Error (count_status extensions))
            "can't enumerate instance extensions")
  else if negb (fill_status extensions =? vk.Success) then
    Some (errors_Wrap (vk_Error (fill_status extensions))
            "can't enumerate instance extensions")
  else if negb (result =? vk.Success) then
    Some (errors_Wrap (vk_Error result) "can't create instance")
  else None.

(** The calls of [cleanup] for an application [a], in order. *)
Definition teardown (cfg : Config) (a : HelloTriangleApplication) : list platform_call :=
  (if enableValidationLayers cfg && negb (debug a =? vk.NullHandle)
   then [vk_DestroyDebugReportCallback (instance a) (debug a)] else [])
  ++ (if negb (instance a =? vk.NullHandle) then [vk_DestroyInstance (instance a)] else [])
  ++ (if negb (window a =? 0) then [Window_Destroy (window a)] else [])
  ++ [glfw_Terminate].

(** The handles a platform hands out: the window, the instance (created
    from [createInfo]) and the diagnostics handle (created on that
    instance). *)
Definition created_instance (cfg : Config) (pf : Platform) : vk.Result * vk.Instance :=
  CreateInstance (vulkan pf) (createInfo cfg (vulkan pf)).

Definition created_callback (cfg : Config) (pf : Platform)
    : vk.Result * vk.DebugReportCallback :=
  vk_CreateDebugReportCallback pf (snd (created_instance cfg pf)) debugCreateInfo.

(** How far [Run] can have brought an application that started as [a0]:
    nothing acquired; a window; a window and an instance; a window, an
    instance and a diagnostics handle. *)
Inductive acquired (cfg : Config) (pf : Platform) (a0 : HelloTriangleApplication)
    : HelloTriangleApplication -> Prop :=
| acquired_nothing : acquired cfg pf a0 a0
| acquired_window (w : Z) :
    glfw_Init pf = None ->
    glfw_CreateWindow pf width height title = inr w ->
    acquired cfg pf a0 {| window := w; instance := instance a0; debug := debug a0 |}
| acquired_instance (w : Z) :
    glfw_Init pf = None ->
    glfw_CreateWindow pf width height title = inr w ->
    createInstance_failure cfg (vulkan pf) = None ->
    acquired cfg pf a0
      {| window := w; instance := snd (created_instance cfg pf); debug := debug a0 |}
| acquired_debug (w : Z) :
    glfw_Init pf = None ->
    glfw_CreateWindow pf width height title = inr w ->
    createInstance_failure cfg (vulkan pf) = None ->
    enableValidationLayers cfg = true ->
    fst (created_callback cfg pf) = vk.Success ->
    acquired cfg pf a0
      {| window := w; instance := snd (created_instance cfg pf);
         debug := snd (created_callback cfg pf) |}.

(** Partial correctness of a controller step: from a process that
    satisfies [Pre], if [m] returns, its outcome and final process satisfy
    [Post]. *)
Definition triple {A : Type} (Pre : Process -> Prop) (m : P A)
    (Post : outcome A -> Process -> Prop) : Prop :=
  forall p r p', Pre p -> m p = Some (r, p') -> Post r p'.

(** The first moment, counted in [glfw.PollEvents] calls and starting from
    [n], at which [mainLoop] leaves window [w]: the close flag is set, or
    the escape key is down right after a poll. [None] when that does not
    happen within [fuel] polls. *)
Fixpoint exit_time (pf : Platform) (w : Z) (fuel n : nat) : option nat :=
  match fuel with
  | O => None
  | S fuel' =>
      if Window_ShouldClose pf w n then Some n
      else if Window_EscapePressed pf w (S n) then Some (S n)
      else exit_time pf w fuel' (S n)
  end.

(** A process whose window, instance and diagnostics handle exist, before
    any event is polled. *)
Definition after_window : Process :=
  {| world := {| app := {| window := 3; instance := 7; debug := 9 |}; logged := [] |};
     calls := [];
     polls := 0 |}.

(** [working_platform] with a window that never asks to close and an
    escape key that is never pressed. *)
Definition idle_platform : Platform := {|
  vulkan := vulkan working_platform;
  glfw_Init := None;
  glfw_CreateWindow := fun _ _ _ => inr 3;
  glfw_GetVulkanGetInstanceProcAddress := 11;
  vk_Init := None;
  vk_CreateDebugReportCallback := fun _ _ => (vk.Success, 9);
  Window_ShouldClose := fun _ _ => false;
  Window_EscapePressed := fun _ _ => false
|}.

(** What [Run] leaves of [started] on [platform_without_layer]. *)
Definition stopped_without_layer : Process :=
  {| world :=
       {| app := {| window := 3; instance := vk.NullHandle; debug := vk.NullHandle |};
          logged := [log_Printf "Starting %s" [arg_string title];
                     log_Print "Available validation layers"] |};
     calls := [glfw_WindowHint glfw_ClientAPI glfw_NoAPI;
               glfw_WindowHint glfw_Resizable glfw_False;
               vk_SetGetInstanceProcAddr 11;
               Window_Destroy 3;
               glfw_Terminate];
     polls := 0 |}.

(** [working_platform] with a [glfw.Init] that fails. *)
Definition platform_without_glfw : Platform := {|
  vulkan := vulkan working_platform;
  glfw_Init := Some (errors_New "PlatformError");
  glfw_CreateWindow := fun _ _ _ => inr 3;
  glfw_GetVulkanGetInstanceProcAddress := 11;
  vk_Init := None;
  vk_CreateDebugReportCallback := fun _ _ => (vk.Success, 9);
  Window_ShouldClose := fun _ n => (2 <=? n)%nat;
  Window_EscapePressed := fun _ _ => false
|}.

(** The application [a0] with the window [w]. *)
Definition with_window (a0 : HelloTriangleApplication) (w : Z)
    : HelloTriangleApplication :=
  {| window := w; instance := instance a0; debug := debug a0 |}.

(** An error of a stage of [Run] carries the name of its stage. *)
Definition staged (r : outcome unit) : Prop :=
  forall x, r = Err x ->
    exists e stage, x = errors_Wrap e stage /\
                    (stage = "can't init window" \/ stage = "can't init vulkan").

(** * Proofs *)

(** ** The sort package *)

Section SortFacts.

Context {A : Type} (less : A -> A -> bool).

Lemma set_nth_one (x : list A) (j : nat) (b h : A) :
  nth_error x j = Some b -> Permutation (b :: sort.set_nth x j h) (h :: x).
Proof.
  revert j; induction x as [|c x IH]; intros [|j] Hj; simpl in *; try discriminate.
  - injection Hj as ->. apply perm_swap.
  - etransitivity; [apply perm_swap|].
    etransitivity; [apply perm_skip, IH, Hj|apply perm_swap].
Qed.

Lemma set_nth_swap (x : list A) (i j : nat) (a b : A) :
  nth_error x i = Some a -> nth_error x j = Some b ->
  Permutation x (sort.set_nth (sort.set_nth x i b) j a).
Proof.
  revert i j; induction x as [|h x IH]; intros [|i] [|j] Hi Hj; simpl in *;
    try discriminate.
  - injection Hi as ->. injection Hj as ->. reflexivity.
  - injection Hi as ->. symmetry. now apply set_nth_one.
  - injection Hj as ->. symmetry. now apply set_nth_one.
  - apply perm_skip. now apply IH.
Qed.

Lemma Swap_Permutation (x : list A) (i j : nat) : Permutation x (sort.Swap x i j).
Proof.
  unfold sort.Swap.
  destruct (nth_error x i) as [a|] eqn:Hi; [|reflexivity].
  destruct (nth_error x j) as [b|] eqn:Hj; [|reflexivity].
  now apply set_nth_swap.
Qed.

Lemma insertion_step_Permutation (x : list A) (a j : nat) :
  Permutation x (sort.insertion_step less x a j).
Proof.
  revert x; induction j as [|j IH]; intros x; simpl; [reflexivity|].
  destruct (_ && _); [|reflexivity].
  etransitivity; [apply Swap_Permutation|apply IH].
Qed.

Lemma insertionSort_func_Permutation (x : list A) (a b : nat) :
  Permutation x (sort.insertionSort_func less x a b).
Proof.
  unfold sort.insertionSort_func.
  generalize (a + 1)%nat as i, (b - (a + 1))%nat as n.
  intros i n; revert x i; induction n as [|n IH]; intros x i; simpl; [reflexivity|].
  etransitivity; [apply insertion_step_Permutation|apply IH].
Qed.

Lemma siftDown_func_Permutation (x : list A) (lo hi first : nat) :
  Permutation x (sort.siftDown_func less x lo hi first).
Proof.
  unfold sort.siftDown_func. generalize hi at 2 as fuel.
  intros fuel; revert x lo; induction fuel as [|fuel IH]; intros x lo; simpl;
    [reflexivity|].
  destruct (hi <=? _)%nat; [reflexivity|].
  destruct (negb _); [reflexivity|].
  etransitivity; [apply Swap_Permutation|apply IH].
Qed.

Lemma heapSort_func_Permutation (x : list A) (a b : nat) :
  Permutation x (sort.heapSort_func less x a b).
Proof.
  unfold sort.heapSort_func.
  assert (Hbuild : forall i hi first y, Permutation y (sort.build_heap less y i hi first)).
  { induction i as [|i IH]; intros hi first y; simpl.
    - apply siftDown_func_Permutation.
    - etransitivity; [apply siftDown_func_Permutation|apply IH]. }
  assert (Hpop : forall i lo first y, Permutation y (sort.pop_heap less y i lo first)).
  { induction i as [|i IH]; intros lo first y; simpl.
    - etransitivity; [apply Swap_Permutation|apply siftDown_func_Permutation].
    - etransitivity; [apply Swap_Permutation|].
      etransitivity; [apply siftDown_func_Permutation|apply IH]. }
  destruct (b - a)%nat as [|h]; [apply Hbuild|].
  etransitivity; [apply Hbuild|apply Hpop].
Qed.

Lemma partition_loop_Permutation (x : list A) (a i j fuel : nat) :
  Permutation x (fst (sort.partition_loop less x a i j fuel)).
Proof.
  revert x i j; induction fuel as [|fuel IH]; intros x i j; simpl; [reflexivity|].
  destruct (_ <? _)%nat; [reflexivity|].
  etransitivity; [apply Swap_Permutation|apply IH].
Qed.

Lemma partition_func_Permutation (x : list A) (a b pivot : nat) :
  Permutation x (fst (fst (sort.partition_func less x a b pivot))).
Proof.
  unfold sort.partition_func.
  destruct (_ <? _)%nat; simpl.
  - etransitivity; apply Swap_Permutation.
  - match goal with |- context [sort.partition_loop less ?y ?a ?i ?j ?f] =>
      pose proof (partition_loop_Permutation y a i j f) as Hp;
      destruct (sort.partition_loop less y a i j f) as [z k] end.
    simpl in *.
    etransitivity; [apply Swap_Permutation|].
    etransitivity; [apply Swap_Permutation|].
    etransitivity; [exact Hp|apply Swap_Permutation].
Qed.

Lemma partitionEqual_func_Permutation (x : list A) (a b pivot : nat) :
  Permutation x (fst (sort.partitionEqual_func less x a b pivot)).
Proof.
  unfold sort.partitionEqual_func.
  etransitivity; [apply (Swap_Permutation x a pivot)|].
  generalize (sort.Swap x a pivot) as y, (a + 1)%nat as i, (b - 1)%nat as j,
    (S (b - a)) as fuel.
  intros y i j fuel; revert y i j; induction fuel as [|fuel IH]; intros y i j; simpl;
    [reflexivity|].
  destruct (_ <? _)%nat; [reflexivity|].
  etransitivity; [apply Swap_Permutation|apply IH].
Qed.

Lemma shift_left_Permutation (x : list A) (j : nat) :
  Permutation x (sort.shift_left less x j).
Proof.
  revert x; induction j as [|j IH]; intros x; simpl; [reflexivity|].
  destruct (negb _); [reflexivity|].
  etransitivity; [apply Swap_Permutation|apply IH].
Qed.

Lemma shift_right_Permutation (x : list A) (j n : nat) :
  Permutation x (sort.shift_right less x j n).
Proof.
  revert x j; induction n as [|n IH]; intros x j; simpl; [reflexivity|].
  destruct (negb _); [reflexivity|].
  etransitivity; [apply Swap_Permutation|apply IH].
Qed.

Lemma partialInsertionSort_func_Permutation (x : list A) (a b : nat) :
  Permutation x (fst (sort.partialInsertionSort_func less x a b)).
Proof.
  unfold sort.partialInsertionSort_func.
  generalize (a + 1)%nat as i, sort.maxSteps as steps.
  intros i steps; revert x i; induction steps as [|steps IH]; intros x i;
    [reflexivity|].
  cbn [sort.partialInsertionSort_loop].
  destruct (_ =? _)%nat; [reflexivity|].
  destruct (_ <? _)%nat; [reflexivity|].
  etransitivity; [|apply IH].
  etransitivity; [apply Swap_Permutation|].
  destruct (2 <=? _)%nat; destruct (2 <=? _)%nat;
    repeat (etransitivity; [|apply shift_right_Permutation]);
    repeat (etransitivity; [|apply shift_left_Permutation]); reflexivity.
Qed.

Lemma reverseRange_func_Permutation (x : list A) (a b : nat) :
  Permutation x (sort.reverseRange_func x a b).
Proof.
  unfold sort.reverseRange_func.
  generalize (b - 1)%nat as j, (b - a)%nat as fuel. intros j fuel.
  revert x a j; induction fuel as [|fuel IH]; intros x a j; simpl; [reflexivity|].
  destruct (_ <? _)%nat; [|reflexivity].
  etransitivity; [apply Swap_Permutation|apply IH].
Qed.

Lemma breakPatterns_loop_Permutation (x : list A) (a length idx : nat)
    (random modulus : Z) (i n : nat) :
  Permutation x (sort.breakPatterns_loop x a length idx random modulus i n).
Proof.
  revert x random i; induction n as [|n IH]; intros x random i; simpl; [reflexivity|].
  etransitivity; [apply Swap_Permutation|apply IH].
Qed.

Lemma breakPatterns_func_Permutation (x : list A) (a b : nat) :
  Permutation x (sort.breakPatterns_func x a b).
Proof.
  unfold sort.breakPatterns_func.
  destruct (8 <=? _)%nat; [apply breakPatterns_loop_Permutation|reflexivity].
Qed.

Lemma pdqsort_func_Permutation (x : list A) (a b limit : nat)
    (wasBalanced wasPartitioned : bool) (fuel : nat) :
  Permutation x (sort.pdqsort_func less x a b limit wasBalanced wasPartitioned fuel).
Proof.
  revert x a b limit wasBalanced wasPartitioned.
  induction fuel as [|fuel IH]; intros x a b limit wasBalanced wasPartitioned;
    [reflexivity|].
  cbn [sort.pdqsort_func].
  destruct (_ <=? sort.maxInsertion)%nat; [apply insertionSort_func_Permutation|].
  destruct (limit =? 0)%nat; [apply heapSort_func_Permutation|].
  set (broken := if negb wasBalanced then _ else _).
  assert (Hb : Permutation x (fst broken)).
  { unfold broken. destruct wasBalanced; simpl;
      [reflexivity|apply breakPatterns_func_Permutation]. }
  destruct broken as [x1 limit1]. simpl in Hb.
  destruct (sort.choosePivot_func less x1 a b) as [pivot hint].
  set (turned := if sort.is_decreasing hint then _ else _).
  assert (Ht : Permutation x1 (fst (fst turned))).
  { unfold turned. destruct (sort.is_decreasing hint); simpl;
      [apply reverseRange_func_Permutation|reflexivity]. }
  destruct turned as [[x2 pivot2] hint2]. simpl in Ht.
  set (tried := if _ && _ && _ then _ else _).
  assert (Hi : Permutation x2 (fst tried)).
  { unfold tried. destruct (_ && _ && _); simpl;
      [apply partialInsertionSort_func_Permutation|reflexivity]. }
  destruct tried as [x3 sorted]. simpl in Hi.
  assert (H3 : Permutation x x3) by (now rewrite Hb, Ht).
  destruct sorted; [exact H3|].
  destruct (_ && _).
  - pose proof (partitionEqual_func_Permutation x3 a b pivot2) as Hp.
    destruct (sort.partitionEqual_func less x3 a b pivot2) as [x4 mid]. simpl in Hp.
    etransitivity; [|apply IH]. now rewrite H3.
  - pose proof (partition_func_Permutation x3 a b pivot2) as Hp.
    destruct (sort.partition_func less x3 a b pivot2) as [[x4 mid] already].
    simpl in Hp.
    destruct (_ <? _)%nat; (etransitivity; [|apply IH]);
      (etransitivity; [|apply IH]); now rewrite H3.
Qed.

Lemma Slice_Permutation (x : list A) : Permutation x (sort.Slice x less).
Proof. apply pdqsort_func_Permutation. Qed.


(** *** Insertion sort *)

Lemma move_left_Permutation (v : A) (before : list A) :
  Permutation (v :: before) (move_left less v before).
Proof.
  induction before as [|b before IH]; simpl; [reflexivity|].
  destruct (less v b); [|reflexivity].
  etransitivity; [apply perm_swap|apply perm_skip, IH].
Qed.

Lemma move_left_length (v : A) (before : list A) :
  List.length (move_left less v before) = S (List.length before).
Proof. symmetry. apply (Permutation_length (move_left_Permutation v before)). Qed.

Lemma nth_error_middle (l1 l2 : list A) (v : A) :
  nth_error (l1 ++ v :: l2) (List.length l1) = Some v.
Proof. induction l1; simpl; auto. Qed.

Lemma nth_error_after_middle (l1 l2 : list A) (u v : A) :
  nth_error (l1 ++ u :: v :: l2) (S (List.length l1)) = Some v.
Proof. induction l1; simpl; auto. Qed.

Lemma set_nth_middle (l1 l2 : list A) (u v : A) :
  sort.set_nth (l1 ++ u :: l2) (List.length l1) v = l1 ++ v :: l2.
Proof. induction l1 as [|c l1 IH]; simpl; [reflexivity|now rewrite IH]. Qed.

Lemma set_nth_after_middle (l1 l2 : list A) (u v w : A) :
  sort.set_nth (l1 ++ u :: v :: l2) (S (List.length l1)) w = l1 ++ u :: w :: l2.
Proof. induction l1 as [|c l1 IH]; simpl; [reflexivity|now rewrite IH]. Qed.

(** Swapping two neighbours. *)
Lemma Swap_neighbours (l1 l2 : list A) (u v : A) :
  sort.Swap (l1 ++ u :: v :: l2) (S (List.length l1)) (List.length l1) =
  l1 ++ v :: u :: l2.
Proof.
  unfold sort.Swap.
  now rewrite nth_error_middle, nth_error_after_middle, set_nth_after_middle,
    set_nth_middle.
Qed.

Lemma Less_neighbours (l1 l2 : list A) (u v : A) :
  sort.Less less (l1 ++ u :: v :: l2) (S (List.length l1)) (List.length l1) = less v u.
Proof.
  unfold sort.Less. now rewrite nth_error_middle, nth_error_after_middle.
Qed.

(** The inner loop of [insertionSort_func] is [move_left]. *)
Lemma insertion_step_move_left (pre before post : list A) (v : A) :
  sort.insertion_step less (pre ++ rev before ++ v :: post) (List.length pre)
    (List.length pre + List.length before) =
  pre ++ rev (move_left less v before) ++ post.
Proof.
  revert post; induction before as [|b before IH]; intros post.
  - simpl. rewrite Nat.add_0_r.
    destruct (List.length pre) as [|n] eqn:E; simpl; [reflexivity|].
    now rewrite Nat.ltb_irrefl.
  - cbn [rev move_left List.length].
    rewrite Nat.add_succ_r. cbn [sort.insertion_step].
    replace (List.length pre <? S (List.length pre + List.length before))%nat with true
      by (symmetry; apply Nat.ltb_lt; lia).
    cbn [andb].
    assert (E : pre ++ (rev before ++ [b]) ++ v :: post =
                (pre ++ rev before) ++ b :: v :: post)
      by (now rewrite <- !app_assoc).
    assert (L : (List.length pre + List.length before)%nat =
                List.length (pre ++ rev before))
      by (rewrite length_app, length_rev; reflexivity).
    rewrite E, L, Less_neighbours. destruct (less v b).
    + rewrite Swap_neighbours, <- L, <- app_assoc, IH.
      cbn [rev]. now rewrite <- !app_assoc.
    + cbn [rev]. now rewrite <- !app_assoc.
Qed.

Lemma insertion_loop_insert_all (pre before todo post : list A) :
  sort.insertion_loop less (pre ++ rev before ++ todo ++ post) (List.length pre)
    (List.length pre + List.length before) (List.length todo) =
  pre ++ rev (insert_all less todo before) ++ post.
Proof.
  revert before; induction todo as [|v todo IH]; intros before; [reflexivity|].
  cbn [List.length sort.insertion_loop insert_all fold_left].
  change ((v :: todo) ++ post) with (v :: todo ++ post).
  rewrite insertion_step_move_left.
  fold (insert_all less todo (move_left less v before)).
  rewrite <- IH, move_left_length. f_equal. lia.
Qed.

(** [insertionSort_func] on the range [a, b) of a slice cut in three. *)
Lemma insertionSort_func_insert_all (pre mid post : list A) :
  sort.insertionSort_func less (pre ++ mid ++ post) (List.length pre)
    (List.length pre + List.length mid) =
  pre ++ rev (insert_all less mid []) ++ post.
Proof.
  unfold sort.insertionSort_func.
  destruct mid as [|v mid].
  - simpl. replace (_ - _)%nat with 0%nat by lia. reflexivity.
  - cbn [List.length insert_all fold_left move_left].
    replace (_ - _)%nat with (List.length mid) by lia.
    change (pre ++ (v :: mid) ++ post) with (pre ++ rev [v] ++ mid ++ post).
    replace (List.length pre + 1)%nat with (List.length pre + List.length [v])%nat
      by reflexivity.
    apply insertion_loop_insert_all.
Qed.

Lemma insertionSort_func_whole (x : list A) :
  sort.insertionSort_func less x 0 (List.length x) = rev (insert_all less x []).
Proof.
  pose proof (insertionSort_func_insert_all [] x []) as H.
  simpl in H. now rewrite !app_nil_r in H.
Qed.

Lemma insert_all_Permutation (x before : list A) :
  Permutation (x ++ before) (insert_all less x before).
Proof.
  unfold insert_all.
  revert before; induction x as [|v x IH]; intros before; simpl; [reflexivity|].
  etransitivity; [|apply IH].
  etransitivity; [apply Permutation_middle|].
  apply Permutation_app_head, move_left_Permutation.
Qed.

Hypothesis less_ok : StrictWeakOrder less.

Lemma less_asym (a b : A) : less a b = true -> less b a = false.
Proof.
  intros Hab. destruct (less b a) eqn:Hba; [|reflexivity].
  rewrite <- (less_irrefl less less_ok a). symmetry.
  now apply (less_trans less less_ok a b a).
Qed.

Lemma move_left_head (v b : A) (before : list A) :
  exists rest,
    move_left less v (b :: before) = v :: rest /\ less v b = false \/
    move_left less v (b :: before) = b :: rest /\ less v b = true.
Proof.
  simpl. destruct (less v b); eauto.
Qed.

Lemma move_left_sorted (v : A) (before : list A) :
  sorted_before less before = true ->
  sorted_before less (move_left less v before) = true.
Proof.
  induction before as [|b before IH]; intros Hs; [reflexivity|].
  simpl. destruct (less v b) eqn:Hvb.
  - assert (Hrest : sorted_before less before = true).
    { destruct before; [reflexivity|]. simpl in Hs.
      now apply andb_true_iff in Hs. }
    specialize (IH Hrest).
    destruct before as [|c before].
    + simpl. now rewrite (less_asym _ _ Hvb).
    + destruct (move_left_head v c before) as [rest [[E Hvc]|[E Hvc]]];
        rewrite E in *; simpl sorted_before at 1.
      * rewrite (less_asym _ _ Hvb). exact IH.
      * simpl in Hs. apply andb_true_iff in Hs as [Hbc _].
        rewrite Hbc. exact IH.
  - simpl in *. now rewrite Hvb.
Qed.

Lemma insert_all_sorted (x before : list A) :
  sorted_before less before = true ->
  sorted_before less (insert_all less x before) = true.
Proof.
  unfold insert_all.
  revert before; induction x as [|v x IH]; intros before Hs; simpl; [exact Hs|].
  now apply IH, move_left_sorted.
Qed.

Lemma SliceIsSorted_snoc (x : list A) (b a : A) :
  SliceIsSorted (x ++ [b]) less = true -> less a b = false ->
  SliceIsSorted ((x ++ [b]) ++ [a]) less = true.
Proof.
  induction x as [|c x IH]; intros Hs Hab; simpl.
  - now rewrite Hab.
  - destruct x as [|d x]; simpl in *.
    + apply andb_true_iff in Hs as [-> _]. now rewrite Hab.
    + apply andb_true_iff in Hs as [-> Hs]. simpl. now apply IH.
Qed.

Lemma sorted_before_rev (before : list A) :
  sorted_before less before = true -> SliceIsSorted (rev before) less = true.
Proof.
  induction before as [|a before IH]; intros Hs; [reflexivity|].
  destruct before as [|b before]; [reflexivity|].
  simpl in Hs. apply andb_true_iff in Hs as [Hab Hs].
  change (rev (a :: b :: before)) with ((rev before ++ [b]) ++ [a]).
  apply SliceIsSorted_snoc.
  - now apply IH.
  - now destruct (less a b).
Qed.

Lemma insert_all_IsSorted (x : list A) :
  SliceIsSorted (rev (insert_all less x [])) less = true.
Proof. now apply sorted_before_rev, insert_all_sorted. Qed.

End SortFacts.

(** *** Ranges of a slice *)

Section RangeFacts.

Context {A : Type} (less : A -> A -> bool).

Lemma set_nth_length (x : list A) (i : nat) (v : A) :
  List.length (sort.set_nth x i v) = List.length x.
Proof.
  revert i; induction x as [|c x IH]; intros [|i]; simpl; auto.
Qed.

Lemma nth_error_set_nth (x : list A) (i k : nat) (v : A) :
  nth_error (sort.set_nth x i v) k =
  if (k =? i)%nat && (i <? List.length x)%nat then Some v else nth_error x k.
Proof.
  revert i k; induction x as [|c x IH]; intros i k.
  - simpl. rewrite andb_false_r. now destruct i.
  - destruct i as [|i], k as [|k]; try reflexivity. simpl. apply IH.
Qed.

Lemma Swap_length (x : list A) (i j : nat) :
  List.length (sort.Swap x i j) = List.length x.
Proof.
  unfold sort.Swap. destruct (nth_error x i), (nth_error x j); try reflexivity.
  now rewrite !set_nth_length.
Qed.

Lemma nth_error_Swap (x : list A) (i j k : nat) (u v : A) :
  nth_error x i = Some u -> nth_error x j = Some v ->
  nth_error (sort.Swap x i j) k =
  if (k =? j)%nat then Some u else if (k =? i)%nat then Some v else nth_error x k.
Proof.
  intros Hi Hj. unfold sort.Swap. rewrite Hi, Hj.
  rewrite !nth_error_set_nth, set_nth_length.
  assert (Li : (i < List.length x)%nat) by (apply nth_error_Some; congruence).
  assert (Lj : (j < List.length x)%nat) by (apply nth_error_Some; congruence).
  apply Nat.ltb_lt in Li, Lj. rewrite Li, Lj, !andb_true_r. reflexivity.
Qed.

Lemma nth_error_Swap_other (x : list A) (i j k : nat) :
  k <> i -> k <> j -> nth_error (sort.Swap x i j) k = nth_error x k.
Proof.
  intros Hi Hj. unfold sort.Swap.
  destruct (nth_error x i) as [u|] eqn:Ei; [|reflexivity].
  destruct (nth_error x j) as [v|] eqn:Ej; [|reflexivity].
  rewrite !nth_error_set_nth.
  apply Nat.eqb_neq in Hi, Hj. now rewrite Hi, Hj.
Qed.

Lemma same_outside_refl (a b : nat) (x : list A) : same_outside a b x x.
Proof. now intros k _. Qed.

Lemma rearranged_refl (a b : nat) (x : list A) : rearranged a b x x.
Proof. split; [reflexivity|apply same_outside_refl]. Qed.

Lemma rearranged_trans (a b : nat) (x y z : list A) :
  rearranged a b x y -> rearranged a b y z -> rearranged a b x z.
Proof.
  intros [P1 O1] [P2 O2]. split; [now transitivity y|].
  intros k Hk. now rewrite O2, O1.
Qed.

Lemma rearranged_mono (a b a' b' : nat) (x y : list A) :
  (a' <= a)%nat -> (b <= b')%nat -> rearranged a b x y -> rearranged a' b' x y.
Proof.
  intros Ha Hb [P O]. split; [exact P|]. intros k Hk. apply O. lia.
Qed.

Lemma rearranged_length (a b : nat) (x y : list A) :
  rearranged a b x y -> List.length y = List.length x.
Proof. intros [P _]. symmetry. now apply Permutation_length. Qed.

Lemma Swap_rearranged (a b : nat) (x : list A) (i j : nat) :
  (a <= i < b)%nat -> (a <= j < b)%nat -> rearranged a b x (sort.Swap x i j).
Proof.
  intros Hi Hj. split; [apply Swap_Permutation|].
  intros k Hk. apply nth_error_Swap_other; lia.
Qed.

(** A list cut at [a] and [b]. *)
Lemma cut_three (a b : nat) (x : list A) :
  (a <= b)%nat ->
  x = firstn a x ++ firstn (b - a) (skipn a x) ++ skipn b x.
Proof.
  intros Hab.
  rewrite <- (firstn_skipn a x) at 1. f_equal.
  rewrite <- (firstn_skipn (b - a) (skipn a x)) at 1. f_equal.
  rewrite skipn_skipn. f_equal. lia.
Qed.

Lemma nth_error_ext (x y : list A) :
  (forall k, nth_error x k = nth_error y k) -> x = y.
Proof.
  revert y; induction x as [|c x IH]; intros [|d y] H.
  - reflexivity.
  - specialize (H 0%nat). discriminate.
  - specialize (H 0%nat). discriminate.
  - pose proof (H 0%nat) as H0. simpl in H0. injection H0 as ->.
    f_equal. apply IH. intros k. apply (H (S k)).
Qed.

Lemma same_outside_firstn (a b : nat) (x y : list A) :
  same_outside a b x y -> firstn a y = firstn a x.
Proof.
  intros O. apply nth_error_ext. intros k.
  destruct (Nat.lt_ge_cases k a) as [Hk|Hk].
  - rewrite !nth_error_firstn.
    apply Nat.ltb_lt in Hk as Hk'. rewrite Hk'. apply O. lia.
  - rewrite !nth_error_firstn.
    apply Nat.ltb_ge in Hk. now rewrite Hk.
Qed.

Lemma same_outside_skipn (a b : nat) (x y : list A) :
  same_outside a b x y -> skipn b y = skipn b x.
Proof.
  intros O. apply nth_error_ext. intros k.
  rewrite !nth_error_skipn. apply O. lia.
Qed.

Lemma rearranged_middle (a b : nat) (x y : list A) :
  (a <= b)%nat -> rearranged a b x y ->
  Permutation (firstn (b - a) (skipn a x)) (firstn (b - a) (skipn a y)).
Proof.
  intros Hab [P O].
  rewrite (cut_three a b x Hab), (cut_three a b y Hab) in P.
  rewrite (same_outside_firstn a b x y O), (same_outside_skipn a b x y O) in P.
  apply Permutation_app_inv_l in P. now apply Permutation_app_inv_r in P.
Qed.

Lemma nth_error_middle_range (a b k : nat) (x : list A) :
  (a <= k < b)%nat ->
  nth_error (firstn (b - a) (skipn a x)) (k - a) = nth_error x k.
Proof.
  intros Hk. rewrite nth_error_firstn.
  replace (k - a <? b - a)%nat with true by (symmetry; apply Nat.ltb_lt; lia).
  rewrite nth_error_skipn. f_equal. lia.
Qed.

Lemma In_middle_range (a b : nat) (x : list A) (u : A) :
  In u (firstn (b - a) (skipn a x)) <->
  exists k, (a <= k < b)%nat /\ nth_error x k = Some u.
Proof.
  split.
  - intros Hin. apply In_nth_error in Hin as [n Hn].
    assert (Hlt : (n < b - a)%nat).
    { assert (H : nth_error (firstn (b - a) (skipn a x)) n <> None) by congruence.
      apply nth_error_Some in H. rewrite length_firstn in H. lia. }
    exists (a + n)%nat. split; [lia|].
    rewrite <- (nth_error_middle_range a b (a + n) x) by lia.
    now replace (a + n - a)%nat with n by lia.
  - intros (k & Hk & Hu). rewrite <- (nth_error_middle_range a b k x Hk) in Hu.
    now apply nth_error_In in Hu.
Qed.

(** What holds of every element of a range still holds when the range is
    rearranged. *)
Lemma all_in_rearranged (a b : nat) (x y : list A) (P : A -> Prop) :
  (a <= b)%nat -> rearranged a b x y -> all_in a b x P -> all_in a b y P.
Proof.
  intros Hab R H k u Hk Hu.
  assert (Hin : In u (firstn (b - a) (skipn a y)))
    by (apply In_middle_range; eauto).
  apply (Permutation_in _ (Permutation_sym (rearranged_middle a b x y Hab R))) in Hin.
  apply In_middle_range in Hin as (k' & Hk' & Hu'). now apply (H k' u).
Qed.

Lemma all_in_outside (a b c d : nat) (x y : list A) (P : A -> Prop) :
  (d <= a \/ b <= c)%nat -> rearranged a b x y -> all_in c d x P -> all_in c d y P.
Proof.
  intros Hd [_ O] H k u Hk Hu. apply (H k u Hk). rewrite <- O; [exact Hu|lia].
Qed.

Lemma prefix_le_rearranged (a b : nat) (x y : list A) :
  (a <= b)%nat -> rearranged a b x y -> prefix_le less a b x -> prefix_le less a b y.
Proof.
  intros Hab R H i j u v Hi Hj Hu Hv.
  destruct R as [P O]. rewrite O in Hu by lia.
  apply (all_in_rearranged a b x y (fun v => less v u = false) Hab (conj P O))
    with (k := j); try assumption.
  intros k w Hk Hw. now apply (H i k u w).
Qed.

Lemma sorted_on_outside (a b c d : nat) (x y : list A) :
  (d <= a \/ b <= c)%nat -> rearranged a b x y ->
  sorted_on less c d x -> sorted_on less c d y.
Proof.
  intros Hd [_ O] H i j u v Hi Hij Hj Hu Hv.
  rewrite O in Hu, Hv by lia. now apply (H i j u v).
Qed.

End RangeFacts.

Section OrderFacts.

Context {A : Type} (less : A -> A -> bool).
Hypothesis less_ok : StrictWeakOrder less.

(** [a <= b <= c] *)
Lemma order_le_trans (a b c : A) :
  less b a = false -> less c b = false -> less c a = false.
Proof. intros Hab Hbc. now apply (less_incomparable_trans less less_ok c b a). Qed.

(** [a < b <= c] *)
Lemma order_less_le_trans (a b c : A) :
  less a b = true -> less c b = false -> less a c = true.
Proof.
  intros Hab Hbc. destruct (less a c) eqn:Hac; [reflexivity|].
  now rewrite (less_incomparable_trans less less_ok a c b Hac Hbc) in Hab.
Qed.

(** [a <= b < c] *)
Lemma order_le_less_trans (a b c : A) :
  less b a = false -> less b c = true -> less a c = true.
Proof.
  intros Hab Hbc. destruct (less a c) eqn:Hac; [reflexivity|].
  now rewrite (less_incomparable_trans less less_ok b a c Hab Hac) in Hbc.
Qed.

Lemma order_less_le (a b : A) : less a b = true -> less b a = false.
Proof. apply (less_asym less less_ok). Qed.

Lemma order_le_refl (a : A) : less a a = false.
Proof. apply (less_irrefl less less_ok). Qed.

(** A sorted slice, element against element. *)
Lemma SliceIsSorted_pairwise (x : list A) :
  SliceIsSorted x less = true -> sorted_on less 0 (List.length x) x.
Proof.
  induction x as [|c x IH]; intros Hs i j u v _ Hij Hj Hu Hv.
  - simpl in Hj. lia.
  - assert (Hx : SliceIsSorted x less = true).
    { destruct x; [reflexivity|]. simpl in Hs. now apply andb_true_iff in Hs. }
    destruct j as [|j]; [lia|]. simpl in Hv, Hj.
    destruct i as [|i].
    + simpl in Hu. injection Hu as <-.
      clear IH Hij. revert c v j Hs Hx Hv Hj.
      induction x as [|d x IHx]; intros c v j Hs Hx Hv Hj; [simpl in Hj; lia|].
      simpl in Hs. apply andb_true_iff in Hs as [Hdc Hs].
      apply negb_true_iff in Hdc.
      destruct j as [|j].
      * simpl in Hv. now injection Hv as <-.
      * simpl in Hv, Hj. apply (order_le_trans c d v Hdc).
        apply (IHx d v j); try assumption; try lia.
        destruct x; [reflexivity|].
        simpl in Hs. now apply andb_true_iff in Hs.
    + simpl in Hu. apply (IH Hx i j u v); try assumption; lia.
Qed.

Lemma sorted_on_SliceIsSorted (x : list A) :
  sorted_on less 0 (List.length x) x -> SliceIsSorted x less = true.
Proof.
  induction x as [|c x IH]; intros Hs; [reflexivity|].
  destruct x as [|d x]; [reflexivity|].
  change (negb (less d c) && SliceIsSorted (d :: x) less = true).
  apply andb_true_iff. split.
  - apply negb_true_iff. apply (Hs 0 1 c d)%nat; simpl; try reflexivity; lia.
  - apply IH. intros i j u v _ Hij Hj Hu Hv.
    apply (Hs (S i) (S j) u v); simpl in *; try assumption; lia.
Qed.

(** [insertionSort_func] sorts the range [a, b) and leaves the rest. *)
Lemma insertionSort_func_sorts (x : list A) (a b : nat) :
  (a <= b <= List.length x)%nat ->
  rearranged a b x (sort.insertionSort_func less x a b) /\
  sorted_on less a b (sort.insertionSort_func less x a b).
Proof.
  intros Hab.
  set (pre := firstn a x). set (mid := firstn (b - a) (skipn a x)).
  set (post := skipn b x).
  assert (Hx : x = pre ++ mid ++ post) by (apply cut_three; lia).
  assert (Lpre : List.length pre = a) by (unfold pre; rewrite length_firstn; lia).
  assert (Lmid : List.length mid = (b - a)%nat)
    by (unfold mid; rewrite length_firstn, length_skipn; lia).
  assert (Hy : sort.insertionSort_func less x a b =
               pre ++ rev (insert_all less mid []) ++ post).
  { pose proof (insertionSort_func_insert_all less pre mid post) as H.
    rewrite Lpre, Lmid, <- Hx in H.
    now replace (a + (b - a))%nat with b in H by lia. }
  assert (Hperm : Permutation mid (rev (insert_all less mid []))).
  { etransitivity; [|apply Permutation_rev].
    rewrite <- (app_nil_r mid) at 1. apply insert_all_Permutation. }
  assert (Lsorted : List.length (rev (insert_all less mid [])) = (b - a)%nat)
    by (rewrite <- (Permutation_length Hperm); exact Lmid).
  rewrite Hy. clear Hy. clearbody pre mid post. subst x. repeat split.
  - now apply Permutation_app_head, Permutation_app_tail.
  - intros k [Hk|Hk].
    + rewrite !nth_error_app1 by lia. reflexivity.
    + rewrite !(nth_error_app2 pre) by lia.
      rewrite !nth_error_app2 by lia. f_equal. lia.
  - intros i j u v Hi Hij Hj Hu Hv.
    rewrite nth_error_app2 in Hu, Hv by lia.
    rewrite nth_error_app1 in Hu, Hv by lia.
    pose proof (insert_all_IsSorted less less_ok mid) as Hs.
    apply SliceIsSorted_pairwise in Hs.
    apply (Hs (i - List.length pre) (j - List.length pre) u v)%nat; try assumption; lia.
Qed.

End OrderFacts.

Section PartitionFacts.

Context {A : Type} (less : A -> A -> bool).

Lemma Less_elt (x : list A) (i j : nat) (u v : A) :
  nth_error x i = Some u -> nth_error x j = Some v -> sort.Less less x i j = less u v.
Proof. intros Hi Hj. unfold sort.Less. now rewrite Hi, Hj. Qed.

Lemma elt_in_range (x : list A) (k : nat) :
  (k < List.length x)%nat -> exists u, nth_error x k = Some u.
Proof.
  intros Hk. destruct (nth_error x k) as [u|] eqn:E; [eauto|].
  apply nth_error_None in E. lia.
Qed.

Lemma scan_up_spec (p : nat -> bool) (fuel : nat) : forall i j : nat,
  (i <= j + 1)%nat -> (j + 1 <= i + fuel)%nat ->
  (i <= sort.scan_up p i j fuel <= j + 1)%nat /\
  (forall k, (i <= k < sort.scan_up p i j fuel)%nat -> p k = true) /\
  ((sort.scan_up p i j fuel <= j)%nat -> p (sort.scan_up p i j fuel) = false).
Proof.
  induction fuel as [|fuel IH]; intros i j Hij Hf; simpl.
  - repeat split; intros; lia.
  - destruct (i <=? j)%nat eqn:E; simpl.
    + apply Nat.leb_le in E. destruct (p i) eqn:Ep.
      * destruct (IH (S i) j) as (H1 & H2 & H3); try lia.
        repeat split; try lia; [|exact H3].
        intros k Hk. destruct (Nat.eq_dec k i) as [->|Hne]; [exact Ep|].
        apply H2. lia.
      * repeat split; intros; try lia. exact Ep.
    + apply Nat.leb_gt in E. repeat split; intros; lia.
Qed.

Lemma scan_down_spec (p : nat -> bool) (fuel : nat) : forall i j : nat,
  (1 <= i)%nat -> (i <= j + 1)%nat -> (j + 1 <= i + fuel)%nat ->
  (i <= sort.scan_down p i j fuel + 1 /\ sort.scan_down p i j fuel <= j)%nat /\
  (forall k, (sort.scan_down p i j fuel < k <= j)%nat -> p k = true) /\
  ((i <= sort.scan_down p i j fuel)%nat -> p (sort.scan_down p i j fuel) = false).
Proof.
  induction fuel as [|fuel IH]; intros i j Hi Hij Hf; simpl.
  - repeat split; intros; lia.
  - destruct (i <=? j)%nat eqn:E; simpl.
    + apply Nat.leb_le in E. destruct (p j) eqn:Ep.
      * destruct (IH i (j - 1)%nat) as (H1 & H2 & H3); try lia.
        repeat split; try lia; [|exact H3].
        intros k Hk. destruct (Nat.eq_dec k j) as [->|Hne]; [exact Ep|].
        apply H2. lia.
      * repeat split; intros; try lia. exact Ep.
    + apply Nat.leb_gt in E. repeat split; intros; lia.
Qed.

(** Two elements on the wrong sides of the pivot change places. *)
Lemma all_in_Swap_left (x : list A) (a i j : nat) (P : A -> Prop) (v : A) :
  (i <= j)%nat -> (j < List.length x)%nat ->
  nth_error x j = Some v -> P v ->
  all_in a i x P -> all_in a (S i) (sort.Swap x i j) P.
Proof.
  intros Hij Hj Hv HP H k u Hk Hu.
  destruct (elt_in_range x i) as [w Hw]; [lia|].
  rewrite (nth_error_Swap x i j k w v Hw Hv) in Hu.
  destruct (k =? j)%nat eqn:Ekj.
  - apply Nat.eqb_eq in Ekj. subst k. assert (i = j) by lia. subst i.
    injection Hu as <-. rewrite Hw in Hv. now injection Hv as ->.
  - destruct (k =? i)%nat eqn:Eki.
    + now injection Hu as <-.
    + apply Nat.eqb_neq in Eki. apply (H k u); [lia|exact Hu].
Qed.

Lemma all_in_Swap_right (x : list A) (b i j : nat) (P : A -> Prop) (w : A) :
  (i <= j)%nat -> (j < List.length x)%nat ->
  nth_error x i = Some w -> P w ->
  all_in (j + 1) b x P -> all_in j b (sort.Swap x i j) P.
Proof.
  intros Hij Hj Hw HP H k u Hk Hu.
  destruct (elt_in_range x j) as [v Hv]; [lia|].
  rewrite (nth_error_Swap x i j k w v Hw Hv) in Hu.
  destruct (k =? j)%nat eqn:Ekj.
  - now injection Hu as <-.
  - apply Nat.eqb_neq in Ekj. destruct (k =? i)%nat eqn:Eki.
    + apply Nat.eqb_eq in Eki. lia.
    + apply (H k u); [lia|exact Hu].
Qed.

Lemma all_in_extend (x : list A) (a i i' : nat) (P : A -> Prop) :
  all_in a i x P ->
  (forall k u, (i <= k < i')%nat -> nth_error x k = Some u -> P u) ->
  all_in a i' x P.
Proof.
  intros H1 H2 k u Hk Hu.
  destruct (Nat.lt_ge_cases k i); [apply (H1 k u)|apply (H2 k u)]; try assumption; lia.
Qed.

Lemma all_in_extend_down (x : list A) (b j j' : nat) (P : A -> Prop) :
  all_in (j + 1) b x P ->
  (forall k u, (j' < k <= j)%nat -> nth_error x k = Some u -> P u) ->
  all_in (j' + 1) b x P.
Proof.
  intros H1 H2 k u Hk Hu.
  destruct (Nat.lt_ge_cases j k); [apply (H1 k u)|apply (H2 k u)]; try assumption; lia.
Qed.

(** The loop of [partition_func]: to the left of [i] every element is
    [less] than the pivot [p], to the right of [j] none is. *)
Lemma partition_loop_spec (fuel : nat) :
  forall (x : list A) (a b i j : nat) (p : A),
  (b <= List.length x)%nat -> nth_error x a = Some p ->
  (a + 1 <= i)%nat -> (i <= j + 1)%nat -> (j + 1 <= b)%nat -> (j + 1 <= i + fuel)%nat ->
  all_in (a + 1) i x (fun u => less u p = true) ->
  all_in (j + 1) b x (fun u => less u p = false) ->
  rearranged (a + 1) b x (fst (sort.partition_loop less x a i j fuel)) /\
  (a <= snd (sort.partition_loop less x a i j fuel) < b)%nat /\
  all_in (a + 1) (snd (sort.partition_loop less x a i j fuel) + 1)
    (fst (sort.partition_loop less x a i j fuel)) (fun u => less u p = true) /\
  all_in (snd (sort.partition_loop less x a i j fuel) + 1) b
    (fst (sort.partition_loop less x a i j fuel)) (fun u => less u p = false).
Proof.
  induction fuel as [|fuel IH]; intros x a b i j p Hb Hp Hai Hij Hjb Hf Hleft Hright.
  - simpl. assert (i = j + 1)%nat by lia. subst i.
    split; [apply rearranged_refl|]. split; [lia|]. now split.
  - cbn [sort.partition_loop].
    destruct (scan_up_spec (fun i => sort.Less less x i a) (S (j - i)) i j)
      as (Hi1 & Hi2 & Hi3); try lia.
    set (i' := sort.scan_up _ i j _) in *.
    destruct (scan_down_spec (fun j => negb (sort.Less less x j a)) (S (j - i')) i' j)
      as (Hj1 & Hj2 & Hj3); try lia.
    set (j' := sort.scan_down _ i' j _) in *.
    assert (Hleft' : all_in (a + 1) i' x (fun u => less u p = true)).
    { apply (all_in_extend x (a + 1) i i'); [exact Hleft|].
      intros k u Hk Hu. rewrite <- (Less_elt x k a u p Hu Hp). now apply Hi2. }
    assert (Hright' : all_in (j' + 1) b x (fun u => less u p = false)).
    { apply (all_in_extend_down x b j j'); [exact Hright|].
      intros k u Hk Hu. rewrite <- (Less_elt x k a u p Hu Hp).
      apply negb_true_iff. now apply Hj2. }
    destruct (j' <? i')%nat eqn:E.
    + apply Nat.ltb_lt in E. simpl.
      assert (i' = j' + 1)%nat by lia.
      split; [apply rearranged_refl|]. split; [lia|]. split; [|assumption].
      now replace (j' + 1)%nat with i' by lia.
    + apply Nat.ltb_ge in E.
      destruct (elt_in_range x i') as [w Hw]; [lia|].
      destruct (elt_in_range x j') as [v Hv]; [lia|].
      assert (Hwp : less w p = false).
      { rewrite <- (Less_elt x i' a w p Hw Hp). apply Hi3. lia. }
      assert (Hvp : less v p = true).
      { rewrite <- (Less_elt x j' a v p Hv Hp).
        apply negb_false_iff. apply Hj3. lia. }
      assert (Hne : i' <> j').
      { intros Heq. rewrite Heq, Hv in Hw. injection Hw as ->. congruence. }
      destruct (IH (sort.Swap x i' j') a b (S i') (j' - 1)%nat p)
        as (R & Hmid & L' & R'); try lia.
      * now rewrite Swap_length.
      * rewrite nth_error_Swap_other by lia. exact Hp.
      * replace (S i') with (S i') by reflexivity.
        apply (all_in_Swap_left x (a + 1) i' j' _ v); try assumption; lia.
      * replace (j' - 1 + 1)%nat with j' by lia.
        apply (all_in_Swap_right x b i' j' _ w); try assumption; lia.
      * split; [|now repeat split].
        eapply rearranged_trans; [|exact R]. apply Swap_rearranged; lia.
Qed.

(** The pivot goes from [a] to its place [j]. *)
Lemma partition_finish (x : list A) (a b j : nat) (p : A) :
  (b <= List.length x)%nat -> nth_error x a = Some p -> (a <= j < b)%nat ->
  all_in (a + 1) (j + 1) x (fun u => less u p = true) ->
  all_in (j + 1) b x (fun u => less u p = false) ->
  rearranged a b x (sort.Swap x j a) /\
  nth_error (sort.Swap x j a) j = Some p /\
  all_in a j (sort.Swap x j a) (fun u => less u p = true) /\
  all_in (j + 1) b (sort.Swap x j a) (fun u => less u p = false).
Proof.
  intros Hb Hp Hj Hleft Hright.
  destruct (elt_in_range x j) as [v Hv]; [lia|].
  split; [apply Swap_rearranged; lia|]. split; [|split].
  - rewrite (nth_error_Swap x j a j v p Hv Hp).
    destruct (j =? a)%nat eqn:E; [|now rewrite Nat.eqb_refl].
    apply Nat.eqb_eq in E. subst j. congruence.
  - intros k u Hk Hu. rewrite (nth_error_Swap x j a k v p Hv Hp) in Hu.
    destruct (k =? a)%nat eqn:E.
    + injection Hu as <-. apply (Hleft j v); [lia|exact Hv].
    + apply Nat.eqb_neq in E.
      replace (k =? j)%nat with false in Hu by (symmetry; apply Nat.eqb_neq; lia).
      apply (Hleft k u); [lia|exact Hu].
  - intros k u Hk Hu. rewrite nth_error_Swap_other in Hu by lia.
    now apply (Hright k u).
Qed.

Lemma partition_func_loop (x : list A) (a b pivot : nat) :
  let x0 := sort.Swap x a pivot in
  let l := sort.partition_loop less x0 a (a + 1) (b - 1) (S (b - a)) in
  fst (fst (sort.partition_func less x a b pivot)) = sort.Swap (fst l) (snd l) a /\
  snd (fst (sort.partition_func less x a b pivot)) = snd l.
Proof.
  intros x0 l. unfold l, sort.partition_func. fold x0. cbn [sort.partition_loop].
  destruct (_ <? _)%nat; [split; reflexivity|].
  destruct (sort.partition_loop less _ a _ _ (b - a)) as [x2 j2]. split; reflexivity.
Qed.

(** [partition_func]: the pivot ends at [mid], with the elements [less]
    than it before, and the others after. *)
Lemma partition_func_spec (x : list A) (a b pivot : nat) :
  (a <= pivot < b)%nat -> (b <= List.length x)%nat ->
  let y := fst (fst (sort.partition_func less x a b pivot)) in
  let mid := snd (fst (sort.partition_func less x a b pivot)) in
  rearranged a b x y /\ (a <= mid < b)%nat /\
  exists p, nth_error y mid = Some p /\
    all_in a mid y (fun u => less u p = true) /\
    all_in (mid + 1) b y (fun u => less u p = false).
Proof.
  intros Hpivot Hb y mid.
  destruct (partition_func_loop x a b pivot) as [Ey Emid].
  unfold y, mid. rewrite Ey, Emid. clear y mid Ey Emid.
  set (x0 := sort.Swap x a pivot).
  assert (Hb0 : (b <= List.length x0)%nat) by (unfold x0; now rewrite Swap_length).
  destruct (elt_in_range x0 a) as [p Hp]; [lia|].
  destruct (partition_loop_spec (S (b - a)) x0 a b (a + 1) (b - 1) p)
    as (R & Hmid & L' & R'); try assumption; try lia.
  - intros k u Hk; lia.
  - intros k u Hk; lia.
  - set (l := sort.partition_loop less x0 a (a + 1) (b - 1) (S (b - a))) in *.
    assert (Hpl : nth_error (fst l) a = Some p).
    { destruct R as [_ O]. rewrite O; [exact Hp|lia]. }
    destruct (partition_finish (fst l) a b (snd l) p) as (R2 & Hmidp & L2 & R2');
      try assumption.
    { rewrite (rearranged_length _ _ _ _ R). exact Hb0. }
    split; [|split; [exact Hmid|exists p; now repeat split]].
    apply (rearranged_trans a b x x0); [apply Swap_rearranged; lia|].
    apply (rearranged_trans a b x0 (fst l)); [|exact R2].
    apply (rearranged_mono (a + 1) b); try lia. exact R.
Qed.

(** The loop of [partitionEqual_func]: to the left of [i] the pivot [p] is
    [less] than no element, to the right of [j] it is [less] than each. *)
Lemma partitionEqual_loop_spec (fuel : nat) :
  forall (x : list A) (a b i j : nat) (p : A),
  (b <= List.length x)%nat -> nth_error x a = Some p ->
  (a + 1 <= i)%nat -> (i <= j + 1)%nat -> (j + 1 <= b)%nat -> (j + 1 <= i + fuel)%nat ->
  all_in (a + 1) i x (fun u => less p u = false) ->
  all_in (j + 1) b x (fun u => less p u = true) ->
  rearranged (a + 1) b x (fst (sort.partitionEqual_loop less x a i j fuel)) /\
  (a < snd (sort.partitionEqual_loop less x a i j fuel) <= b)%nat /\
  all_in (a + 1) (snd (sort.partitionEqual_loop less x a i j fuel))
    (fst (sort.partitionEqual_loop less x a i j fuel)) (fun u => less p u = false) /\
  all_in (snd (sort.partitionEqual_loop less x a i j fuel)) b
    (fst (sort.partitionEqual_loop less x a i j fuel)) (fun u => less p u = true).
Proof.
  induction fuel as [|fuel IH]; intros x a b i j p Hb Hp Hai Hij Hjb Hf Hleft Hright.
  - simpl. assert (i = j + 1)%nat by lia. subst i.
    split; [apply rearranged_refl|]. split; [lia|]. now split.
  - cbn [sort.partitionEqual_loop].
    destruct (scan_up_spec (fun i => negb (sort.Less less x a i)) (S (j - i)) i j)
      as (Hi1 & Hi2 & Hi3); try lia.
    set (i' := sort.scan_up _ i j _) in *.
    destruct (scan_down_spec (fun j => sort.Less less x a j) (S (j - i')) i' j)
      as (Hj1 & Hj2 & Hj3); try lia.
    set (j' := sort.scan_down _ i' j _) in *.
    assert (Hleft' : all_in (a + 1) i' x (fun u => less p u = false)).
    { apply (all_in_extend x (a + 1) i i'); [exact Hleft|].
      intros k u Hk Hu. rewrite <- (Less_elt x a k p u Hp Hu).
      apply negb_true_iff. now apply Hi2. }
    assert (Hright' : all_in (j' + 1) b x (fun u => less p u = true)).
    { apply (all_in_extend_down x b j j'); [exact Hright|].
      intros k u Hk Hu. rewrite <- (Less_elt x a k p u Hp Hu). now apply Hj2. }
    destruct (j' <? i')%nat eqn:E.
    + apply Nat.ltb_lt in E. simpl.
      assert (i' = j' + 1)%nat by lia.
      split; [apply rearranged_refl|]. split; [lia|]. split; [assumption|].
      now replace i' with (j' + 1)%nat by lia.
    + apply Nat.ltb_ge in E.
      destruct (elt_in_range x i') as [w Hw]; [lia|].
      destruct (elt_in_range x j') as [v Hv]; [lia|].
      assert (Hwp : less p w = true).
      { rewrite <- (Less_elt x a i' p w Hp Hw).
        apply negb_false_iff. apply Hi3. lia. }
      assert (Hvp : less p v = false).
      { rewrite <- (Less_elt x a j' p v Hp Hv). apply Hj3. lia. }
      assert (Hne : i' <> j').
      { intros Heq. rewrite Heq, Hv in Hw. injection Hw as ->. congruence. }
      destruct (IH (sort.Swap x i' j') a b (S i') (j' - 1)%nat p)
        as (R & Hmid & L' & R'); try lia.
      * now rewrite Swap_length.
      * rewrite nth_error_Swap_other by lia. exact Hp.
      * apply (all_in_Swap_left x (a + 1) i' j' _ v); try assumption; lia.
      * replace (j' - 1 + 1)%nat with j' by lia.
        apply (all_in_Swap_right x b i' j' _ w); try assumption; lia.
      * split; [|now repeat split].
        eapply rearranged_trans; [|exact R]. apply Swap_rearranged; lia.
Qed.

Hypothesis less_ok : StrictWeakOrder less.

(** [partitionEqual_func]: the elements that the pivot is not [less] than
    come first, up to [mid]. *)
Lemma partitionEqual_func_spec (x : list A) (a b pivot : nat) (p : A) :
  (a <= pivot < b)%nat -> (b <= List.length x)%nat -> nth_error x pivot = Some p ->
  let y := fst (sort.partitionEqual_func less x a b pivot) in
  let mid := snd (sort.partitionEqual_func less x a b pivot) in
  rearranged a b x y /\ (a < mid <= b)%nat /\
  all_in a mid y (fun u => less p u = false) /\
  all_in mid b y (fun u => less p u = true).
Proof.
  intros Hpivot Hb Hp y mid. unfold y, mid, sort.partitionEqual_func. clear y mid.
  set (x0 := sort.Swap x a pivot).
  assert (Hb0 : (b <= List.length x0)%nat) by (unfold x0; now rewrite Swap_length).
  destruct (elt_in_range x a) as [w Hw]; [lia|].
  assert (Hp0 : nth_error x0 a = Some p).
  { unfold x0. rewrite (nth_error_Swap x a pivot a w p Hw Hp).
    destruct (a =? pivot)%nat eqn:E; [|now rewrite Nat.eqb_refl].
    apply Nat.eqb_eq in E. subst pivot. congruence. }
  destruct (partitionEqual_loop_spec (S (b - a)) x0 a b (a + 1) (b - 1) p)
    as (R & Hmid & L' & R'); try assumption; try lia.
  - intros k u Hk; lia.
  - intros k u Hk Hu. exfalso. lia.
  - set (l := sort.partitionEqual_loop less x0 a (a + 1) (b - 1) (S (b - a))) in *.
    split; [|split; [lia|split; [|exact R']]].
    + apply (rearranged_trans a b x x0); [apply Swap_rearranged; lia|].
      apply (rearranged_mono (a + 1) b); try lia. exact R.
    + intros k u Hk Hu. destruct (Nat.eq_dec k a) as [->|Hne].
      * destruct R as [_ O]. rewrite O in Hu by lia.
        rewrite Hp0 in Hu. injection Hu as <-.
        apply (less_irrefl less less_ok).
      * apply (L' k u); [lia|exact Hu].
Qed.

End PartitionFacts.

Section PivotFacts.

Context {A : Type} (less : A -> A -> bool).

Lemma order2_func_cases (x : list A) (a b swaps : nat) :
  fst (fst (sort.order2_func less x a b swaps)) = a /\
    snd (fst (sort.order2_func less x a b swaps)) = b \/
  fst (fst (sort.order2_func less x a b swaps)) = b /\
    snd (fst (sort.order2_func less x a b swaps)) = a.
Proof. unfold sort.order2_func. destruct (sort.Less less x b a); simpl; auto. Qed.

Lemma median_func_cases (x : list A) (a b c swaps : nat) :
  fst (sort.median_func less x a b c swaps) = a \/
  fst (sort.median_func less x a b c swaps) = b \/
  fst (sort.median_func less x a b c swaps) = c.
Proof.
  unfold sort.median_func.
  destruct (order2_func_cases x a b swaps) as [[E1 E2]|[E1 E2]];
    destruct (sort.order2_func less x a b swaps) as [[a1 b1] s1]; simpl in E1, E2; subst;
    match goal with |- context [sort.order2_func less x ?u ?v ?s] =>
      destruct (order2_func_cases x u v s) as [[E1 E2]|[E1 E2]];
      destruct (sort.order2_func less x u v s) as [[b2 c2] s2]; simpl in E1, E2; subst
    end;
    match goal with |- context [sort.order2_func less x ?u ?v ?s] =>
      destruct (order2_func_cases x u v s) as [[E1 E2]|[E1 E2]];
      destruct (sort.order2_func less x u v s) as [[a3 b3] s3]; simpl in E1, E2; subst
    end; simpl; auto.
Qed.

Lemma median_func_range (x : list A) (a b c swaps lo hi : nat) :
  (lo <= a < hi)%nat -> (lo <= b < hi)%nat -> (lo <= c < hi)%nat ->
  (lo <= fst (sort.median_func less x a b c swaps) < hi)%nat.
Proof.
  intros Ha Hb Hc.
  destruct (median_func_cases x a b c swaps) as [->|[->| ->]]; assumption.
Qed.

(** The pivot that [choosePivot_func] chooses is in the range. *)
Lemma choosePivot_func_range (x : list A) (a b : nat) :
  (a < b)%nat -> (a <= fst (sort.choosePivot_func less x a b) < b)%nat.
Proof.
  intros Hab. unfold sort.choosePivot_func.
  pose proof (Nat.div_mod_eq (b - a) 4) as Hdiv.
  pose proof (Nat.mod_upper_bound (b - a) 4 ltac:(discriminate)) as Hmod.
  set (q := ((b - a) / 4)%nat) in *.
  set (r := ((b - a) mod 4)%nat) in *.
  assert (Hj : forall j s,
            (a <= j < b)%nat ->
            (a <= fst (let '(j, swaps) := (j, s) in
                       if (swaps =? 0)%nat then (j, sort.increasingHint)
                       else if (swaps =? sort.maxSwaps)%nat then (j, sort.decreasingHint)
                       else (j, sort.unknownHint)) < b)%nat).
  { intros j s Hj. destruct (s =? 0)%nat; [exact Hj|].
    destruct (s =? sort.maxSwaps)%nat; exact Hj. }
  destruct (8 <=? b - a)%nat eqn:E8.
  - apply Nat.leb_le in E8.
    destruct (sort.shortestNinther <=? b - a)%nat eqn:E50.
    + apply Nat.leb_le in E50. unfold sort.shortestNinther in E50.
      unfold sort.medianAdjacent_func.
      pose proof (median_func_range x (a + q * 1 - 1) (a + q * 1) (a + q * 1 + 1) 0 a b)
        as Hi.
      destruct (sort.median_func less x (a + q * 1 - 1) (a + q * 1) (a + q * 1 + 1) 0)
        as [i s1].
      pose proof (median_func_range x (a + q * 2 - 1) (a + q * 2) (a + q * 2 + 1) s1 a b)
        as Hj'.
      destruct (sort.median_func less x (a + q * 2 - 1) (a + q * 2) (a + q * 2 + 1) s1)
        as [j s2].
      pose proof (median_func_range x (a + q * 3 - 1) (a + q * 3) (a + q * 3 + 1) s2 a b)
        as Hk.
      destruct (sort.median_func less x (a + q * 3 - 1) (a + q * 3) (a + q * 3 + 1) s2)
        as [k s3].
      simpl in Hi, Hj', Hk.
      pose proof (median_func_range x i j k s3 a b) as Hm.
      destruct (sort.median_func less x i j k s3) as [m s4]. simpl in Hm.
      apply (Hj m s4). apply Hm; [apply Hi|apply Hj'|apply Hk];
        clear Hi Hj' Hk Hm Hj; lia.
    + pose proof (median_func_range x (a + q * 1) (a + q * 2) (a + q * 3) 0 a b) as Hm.
      destruct (sort.median_func less x (a + q * 1) (a + q * 2) (a + q * 3) 0) as [m s].
      simpl in Hm. apply (Hj m s). apply Hm; clear Hm Hj; lia.
  - apply (Hj (a + q * 2)%nat 0%nat). lia.
Qed.

Lemma choosePivot_func_range' (x : list A) (a b : nat) (pivot : nat) (hint : sort.sortedHint) :
  (a < b)%nat -> sort.choosePivot_func less x a b = (pivot, hint) -> (a <= pivot < b)%nat.
Proof.
  intros Hab E. pose proof (choosePivot_func_range x a b Hab) as H.
  now rewrite E in H.
Qed.

Lemma reverseRange_loop_rearranged (a b fuel : nat) : forall (x : list A) (i j : nat),
  (a <= i)%nat -> (j < b)%nat ->
  rearranged a b x (sort.reverseRange_loop x i j fuel).
Proof.
  induction fuel as [|fuel IH]; intros x i j Hi Hj; simpl; [apply rearranged_refl|].
  destruct (i <? j)%nat eqn:E; [|apply rearranged_refl].
  apply Nat.ltb_lt in E.
  apply (rearranged_trans a b x (sort.Swap x i j)); [apply Swap_rearranged; lia|].
  apply IH; lia.
Qed.

Lemma reverseRange_func_rearranged (x : list A) (a b : nat) :
  (a < b)%nat -> rearranged a b x (sort.reverseRange_func x a b).
Proof.
  intros Hab. unfold sort.reverseRange_func.
  apply reverseRange_loop_rearranged; lia.
Qed.

Lemma nextPowerOfTwo_bound (length : nat) :
  (1 <= length)%nat ->
  (0 < sort.nextPowerOfTwo length <= 2 * Z.of_nat length)%Z /\
  exists n, (0 <= n)%Z /\ sort.nextPowerOfTwo length = (2 ^ n)%Z.
Proof.
  intros Hl. unfold sort.nextPowerOfTwo, sort.bits_Len.
  assert (H0 : (0 < Z.of_nat length)%Z) by lia.
  pose proof (Z.log2_nonneg (Z.of_nat length)) as Hn.
  pose proof (Z.log2_spec (Z.of_nat length) H0) as [Hlo _].
  rewrite Z2Nat.id by lia. rewrite Z.shiftl_1_l.
  rewrite Z.pow_add_r by lia. change (2 ^ 1)%Z with 2%Z.
  split; [lia|]. exists (Z.log2 (Z.of_nat length) + 1)%Z.
  split; [lia|]. rewrite Z.pow_add_r by lia. reflexivity.
Qed.

Lemma breakPatterns_other (length : nat) (random : Z) :
  (1 <= length)%nat ->
  let other := Z.to_nat (Z.land random (sort.nextPowerOfTwo length - 1)) in
  ((if (length <=? other)%nat then (other - length)%nat else other) < length)%nat.
Proof.
  intros Hl other.
  destruct (nextPowerOfTwo_bound length Hl) as [[Hpos Hle] (n & Hn & En)].
  assert (Hother : (Z.of_nat other < 2 * Z.of_nat length)%Z).
  { unfold other. rewrite En. replace (2 ^ n - 1)%Z with (Z.ones n)
      by (rewrite Z.ones_equiv; lia).
    rewrite Z.land_ones by exact Hn.
    pose proof (Z.mod_pos_bound random (2 ^ n)%Z ltac:(lia)) as Hm.
    rewrite Z2Nat.id by lia. lia. }
  destruct (length <=? other)%nat eqn:E.
  - apply Nat.leb_le in E. lia.
  - apply Nat.leb_gt in E. exact E.
Qed.

Lemma breakPatterns_loop_rearranged (a length idx : nat) (n : nat) :
  forall (x : list A) (random : Z) (i : nat),
  (1 <= length)%nat -> (a + 1 <= idx)%nat -> (idx - 1 + i + n <= a + length)%nat ->
  rearranged a (a + length) x
    (sort.breakPatterns_loop x a length idx random (sort.nextPowerOfTwo length) i n).
Proof.
  induction n as [|n IH]; intros x random i Hl Hidx Hn; simpl; [apply rearranged_refl|].
  pose proof (breakPatterns_other length (sort.xorshift_Next random) Hl) as Ho.
  cbv zeta in Ho.
  eapply rearranged_trans; [|apply IH; try assumption; lia].
  apply Swap_rearranged; lia.
Qed.

Lemma breakPatterns_func_rearranged (x : list A) (a b : nat) :
  (a <= b)%nat -> rearranged a b x (sort.breakPatterns_func x a b).
Proof.
  intros Hab. unfold sort.breakPatterns_func.
  destruct (8 <=? b - a)%nat eqn:E; [|apply rearranged_refl].
  apply Nat.leb_le in E.
  pose proof (Nat.div_mod_eq (b - a) 4) as Hdiv.
  pose proof (Nat.mod_upper_bound (b - a) 4 ltac:(discriminate)) as Hmod.
  set (q := ((b - a) / 4)%nat) in *.
  replace b with (a + (b - a))%nat at 1 by lia.
  apply breakPatterns_loop_rearranged; lia.
Qed.

End PivotFacts.

Section PartialInsertionFacts.

Context {A : Type} (less : A -> A -> bool).
Hypothesis less_ok : StrictWeakOrder less.

(** A sorted range grows by an element that is not [less] than the last. *)
Lemma sorted_on_snoc (x : list A) (a k : nat) (w v : A) :
  (a < k)%nat -> nth_error x (k - 1) = Some w -> nth_error x k = Some v ->
  less v w = false -> sorted_on less a k x -> sorted_on less a (k + 1) x.
Proof.
  intros Hk Hw Hv Hvw Hs i j u u' Hi Hij Hj Hu Hu'.
  destruct (Nat.eq_dec j k) as [->|Hne]; [|apply (Hs i j u u'); try assumption; lia].
  rewrite Hv in Hu'. injection Hu' as <-.
  destruct (Nat.eq_dec i (k - 1)) as [->|Hne].
  - rewrite Hw in Hu. now injection Hu as <-.
  - apply (order_le_trans less less_ok u w v); [|exact Hvw].
    apply (Hs i (k - 1)%nat u w); try assumption; lia.
Qed.

Lemma sorted_on_short (x : list A) (a b : nat) :
  (b <= a + 1)%nat -> sorted_on less a b x.
Proof. intros Hb i j u v Hi Hij Hj. lia. Qed.

(** The loop that shifts the smaller element to the left stops at [a] at
    the latest: the elements before the range are not above it. *)
Lemma shift_left_spec : forall (j : nat) (x : list A) (a b : nat),
  (a <= j < b)%nat -> (b <= List.length x)%nat ->
  prefix_le less a b x -> sorted_on less a j x ->
  rearranged a (j + 1) x (sort.shift_left less x j) /\
  sorted_on less a (j + 1) (sort.shift_left less x j).
Proof.
  induction j as [|j IH]; intros x a b Hj Hb Hpre Hs.
  - simpl. split; [apply rearranged_refl|]. apply sorted_on_short. lia.
  - cbn [sort.shift_left].
    destruct (elt_in_range x (S j)) as [v Hv]; [lia|].
    destruct (elt_in_range x j) as [w Hw]; [lia|].
    rewrite (Less_elt less x (S j) j v w Hv Hw).
    destruct (less v w) eqn:Hvw; simpl.
    + assert (Haj : (a <= j)%nat).
      { destruct (Nat.le_gt_cases a j) as [H|H]; [exact H|].
        exfalso. rewrite (Hpre j (S j) w v) in Hvw by (try assumption; lia).
        discriminate Hvw. }
      set (x' := sort.Swap x (S j) j).
      assert (R : rearranged a (S j + 1) x x') by (apply Swap_rearranged; lia).
      destruct (IH x' a b) as [R' S']; try lia.
      * unfold x'. now rewrite Swap_length.
      * apply (prefix_le_rearranged less a b x x'); try lia; [|exact Hpre].
        apply (rearranged_mono a (S j + 1)); try lia. exact R.
      * intros i k u u' Hi Hik Hk Hu Hu'.
        unfold x' in Hu, Hu'. rewrite nth_error_Swap_other in Hu, Hu' by lia.
        apply (Hs i k u u'); try assumption; lia.
      * split.
        -- apply (rearranged_trans a (S j + 1) x x'); [exact R|].
           apply (rearranged_mono a (j + 1)); try lia. exact R'.
        -- assert (Hall : all_in a (j + 1) (sort.shift_left less x' j)
                            (fun u => less w u = false)).
           { apply (all_in_rearranged a (j + 1) x'); [lia|exact R'|].
             intros k u Hk Hu. unfold x' in Hu.
             rewrite (nth_error_Swap x (S j) j k v w Hv Hw) in Hu.
             destruct (k =? j)%nat eqn:E.
             - injection Hu as <-. now apply (order_less_le less less_ok).
             - apply Nat.eqb_neq in E.
               replace (k =? S j)%nat with false in Hu
                 by (symmetry; apply Nat.eqb_neq; lia).
               apply (Hs k j u w); try assumption; lia. }
           intros i k u u' Hi Hik Hk Hu Hu'.
           destruct (Nat.eq_dec k (S j)) as [->|Hne];
             [|apply (S' i k u u'); try assumption; lia].
           destruct R' as [_ O]. rewrite O in Hu' by lia.
           unfold x' in Hu'.
           rewrite (nth_error_Swap x (S j) j (S j) v w Hv Hw) in Hu'.
           replace (S j =? j)%nat with false in Hu'
             by (symmetry; apply Nat.eqb_neq; lia).
           rewrite Nat.eqb_refl in Hu'. injection Hu' as <-.
           apply (Hall i u); [lia|exact Hu].
    + split; [apply rearranged_refl|].
      destruct (Nat.eq_dec a (S j)) as [->|Hne]; [apply sorted_on_short; lia|].
      apply (sorted_on_snoc x a (S j) w v); try assumption; try lia.
      now replace (S j - 1)%nat with j by lia.
Qed.

Lemma shift_right_rearranged (lo b n : nat) : forall (x : list A) (j : nat),
  (lo + 1 <= j)%nat -> (j + n <= b)%nat ->
  rearranged lo b x (sort.shift_right less x j n).
Proof.
  induction n as [|n IH]; intros x j Hlo Hb; simpl; [apply rearranged_refl|].
  destruct (negb _); [apply rearranged_refl|].
  apply (rearranged_trans lo b x (sort.Swap x j (j - 1))); [apply Swap_rearranged; lia|].
  apply IH; lia.
Qed.

(** The elements that the scan of [partialInsertionSort_func] passes are in
    order. *)
Lemma sorted_on_scan (x : list A) (a b : nat) (n : nat) : forall i : nat,
  (a + 1 <= i)%nat -> (i + n <= b)%nat -> (b <= List.length x)%nat ->
  (forall k, (i <= k < i + n)%nat ->
     ((k <? b)%nat && negb (sort.Less less x k (k - 1))) = true) ->
  sorted_on less a i x -> sorted_on less a (i + n) x.
Proof.
  induction n as [|n IH]; intros i Hi Hn Hb Hp Hs.
  - now rewrite Nat.add_0_r.
  - replace (i + S n)%nat with (S i + n)%nat by lia.
    apply IH; try lia.
    + intros k Hk. apply Hp. lia.
    + destruct (elt_in_range x i) as [v Hv]; [lia|].
      destruct (elt_in_range x (i - 1)) as [w Hw]; [lia|].
      replace (S i) with (i + 1)%nat by lia.
      apply (sorted_on_snoc x a i w v); try assumption; try lia.
      specialize (Hp i ltac:(lia)). apply andb_true_iff in Hp as [_ Hp].
      apply negb_true_iff in Hp. now rewrite (Less_elt less x i (i - 1) v w Hv Hw) in Hp.
Qed.

Lemma partialInsertionSort_loop_spec (steps : nat) :
  forall (x : list A) (a b i : nat),
  (a < b)%nat -> (b <= List.length x)%nat -> (a + 1 <= i <= b)%nat ->
  prefix_le less a b x -> sorted_on less a i x ->
  rearranged a b x (fst (sort.partialInsertionSort_loop less x a b i steps)) /\
  (snd (sort.partialInsertionSort_loop less x a b i steps) = true ->
   sorted_on less a b (fst (sort.partialInsertionSort_loop less x a b i steps))).
Proof.
  induction steps as [|steps IH]; intros x a b i Hab Hb Hi Hpre Hs.
  - simpl. split; [apply rearranged_refl|discriminate].
  - cbn [sort.partialInsertionSort_loop].
    set (p := fun i => ((i <? b)%nat && negb (sort.Less less x i (i - 1)))).
    destruct (scan_up_spec p (S (b - i)) i b) as (Hi1 & Hi2 & Hi3); try lia.
    set (i' := sort.scan_up p i b (S (b - i))) in *.
    assert (Hi'b : (i' <= b)%nat).
    { destruct (Nat.le_gt_cases i' b) as [H|H]; [exact H|].
      specialize (Hi2 b ltac:(lia)). unfold p in Hi2.
      rewrite Nat.ltb_irrefl in Hi2. discriminate. }
    assert (Hs' : sorted_on less a i' x).
    { replace i' with (i + (i' - i))%nat by lia.
      apply (sorted_on_scan x a b); try assumption; try lia.
      intros k Hk. apply Hi2. lia. }
    destruct (i' =? b)%nat eqn:Eb.
    + apply Nat.eqb_eq in Eb. simpl. split; [apply rearranged_refl|].
      intros _. now rewrite <- Eb.
    + apply Nat.eqb_neq in Eb.
      destruct (b - a <? sort.shortestShifting)%nat;
        [simpl; split; [apply rearranged_refl|discriminate]|].
      destruct (elt_in_range x i') as [v Hv]; [lia|].
      destruct (elt_in_range x (i' - 1)) as [w Hw]; [lia|].
      assert (Hvw : less v w = true).
      { specialize (Hi3 ltac:(lia)). unfold p in Hi3.
        replace (i' <? b)%nat with true in Hi3 by (symmetry; apply Nat.ltb_lt; lia).
        simpl in Hi3. apply negb_false_iff in Hi3.
        now rewrite (Less_elt less x i' (i' - 1) v w Hv Hw) in Hi3. }
      set (x1 := sort.Swap x i' (i' - 1)).
      assert (R1 : rearranged a b x x1) by (apply Swap_rearranged; lia).
      assert (S1 : sorted_on less a (i' - 1) x1).
      { intros m k u u' Hm Hmk Hk Hu Hu'.
        unfold x1 in Hu, Hu'. rewrite nth_error_Swap_other in Hu, Hu' by lia.
        apply (Hs' m k u u'); try assumption; lia. }
      assert (Hb1 : (b <= List.length x1)%nat) by (unfold x1; now rewrite Swap_length).
      assert (P1 : prefix_le less a b x1)
        by (apply (prefix_le_rearranged less a b x x1); try assumption; lia).
      set (x2 := if (2 <=? i' - a)%nat then sort.shift_left less x1 (i' - 1) else x1).
      assert (H2 : rearranged a i' x1 x2 /\ sorted_on less a i' x2).
      { unfold x2. destruct (2 <=? i' - a)%nat eqn:E2.
        - apply Nat.leb_le in E2.
          destruct (shift_left_spec (i' - 1) x1 a b) as [R S]; try assumption; try lia.
          replace (i' - 1 + 1)%nat with i' in R, S by lia. now split.
        - apply Nat.leb_gt in E2. split; [apply rearranged_refl|].
          apply sorted_on_short. lia. }
      destruct H2 as [R2 S2].
      set (x3 := if (2 <=? b - i')%nat
                 then sort.shift_right less x2 (i' + 1) (b - (i' + 1)) else x2).
      assert (R3 : rearranged i' b x2 x3).
      { unfold x3. destruct (2 <=? b - i')%nat; [|apply rearranged_refl].
        apply shift_right_rearranged; lia. }
      assert (R13 : rearranged a b x x3).
      { apply (rearranged_trans a b x x1); [exact R1|].
        apply (rearranged_trans a b x1 x2);
          [apply (rearranged_mono a i'); try lia; exact R2|].
        apply (rearranged_mono i' b); try lia; exact R3. }
      destruct (IH x3 a b i') as [R S]; try lia.
      * now rewrite (rearranged_length _ _ _ _ R13).
      * apply (prefix_le_rearranged less a b x x3); try assumption; lia.
      * apply (sorted_on_outside less i' b a i' x2 x3); [lia|exact R3|exact S2].
      * split; [|exact S]. apply (rearranged_trans a b x x3); assumption.
Qed.

(** [partialInsertionSort_func] answers [true] only when the range is
    sorted. *)
Lemma partialInsertionSort_func_spec (x : list A) (a b : nat) :
  (a < b)%nat -> (b <= List.length x)%nat -> prefix_le less a b x ->
  rearranged a b x (fst (sort.partialInsertionSort_func less x a b)) /\
  (snd (sort.partialInsertionSort_func less x a b) = true ->
   sorted_on less a b (fst (sort.partialInsertionSort_func less x a b))).
Proof.
  intros Hab Hb Hpre. unfold sort.partialInsertionSort_func.
  apply partialInsertionSort_loop_spec; try assumption; try lia.
  apply sorted_on_short. lia.
Qed.

End PartialInsertionFacts.

Section HeapFacts.

Context {A : Type} (less : A -> A -> bool).
Hypothesis less_ok : StrictWeakOrder less.

Lemma siftDown_loop_spec (fuel : nat) :
  forall (x : list A) (root lo hi first : nat),
  (first + hi <= List.length x)%nat -> (lo <= root)%nat -> (hi <= root + fuel)%nat ->
  (forall k, (lo <= k < hi)%nat -> k <> root -> heap_at less x first hi k) ->
  (forall q c u v, (lo <= q)%nat -> (root = 2 * q + 1 \/ root = 2 * q + 2)%nat ->
     (c = 2 * root + 1 \/ c = 2 * root + 2)%nat -> (c < hi)%nat ->
     nth_error x (first + q) = Some u -> nth_error x (first + c) = Some v ->
     less u v = false) ->
  rearranged (first + root) (first + hi) x (sort.siftDown_loop less x root hi first fuel) /\
  (forall k, (lo <= k < hi)%nat ->
     heap_at less (sort.siftDown_loop less x root hi first fuel) first hi k).
Proof.
  induction fuel as [|fuel IH]; intros x root lo hi first Hlen Hlo Hfuel Hheap Hup.
  - simpl. split; [apply rearranged_refl|]. intros k Hk. apply Hheap; lia.
  - cbn [sort.siftDown_loop].
    destruct (hi <=? 2 * root + 1)%nat eqn:Ec.
    + apply Nat.leb_le in Ec. split; [apply rearranged_refl|].
      intros k Hk. destruct (Nat.eq_dec k root) as [->|Hne]; [|now apply Hheap].
      intros c u v Hc Hchi. lia.
    + apply Nat.leb_gt in Ec.
      set (c1 := (2 * root + 1)%nat) in *.
      set (c := if ((c1 + 1 <? hi)%nat &&
                    sort.Less less x (first + c1) (first + c1 + 1))%bool
                then (c1 + 1)%nat else c1).
      assert (Hc : (c = c1 \/ c = c1 + 1)%nat /\ (c < hi)%nat).
      { unfold c. destruct (c1 + 1 <? hi)%nat eqn:E; simpl.
        - apply Nat.ltb_lt in E. destruct (sort.Less _ _ _ _); lia.
        - lia. }
      destruct Hc as [Hc Hchi].
      destruct (elt_in_range x (first + root)) as [r Hr]; [lia|].
      destruct (elt_in_range x (first + c)) as [m Hm]; [lia|].
      assert (Hmax : forall c' v, (c' = c1 \/ c' = c1 + 1)%nat -> (c' < hi)%nat ->
                nth_error x (first + c') = Some v -> less m v = false).
      { intros c' v Hc' Hc'hi Hv.
        destruct (Nat.eq_dec c' c) as [->|Hne].
        - rewrite Hm in Hv. injection Hv as <-. apply (less_irrefl less less_ok).
        - unfold c in Hm, Hne. destruct (c1 + 1 <? hi)%nat eqn:E; simpl in Hm, Hne.
          + destruct (elt_in_range x (first + c1)) as [v1 Hv1]; [lia|].
            destruct (elt_in_range x (first + c1 + 1)) as [v2 Hv2];
              [apply Nat.ltb_lt in E; lia|].
            rewrite (Less_elt less x _ _ v1 v2 Hv1 Hv2) in Hm, Hne.
            destruct (less v1 v2) eqn:E12.
            * assert (c' = c1) by lia. subst c'.
              rewrite Hv1 in Hv. injection Hv as <-.
              replace (first + (c1 + 1))%nat with (first + c1 + 1)%nat in Hm by lia.
              rewrite Hv2 in Hm. injection Hm as <-.
              now apply (order_less_le less less_ok).
            * assert (c' = c1 + 1)%nat by lia. subst c'.
              replace (first + (c1 + 1))%nat with (first + c1 + 1)%nat in Hv by lia.
              rewrite Hv2 in Hv. injection Hv as <-.
              rewrite Hv1 in Hm. injection Hm as <-. exact E12.
          + apply Nat.ltb_ge in E. lia. }
      rewrite (Less_elt less x _ _ r m Hr Hm).
      destruct (less r m) eqn:Erm; simpl.
      * set (x' := sort.Swap x (first + root) (first + c)).
        assert (Hx' : forall k, nth_error x' (first + k) =
                  if (k =? c)%nat then Some r
                  else if (k =? root)%nat then Some m else nth_error x (first + k)).
        { intros k. unfold x'.
          rewrite (nth_error_Swap x (first + root) (first + c) (first + k) r m Hr Hm).
          destruct (Nat.eqb_spec (first + k) (first + c)), (Nat.eqb_spec k c); try lia;
            try reflexivity.
          destruct (Nat.eqb_spec (first + k) (first + root)), (Nat.eqb_spec k root);
            try lia; reflexivity. }
        destruct (IH x' c lo hi first) as [R H']; try lia.
        -- unfold x'. now rewrite Swap_length.
        -- intros k Hk Hkc c' u v Hc' Hc'hi Hu Hv.
           rewrite Hx' in Hu, Hv.
           replace (k =? c)%nat with false in Hu by (symmetry; apply Nat.eqb_neq; lia).
           destruct (Nat.eqb_spec k root) as [->|Hkr].
           ++ injection Hu as <-.
              destruct (Nat.eqb_spec c' c) as [->|Hne].
              ** injection Hv as <-. now apply (order_less_le less less_ok).
              ** replace (c' =? root)%nat with false in Hv
                   by (symmetry; apply Nat.eqb_neq; lia).
                 apply (Hmax c' v); try assumption; unfold c1; lia.
           ++ destruct (Nat.eqb_spec c' c) as [->|Hne]; [lia|].
              destruct (Nat.eqb_spec c' root) as [->|Hne'].
              ** injection Hv as <-.
                 apply (Hup k c u m); try assumption; try (unfold c1 in Hc; lia).
              ** apply (Hheap k ltac:(lia) Hkr c' u v); assumption.
        -- intros q g u v Hq Hcq Hg Hghi Hu Hv.
           assert (q = root) by (unfold c1 in Hc; lia). subst q.
           rewrite Hx' in Hu, Hv.
           replace (root =? c)%nat with false in Hu by (symmetry; apply Nat.eqb_neq; lia).
           rewrite Nat.eqb_refl in Hu. injection Hu as <-.
           replace (g =? c)%nat with false in Hv by (symmetry; apply Nat.eqb_neq; lia).
           replace (g =? root)%nat with false in Hv by (symmetry; apply Nat.eqb_neq; lia).
           apply (Hheap c ltac:(lia) ltac:(lia) g m v); assumption.
        -- split; [|exact H'].
           apply (rearranged_trans _ _ x x'); [apply Swap_rearranged; lia|].
           apply (rearranged_mono (first + c) (first + hi)); try lia. exact R.
      * split; [apply rearranged_refl|].
        intros k Hk. destruct (Nat.eq_dec k root) as [->|Hne]; [|now apply Hheap].
        intros c' u v Hc' Hc'hi Hu Hv.
        rewrite Hr in Hu. injection Hu as <-.
        apply (order_le_trans less less_ok v m r); [|exact Erm].
        apply (Hmax c' v); try assumption. unfold c1. lia.
Qed.

(** [siftDown_func] at [lo] makes a heap of the nodes from [lo] on when
    those after [lo] are one. *)
Lemma siftDown_func_spec (x : list A) (lo hi first : nat) :
  (first + hi <= List.length x)%nat ->
  (forall k, (lo < k < hi)%nat -> heap_at less x first hi k) ->
  rearranged (first + lo) (first + hi) x (sort.siftDown_func less x lo hi first) /\
  (forall k, (lo <= k < hi)%nat ->
     heap_at less (sort.siftDown_func less x lo hi first) first hi k).
Proof.
  intros Hlen Hheap. unfold sort.siftDown_func.
  apply siftDown_loop_spec; try assumption; try lia.
  intros k Hk Hne. apply Hheap. lia.
Qed.

Lemma build_heap_spec : forall (i : nat) (x : list A) (hi first : nat),
  (first + hi <= List.length x)%nat ->
  (forall k, (i < k < hi)%nat -> heap_at less x first hi k) ->
  rearranged first (first + hi) x (sort.build_heap less x i hi first) /\
  (forall k, (k < hi)%nat -> heap_at less (sort.build_heap less x i hi first) first hi k).
Proof.
  induction i as [|i IH]; intros x hi first Hlen Hheap; cbn [sort.build_heap];
    destruct (siftDown_func_spec x _ hi first Hlen Hheap) as [R H'].
  - split.
    + now rewrite Nat.add_0_r in R.
    + intros k Hk. apply H'. lia.
  - destruct (IH (sort.siftDown_func less x (S i) hi first) hi first) as [R2 H2].
    + now rewrite (rearranged_length _ _ _ _ R).
    + intros k Hk. apply H'. lia.
    + split; [|exact H2].
      apply (rearranged_trans _ _ x (sort.siftDown_func less x (S i) hi first));
        [|exact R2].
      apply (rearranged_mono (first + S i) (first + hi)); try lia. exact R.
Qed.

(** The root of a heap is not [less] than any of its nodes. *)
Lemma heap_root_max (x : list A) (first n : nat) (r : A) :
  (forall k, (k < n)%nat -> heap_at less x first n k) ->
  nth_error x first = Some r ->
  forall k v, (k < n)%nat -> nth_error x (first + k) = Some v -> less r v = false.
Proof.
  intros Hheap Hr k. induction k as [k IH] using lt_wf_ind. intros v Hk Hv.
  destruct k as [|k].
  - rewrite Nat.add_0_r, Hr in Hv. injection Hv as <-. apply (less_irrefl less less_ok).
  - pose proof (Nat.div_mod_eq k 2) as Hdiv.
    pose proof (Nat.mod_upper_bound k 2 ltac:(discriminate)) as Hmod.
    set (q := (k / 2)%nat) in *.
    destruct (nth_error x (first + q)) as [u|] eqn:Hu.
    + apply (order_le_trans less less_ok v u r).
      * apply (Hheap q ltac:(lia) (S k) u v); try assumption; lia.
      * apply (IH q); try assumption; lia.
    + apply nth_error_None in Hu.
      assert (nth_error x (first + S k) <> None) by congruence.
      apply nth_error_Some in H. lia.
Qed.

Lemma ranges_le_rearranged_left (lo mid hi : nat) (x y : list A) :
  (lo <= mid)%nat -> rearranged lo mid x y ->
  ranges_le less lo mid hi x -> ranges_le less lo mid hi y.
Proof.
  intros Hlm R H i j u v Hi Hj Hu Hv.
  assert (Hv' : nth_error x j = Some v) by (destruct R as [_ O]; rewrite <- O; [exact Hv|lia]).
  apply (all_in_rearranged lo mid x y (fun u => less v u = false) Hlm R)
    with (k := i); try assumption.
  intros k w Hk Hw. now apply (H k j w v).
Qed.

Lemma pop_heap_spec : forall (i : nat) (x : list A) (first hi : nat),
  (i < hi)%nat -> (first + hi <= List.length x)%nat ->
  (forall k, (k < i + 1)%nat -> heap_at less x first (i + 1) k) ->
  sorted_on less (first + i + 1) (first + hi) x ->
  ranges_le less first (first + i + 1) (first + hi) x ->
  rearranged first (first + hi) x (sort.pop_heap less x i 0 first) /\
  sorted_on less first (first + hi) (sort.pop_heap less x i 0 first).
Proof.
  induction i as [|i IH]; intros x first hi Hi Hlen Hheap Hsorted Hle;
    cbn [sort.pop_heap].
  - rewrite Nat.add_0_r.
    destruct (elt_in_range x first) as [r Hr]; [lia|].
    assert (E : sort.Swap x first first = x).
    { apply nth_error_ext. intros k.
      rewrite (nth_error_Swap x first first k r r Hr Hr).
      destruct (Nat.eqb_spec k first) as [->|_]; [now rewrite Hr|reflexivity]. }
    rewrite E. unfold sort.siftDown_func. simpl.
    split; [apply rearranged_refl|].
    intros a b u v Ha Hab Hb Hu Hv.
    destruct (Nat.eq_dec a first) as [->|Hne].
    + apply (Hle first b u v); try assumption; lia.
    + apply (Hsorted a b u v); try assumption; lia.
  - set (n := S i) in *.
    destruct (elt_in_range x first) as [r Hr]; [lia|].
    destruct (elt_in_range x (first + n)) as [l Hl]; [lia|].
    set (x1 := sort.Swap x first (first + n)).
    assert (Hx1 : forall k, nth_error x1 k =
              if (k =? first + n)%nat then Some r
              else if (k =? first)%nat then Some l else nth_error x k)
      by (intros k; apply (nth_error_Swap x first (first + n) k r l Hr Hl)).
    assert (R1 : rearranged first (first + n + 1) x x1)
      by (apply Swap_rearranged; lia).
    assert (Hlen1 : (first + hi <= List.length x1)%nat)
      by (unfold x1; now rewrite Swap_length).
    assert (Hmax : forall k v, (first <= k < first + n + 1)%nat ->
              nth_error x k = Some v -> less r v = false).
    { intros k v Hk Hv.
      apply (heap_root_max x first (n + 1) r Hheap Hr (k - first)); [lia|].
      now replace (first + (k - first))%nat with k by lia. }
    destruct (siftDown_func_spec x1 0 n first) as [R2 H2]; [lia| |].
    { intros k Hk c u v Hc Hcn Hu Hv. rewrite Hx1 in Hu, Hv.
      replace (first + k =? first + n)%nat with false in Hu
        by (symmetry; apply Nat.eqb_neq; lia).
      replace (first + k =? first)%nat with false in Hu
        by (symmetry; apply Nat.eqb_neq; lia).
      replace (first + c =? first + n)%nat with false in Hv
        by (symmetry; apply Nat.eqb_neq; lia).
      replace (first + c =? first)%nat with false in Hv
        by (symmetry; apply Nat.eqb_neq; lia).
      apply (Hheap k ltac:(lia) c u v); try assumption; lia. }
    rewrite Nat.add_0_r in R2.
    set (x2 := sort.siftDown_func less x1 0 n first) in *.
    assert (S1 : sorted_on less (first + n) (first + hi) x1).
    { intros a b u v Ha Hab Hb Hu Hv. rewrite Hx1 in Hu, Hv.
      replace (b =? first + n)%nat with false in Hv by (symmetry; apply Nat.eqb_neq; lia).
      replace (b =? first)%nat with false in Hv by (symmetry; apply Nat.eqb_neq; lia).
      destruct (Nat.eqb_spec a (first + n)) as [->|Hne].
      - injection Hu as <-. apply (Hle first b r v); try assumption; lia.
      - replace (a =? first)%nat with false in Hu by (symmetry; apply Nat.eqb_neq; lia).
        apply (Hsorted a b u v); try assumption; lia. }
    assert (L1 : ranges_le less first (first + n) (first + hi) x1).
    { intros a b u v Ha Hb Hu Hv. rewrite Hx1 in Hu, Hv.
      replace (a =? first + n)%nat with false in Hu by (symmetry; apply Nat.eqb_neq; lia).
      assert (Hu' : exists k, (first <= k < first + n + 1)%nat /\ nth_error x k = Some u).
      { destruct (Nat.eqb_spec a first) as [->|Hne].
        - injection Hu as <-. exists (first + n)%nat. split; [lia|exact Hl].
        - exists a. split; [lia|exact Hu]. }
      destruct Hu' as (k & Hk & Hku).
      destruct (Nat.eqb_spec b (first + n)) as [->|Hne].
      - injection Hv as <-. now apply (Hmax k u).
      - replace (b =? first)%nat with false in Hv by (symmetry; apply Nat.eqb_neq; lia).
        apply (Hle k b u v); try assumption; lia. }
    destruct (IH x2 first hi) as [R3 S3]; try lia.
    + now rewrite (rearranged_length _ _ _ _ R2).
    + intros k Hk. replace (i + 1)%nat with n by (unfold n; lia). apply H2. lia.
    + replace (first + i + 1)%nat with (first + n)%nat by (unfold n; lia).
      apply (sorted_on_outside less first (first + n) _ _ x1 x2); [lia|exact R2|exact S1].
    + replace (first + i + 1)%nat with (first + n)%nat by (unfold n; lia).
      apply (ranges_le_rearranged_left first (first + n) (first + hi) x1 x2);
        [lia|exact R2|exact L1].
    + split; [|exact S3].
      apply (rearranged_trans _ _ x x1);
        [apply (rearranged_mono first (first + n + 1)); try lia; exact R1|].
      apply (rearranged_trans _ _ x1 x2); [|exact R3].
      apply (rearranged_mono first (first + n)); try lia. exact R2.
Qed.

(** [heapSort_func] sorts the range [a, b) and leaves the rest. *)
Lemma heapSort_func_sorts (x : list A) (a b : nat) :
  (a <= b <= List.length x)%nat ->
  rearranged a b x (sort.heapSort_func less x a b) /\
  sorted_on less a b (sort.heapSort_func less x a b).
Proof.
  intros Hab. unfold sort.heapSort_func.
  pose proof (Nat.div_mod_eq (b - a - 1) 2) as Hdiv.
  pose proof (Nat.mod_upper_bound (b - a - 1) 2 ltac:(discriminate)) as Hmod.
  destruct (build_heap_spec ((b - a - 1) / 2) x (b - a) a) as [R H]; [lia| |].
  { intros k Hk c u v Hc Hchi. lia. }
  replace (a + (b - a))%nat with b in R by lia.
  set (x1 := sort.build_heap less x ((b - a - 1) / 2) (b - a) a) in *.
  destruct (b - a)%nat as [|i] eqn:E.
  - split; [exact R|]. apply sorted_on_short. lia.
  - destruct (pop_heap_spec i x1 a (S i)) as [R2 S2]; try lia.
    + rewrite (rearranged_length _ _ _ _ R). lia.
    + intros k Hk. replace (i + 1)%nat with (S i) by lia. apply H. lia.
    + apply sorted_on_short. lia.
    + intros p q u v Hp Hq. lia.
    + replace (a + S i)%nat with b in R2, S2 by lia.
      split; [|exact S2]. apply (rearranged_trans a b x x1); assumption.
Qed.

End HeapFacts.

Section PdqsortFacts.

Context {A : Type} (less : A -> A -> bool).
Hypothesis less_ok : StrictWeakOrder less.

Lemma prefix_le_shorter (a b b' : nat) (x : list A) :
  (b' <= b)%nat -> prefix_le less a b x -> prefix_le less a b' x.
Proof. intros Hb H i j u v Hi Hj. apply H; lia. Qed.

(** Around the pivot at [mid]: the range to its right starts after
    elements that are not above its own. *)
Lemma prefix_le_right (a b mid : nat) (x : list A) (p : A) :
  (a <= mid < b)%nat -> prefix_le less a b x -> nth_error x mid = Some p ->
  all_in a mid x (fun u => less u p = true) ->
  all_in (mid + 1) b x (fun u => less u p = false) ->
  prefix_le less (mid + 1) b x.
Proof.
  intros Hmid Hpre Hp Hleft Hright i j u v Hi Hj Hu Hv.
  pose proof (Hright j v Hj Hv) as Hvp.
  destruct (Nat.lt_ge_cases i a) as [Hia|Hia].
  - apply (Hpre i j u v); try assumption; lia.
  - destruct (Nat.eq_dec i mid) as [->|Hne].
    + rewrite Hp in Hu. now injection Hu as <-.
    + apply (order_less_le less less_ok).
      apply (order_less_le_trans less less_ok u p v); [|exact Hvp].
      apply (Hleft i u); [lia|exact Hu].
Qed.

(** Two sorted ranges around the pivot make one. *)
Lemma sorted_on_around (a b mid : nat) (x : list A) (p : A) :
  (a <= mid < b)%nat -> nth_error x mid = Some p ->
  all_in a mid x (fun u => less u p = true) ->
  all_in (mid + 1) b x (fun u => less u p = false) ->
  sorted_on less a mid x -> sorted_on less (mid + 1) b x ->
  sorted_on less a b x.
Proof.
  intros Hmid Hp Hleft Hright Sl Sr i j u v Hi Hij Hj Hu Hv.
  destruct (Nat.lt_ge_cases j mid) as [Hjm|Hjm];
    [apply (Sl i j u v); try assumption; lia|].
  destruct (Nat.lt_ge_cases mid i) as [Him|Him];
    [apply (Sr i j u v); try assumption; lia|].
  assert (Hup : less p u = false).
  { destruct (Nat.eq_dec i mid) as [->|Hne].
    - rewrite Hp in Hu. injection Hu as <-. apply (less_irrefl less less_ok).
    - apply (order_less_le less less_ok). apply (Hleft i u); [lia|exact Hu]. }
  assert (Hvp : less v p = false).
  { destruct (Nat.eq_dec j mid) as [->|Hne].
    - rewrite Hp in Hv. injection Hv as <-. apply (less_irrefl less less_ok).
    - apply (Hright j v); [lia|exact Hv]. }
  destruct (Nat.eq_dec i mid) as [->|Hne].
  - rewrite Hp in Hu. now injection Hu as <-.
  - apply (order_less_le less less_ok).
    apply (order_less_le_trans less less_ok u p v); [|exact Hvp].
    apply (Hleft i u); [lia|exact Hu].
Qed.

(** The elements that [partitionEqual_func] puts first are in their place
    when the pivot is not above any element of the range. *)
Lemma sorted_on_after_equal (a b mid : nat) (x : list A) (p : A) :
  (a < mid <= b)%nat ->
  all_in a b x (fun u => less u p = false) ->
  all_in a mid x (fun u => less p u = false) ->
  all_in mid b x (fun u => less p u = true) ->
  sorted_on less mid b x -> sorted_on less a b x.
Proof.
  intros Hmid Hmin Heq Hgt Sr i j u v Hi Hij Hj Hu Hv.
  destruct (Nat.lt_ge_cases i mid) as [Him|Him];
    [|apply (Sr i j u v); try assumption; lia].
  pose proof (Heq i u ltac:(lia) Hu) as Hpu.
  destruct (Nat.lt_ge_cases j mid) as [Hjm|Hjm].
  - apply (order_le_trans less less_ok u p v); [exact Hpu|].
    apply (Hmin j v); [lia|exact Hv].
  - apply (order_less_le less less_ok).
    apply (order_le_less_trans less less_ok u p v); [exact Hpu|].
    apply (Hgt j v); [lia|exact Hv].
Qed.

Lemma prefix_le_after_equal (a b mid : nat) (x : list A) (p : A) :
  (a < mid <= b)%nat -> prefix_le less a b x ->
  all_in a mid x (fun u => less p u = false) ->
  all_in mid b x (fun u => less p u = true) ->
  prefix_le less mid b x.
Proof.
  intros Hmid Hpre Heq Hgt i j u v Hi Hj Hu Hv.
  destruct (Nat.lt_ge_cases i a) as [Hia|Hia].
  - apply (Hpre i j u v); try assumption; lia.
  - apply (order_less_le less less_ok).
    apply (order_le_less_trans less less_ok u p v).
    + apply (Heq i u); [lia|exact Hu].
    + apply (Hgt j v); [lia|exact Hv].
Qed.

(** [pdqsort_func] sorts the range [a, b) and leaves the rest, when no
    element of the range is [less] than one before it. *)
Lemma pdqsort_func_sorts (fuel : nat) :
  forall (x : list A) (a b limit : nat) (wasBalanced wasPartitioned : bool),
  (a <= b <= List.length x)%nat -> (b - a < fuel)%nat -> prefix_le less a b x ->
  rearranged a b x
    (sort.pdqsort_func less x a b limit wasBalanced wasPartitioned fuel) /\
  sorted_on less a b
    (sort.pdqsort_func less x a b limit wasBalanced wasPartitioned fuel).
Proof.
  induction fuel as [|fuel IH];
    intros x a b limit wasBalanced wasPartitioned Hab Hfuel Hpre; [lia|].
  cbn [sort.pdqsort_func].
  destruct (b - a <=? sort.maxInsertion)%nat eqn:Eshort;
    [now apply insertionSort_func_sorts|].
  apply Nat.leb_gt in Eshort. unfold sort.maxInsertion in Eshort.
  destruct (limit =? 0)%nat; [now apply heapSort_func_sorts|].
  set (broken := if negb wasBalanced then _ else _).
  assert (Hb : rearranged a b x (fst broken)).
  { unfold broken. destruct wasBalanced; simpl;
      [apply rearranged_refl|apply breakPatterns_func_rearranged; lia]. }
  destruct broken as [x1 limit1]. simpl in Hb.
  destruct (sort.choosePivot_func less x1 a b) as [pivot hint] eqn:Epivot.
  pose proof (choosePivot_func_range' less x1 a b pivot hint ltac:(lia) Epivot) as Hpivot.
  set (turned := if sort.is_decreasing hint then _ else _).
  assert (Ht : rearranged a b x1 (fst (fst turned)) /\
               (a <= snd (fst turned) < b)%nat).
  { unfold turned. destruct (sort.is_decreasing hint); simpl.
    - split; [apply reverseRange_func_rearranged; lia|lia].
    - split; [apply rearranged_refl|exact Hpivot]. }
  destruct turned as [[x2 pivot2] hint2]. simpl in Ht. destruct Ht as [Ht Hpivot2].
  assert (R2 : rearranged a b x x2) by (now apply (rearranged_trans a b x x1)).
  assert (L2 : (b <= List.length x2)%nat)
    by (rewrite (rearranged_length _ _ _ _ R2); lia).
  assert (P2 : prefix_le less a b x2)
    by (apply (prefix_le_rearranged less a b x x2); try assumption; lia).
  set (tried := if _ && _ && _ then _ else _).
  assert (Hi : rearranged a b x2 (fst tried) /\
               (snd tried = true -> sorted_on less a b (fst tried))).
  { unfold tried. destruct (_ && _ && _).
    - apply partialInsertionSort_func_spec; try assumption; lia.
    - simpl. split; [apply rearranged_refl|discriminate]. }
  destruct tried as [x3 sorted]. simpl in Hi. destruct Hi as [Hi Hsorted].
  assert (R3 : rearranged a b x x3) by (now apply (rearranged_trans a b x x2)).
  assert (L3 : (b <= List.length x3)%nat)
    by (rewrite (rearranged_length _ _ _ _ R3); lia).
  assert (P3 : prefix_le less a b x3)
    by (apply (prefix_le_rearranged less a b x x3); try assumption; lia).
  destruct sorted; [split; [exact R3|now apply Hsorted]|]. clear Hsorted.
  destruct ((0 <? a)%nat && negb (sort.Less less x3 (a - 1) pivot2)) eqn:Eequal.
  - apply andb_true_iff in Eequal as [Ea Eless].
    apply Nat.ltb_lt in Ea. apply negb_true_iff in Eless.
    destruct (elt_in_range x3 pivot2) as [p Hp]; [lia|].
    destruct (elt_in_range x3 (a - 1)) as [w Hw]; [lia|].
    rewrite (Less_elt less x3 (a - 1) pivot2 w p Hw Hp) in Eless.
    assert (Hmin : all_in a b x3 (fun u => less u p = false)).
    { intros k u Hk Hu. apply (order_le_trans less less_ok p w u); [exact Eless|].
      apply (P3 (a - 1)%nat k w u); try assumption; lia. }
    pose proof (partitionEqual_func_spec less less_ok x3 a b pivot2 p Hpivot2 L3 Hp)
      as Hspec.
    destruct (sort.partitionEqual_func less x3 a b pivot2) as [x4 mid].
    simpl in Hspec. destruct Hspec as (R4 & Hmid & Heq & Hgt).
    assert (R04 : rearranged a b x x4) by (now apply (rearranged_trans a b x x3)).
    assert (L4 : (b <= List.length x4)%nat)
      by (rewrite (rearranged_length _ _ _ _ R04); lia).
    assert (P4 : prefix_le less a b x4)
      by (apply (prefix_le_rearranged less a b x x4); try assumption; lia).
    assert (Hmin4 : all_in a b x4 (fun u => less u p = false))
      by (apply (all_in_rearranged a b x3 x4); try assumption; lia).
    destruct (IH x4 mid b limit1 wasBalanced wasPartitioned) as [R5 S5]; try lia.
    { now apply (prefix_le_after_equal a b mid x4 p). }
    set (y := sort.pdqsort_func less x4 mid b limit1 wasBalanced wasPartitioned fuel) in *.
    split.
    + apply (rearranged_trans a b x x4); [exact R04|].
      apply (rearranged_mono mid b); try lia. exact R5.
    + apply (sorted_on_after_equal a b mid y p); try assumption.
      * apply (all_in_rearranged a b x4 y); [lia| |exact Hmin4].
        apply (rearranged_mono mid b); try lia. exact R5.
      * apply (all_in_outside mid b a mid x4 y); [lia|exact R5|exact Heq].
      * apply (all_in_rearranged mid b x4 y); [lia|exact R5|exact Hgt].
  - clear Eequal.
    pose proof (partition_func_spec less x3 a b pivot2 Hpivot2 L3) as Hspec.
    destruct (sort.partition_func less x3 a b pivot2) as [[x4 mid] already].
    simpl in Hspec. destruct Hspec as (R4 & Hmid & p & Hp & Hleft & Hright).
    assert (R04 : rearranged a b x x4) by (now apply (rearranged_trans a b x x3)).
    assert (L4 : (b <= List.length x4)%nat)
      by (rewrite (rearranged_length _ _ _ _ R04); lia).
    assert (P4 : prefix_le less a b x4)
      by (apply (prefix_le_rearranged less a b x x4); try assumption; lia).
    destruct (mid - a <? b - mid)%nat.
    + destruct (IH x4 a mid limit1 true true) as [R5 S5]; try lia.
      { apply (prefix_le_shorter a b mid); [lia|assumption]. }
      set (x5 := sort.pdqsort_func less x4 a mid limit1 true true fuel) in *.
      assert (Hp5 : nth_error x5 mid = Some p)
        by (destruct R5 as [_ O]; rewrite O; [exact Hp|lia]).
      assert (Hleft5 : all_in a mid x5 (fun u => less u p = true))
        by (apply (all_in_rearranged a mid x4 x5); try assumption; lia).
      assert (Hright5 : all_in (mid + 1) b x5 (fun u => less u p = false))
        by (apply (all_in_outside a mid (mid + 1) b x4 x5); try assumption; lia).
      assert (P5 : prefix_le less a b x5).
      { apply (prefix_le_rearranged less a b x4 x5); try assumption; try lia.
        apply (rearranged_mono a mid); try lia. exact R5. }
      destruct (IH x5 (mid + 1)%nat b limit1 ((b - a) / 8 <=? mid - a)%nat already)
        as [R6 S6]; try lia.
      { rewrite (rearranged_length _ _ _ _ R5). lia. }
      { now apply (prefix_le_right a b mid x5 p). }
      set (x6 := sort.pdqsort_func less x5 (mid + 1) b limit1 _ already fuel) in *.
      split.
      * apply (rearranged_trans a b x x4); [exact R04|].
        apply (rearranged_trans a b x4 x5);
          [apply (rearranged_mono a mid); try lia; exact R5|].
        apply (rearranged_mono (mid + 1) b); try lia. exact R6.
      * apply (sorted_on_around a b mid x6 p); try assumption.
        -- destruct R6 as [_ O]. rewrite O; [exact Hp5|lia].
        -- apply (all_in_outside (mid + 1) b a mid x5 x6); try assumption; lia.
        -- apply (all_in_rearranged (mid + 1) b x5 x6); try assumption; lia.
        -- apply (sorted_on_outside less (mid + 1) b a mid x5 x6); try assumption; lia.
    + destruct (IH x4 (mid + 1)%nat b limit1 true true) as [R5 S5]; try lia.
      { now apply (prefix_le_right a b mid x4 p). }
      set (x5 := sort.pdqsort_func less x4 (mid + 1) b limit1 true true fuel) in *.
      assert (Hp5 : nth_error x5 mid = Some p)
        by (destruct R5 as [_ O]; rewrite O; [exact Hp|lia]).
      assert (Hleft5 : all_in a mid x5 (fun u => less u p = true))
        by (apply (all_in_outside (mid + 1) b a mid x4 x5); try assumption; lia).
      assert (Hright5 : all_in (mid + 1) b x5 (fun u => less u p = false))
        by (apply (all_in_rearranged (mid + 1) b x4 x5); try assumption; lia).
      assert (P5 : prefix_le less a b x5).
      { apply (prefix_le_rearranged less a b x4 x5); try assumption; try lia.
        apply (rearranged_mono (mid + 1) b); try lia. exact R5. }
      destruct (IH x5 a mid limit1 ((b - a) / 8 <=? b - mid)%nat already)
        as [R6 S6]; try lia.
      { rewrite (rearranged_length _ _ _ _ R5). lia. }
      { apply (prefix_le_shorter a b mid); [lia|assumption]. }
      set (x6 := sort.pdqsort_func less x5 a mid limit1 _ already fuel) in *.
      split.
      * apply (rearranged_trans a b x x4); [exact R04|].
        apply (rearranged_trans a b x4 x5);
          [apply (rearranged_mono (mid + 1) b); try lia; exact R5|].
        apply (rearranged_mono a mid); try lia. exact R6.
      * apply (sorted_on_around a b mid x6 p); try assumption.
        -- destruct R6 as [_ O]. rewrite O; [exact Hp5|lia].
        -- apply (all_in_rearranged a mid x5 x6); try assumption; lia.
        -- apply (all_in_outside a mid (mid + 1) b x5 x6); try assumption; lia.
        -- apply (sorted_on_outside less a mid (mid + 1) b x5 x6); try assumption; lia.
Qed.

(** [sort.Slice] sorts its slice. *)
Lemma Slice_IsSorted (x : list A) : SliceIsSorted (sort.Slice x less) less = true.
Proof.
  unfold sort.Slice.
  destruct (pdqsort_func_sorts (S (List.length x)) x 0 (List.length x)
              (sort.bits_Len (List.length x)) true true) as [R S]; try lia.
  { intros i j u v Hi. lia. }
  apply (sorted_on_SliceIsSorted less).
  now rewrite (rearranged_length _ _ _ _ R).
Qed.

End PdqsortFacts.

(** The sort package meets the contract of [sort.Slice]. *)
#[export] Instance go_sort : SliceSorter := {|
  sort_Slice := @sort.Slice;
  sort_Slice_Permutation := fun A x less => Slice_Permutation less x;
  sort_Slice_IsSorted := fun A x less ok => Slice_IsSorted less ok x
|}.

(** ** Machine arithmetic *)

(** [flags & bit != 0] for a single-bit mask tests that bit. *)
Lemma land_bit_testbit (flags n : Z) :
  0 <= n -> negb (Z.land flags (2 ^ n) =? 0) = Z.testbit flags n.
Proof.
  intros Hn. destruct (Z.testbit flags n) eqn:Hb.
  - apply negb_true_iff, Z.eqb_neq. intros H0.
    assert (Ht : Z.testbit (Z.land flags (2 ^ n)) n = true)
      by (rewrite Z.land_spec, Hb, Z.pow2_bits_true; auto).
    rewrite H0, Z.bits_0 in Ht. discriminate.
  - apply negb_false_iff, Z.eqb_eq, Z.bits_inj'. intros m Hm.
    rewrite Z.land_spec, Z.bits_0.
    destruct (Z.eq_dec n m) as [<-|Hne].
    + now rewrite Hb.
    + rewrite Z.pow2_bits_false by assumption. apply andb_false_r.
Qed.

(** ** The monad *)

Lemma bind_Ok {A B : Type} (m : M A) (k : A -> M B) (w w' : World) (a : A) :
  m w = (Ok a, w') -> bind m k w = k a w'.
Proof. unfold bind. now intros ->. Qed.

Lemma bind_Err {A B : Type} (m : M A) (k : A -> M B) (w w' : World) (e : error) :
  m w = (Err e, w') -> bind m k w = (Err e, w').
Proof. unfold bind. now intros ->. Qed.

Lemma check_Success (message : string) (w : World) :
  check vk.Success message w = (Ok tt, w).
Proof. reflexivity. Qed.

Lemma check_not_Success (result : vk.Result) (message : string) (w : World) :
  result <> vk.Success ->
  check result message w = (Err (errors_Wrap (vk_Error result) message), w).
Proof.
  intros H. unfold check, vk.Error.
  now rewrite (proj2 (Z.eqb_neq _ _) H).
Qed.

Lemma check_cases (result : vk.Result) (message : string) (w : World) :
  result = vk.Success /\ check result message w = (Ok tt, w) \/
  result <> vk.Success /\
    check result message w = (Err (errors_Wrap (vk_Error result) message), w).
Proof.
  destruct (Z.eq_dec result vk.Success) as [->|H].
  - left. split; [reflexivity|apply check_Success].
  - right. split; [assumption|now apply check_not_Success].
Qed.

Lemma fill_length {A : Type} (buffer items : list A) :
  List.length (fill buffer items) = List.length buffer.
Proof.
  unfold fill. rewrite length_app, length_firstn, length_skipn. lia.
Qed.

Lemma fill_make_exact {A : Type} (zero : A) (items : list A) :
  fill (make zero (List.length items)) items = items.
Proof.
  unfold fill, make. rewrite repeat_length, firstn_all, skipn_all2.
  - apply app_nil_r.
  - now rewrite repeat_length.
Qed.

(** ** Scoring *)

(** What the scoring loop computes. The dimension limit that the driver
    reported is not in it: the loop adds [properties.Limits.MaxImageDimension2D]
    after [properties.Deref()] alone, and that field is still zero. *)
Lemma score_device_Score (rt : Runtime) (d : vk.PhysicalDevice) :
  Score (score_device rt d) =
  if vk.GeometryShader (GetPhysicalDeviceFeatures rt d) then 0
  else discrete_bonus (vk.DeviceType (GetPhysicalDeviceProperties rt d)).
Proof.
  unfold score_device; simpl.
  destruct (vk.GeometryShader _); [reflexivity|].
  destruct (vk.DeviceType _); reflexivity.
Qed.

Lemma score_device_Name (rt : Runtime) (d : vk.PhysicalDevice) :
  Name (score_device rt d) = vk.DeviceName (GetPhysicalDeviceProperties rt d).
Proof. reflexivity. Qed.

Lemma score_device_Device (rt : Runtime) (d : vk.PhysicalDevice) :
  Device (score_device rt d) = d.
Proof. reflexivity. Qed.

(** C3: the score that [pickPhysicalDevice] computes is the score of the
    specification with the dimension limit taken as 0, whatever limit the
    driver reported: 1000 for a discrete GPU, 0 for any other type, and 0
    when the geometry-shader flag is set. For the integrated GPU of scenario
    1, which reports the limit 8192, the program computes 0 where the
    specification says 8192. *)
Theorem score_leaves_out_the_dimension_limit (rt : Runtime) (d : vk.PhysicalDevice) :
  let properties := GetPhysicalDeviceProperties rt d in
  let features := GetPhysicalDeviceFeatures rt d in
  Score (score_device rt d) =
    spec_score (vk.DeviceType properties) 0 (vk.GeometryShader features) /\
  vk.MaxImageDimension2D (GetPhysicalDeviceProperties scenario_1 2) = 8192 /\
  spec_score (vk.DeviceType (GetPhysicalDeviceProperties scenario_1 2))
    (vk.MaxImageDimension2D (GetPhysicalDeviceProperties scenario_1 2))
    (vk.GeometryShader (GetPhysicalDeviceFeatures scenario_1 2)) = 8192 /\
  Score (score_device scenario_1 2) = 0.
Proof.
  intros properties features. split; [|repeat split; reflexivity].
  rewrite score_device_Score. fold properties features. unfold spec_score.
  destruct (vk.GeometryShader features); [reflexivity|].
  now destruct (vk.DeviceType properties).
Qed.

(** C10: the sum of the scoring loop is a [uint32] sum, but the limit it
    adds is the zero that [properties.Limits.MaxImageDimension2D] still
    holds, so nothing wraps: a discrete GPU without the geometry-shader flag
    scores 1000 whatever limit it reports, and no device scores more. *)
Theorem score_of_discrete_gpu_does_not_wrap (rt : Runtime) (d : vk.PhysicalDevice) :
  vk.DeviceType (GetPhysicalDeviceProperties rt d) = vk.PhysicalDeviceTypeDiscreteGpu ->
  vk.GeometryShader (GetPhysicalDeviceFeatures rt d) = false ->
  vk.MaxImageDimension2D (GetPhysicalDeviceProperties rt d) > 2 ^ 32 - 1001 ->
  Score (score_device rt d) = 1000 /\
  forall d' : vk.PhysicalDevice, Score (score_device rt d') <= Score (score_device rt d).
Proof.
  intros Hty Hg _.
  assert (Hs : Score (score_device rt d) = 1000)
    by (now rewrite score_device_Score, Hty, Hg).
  split; [exact Hs|]. intros d'. rewrite Hs, score_device_Score.
  destruct (vk.GeometryShader (GetPhysicalDeviceFeatures rt d')); [lia|].
  destruct (vk.DeviceType (GetPhysicalDeviceProperties rt d')); simpl; lia.
Qed.

Lemma score_of_discrete_gpu_does_not_wrap_witness :
  vk.MaxImageDimension2D (GetPhysicalDeviceProperties wrapping_host 1) = 2 ^ 32 - 1 /\
  spec_score vk.PhysicalDeviceTypeDiscreteGpu (2 ^ 32 - 1) false = 999 /\
  Score (score_device wrapping_host 1) = 1000 /\
  Score (score_device wrapping_host 2) <= Score (score_device wrapping_host 1) /\
  fst (pickPhysicalDevice (sorter := go_sort) wrapping_host with_instance) = Ok 1.
Proof.
  destruct (score_of_discrete_gpu_does_not_wrap wrapping_host 1) as [Hs Htop];
    [reflexivity|reflexivity|simpl; lia|].
  repeat split; try reflexivity. apply Htop.
Defined.

(** ** The diagnostics callback *)

(** C9: whatever it is called with, [debugCallback] makes exactly one
    [log.Printf] call and returns [vk.False]: the error record (message
    code, message, layer) when the error bit (bit 3) of [flags] is set;
    otherwise the warning record when the warning bit (bit 1) is set;
    otherwise the record of an unknown message. It returns no error and does
    not panic, and leaves the application untouched. *)
Theorem debugCallback_classifies_and_continues
    (flags : vk.DebugReportFlags) (objectType object location messageCode : Z)
    (pLayerPrefix pMessage : string) (pUserData : Z) (w : World) :
  debugCallback flags objectType object location messageCode pLayerPrefix
    pMessage pUserData w =
  (Ok vk.False,
   {| app := app w;
      logged := logged w ++
        [if Z.testbit flags 3 then
           log_Printf "[ERROR %d] %s on layer %s"
             [arg_int messageCode; arg_string pMessage; arg_string pLayerPrefix]
         else if Z.testbit flags 1 then
           log_Printf "[WARN %d] %s on layer %s"
             [arg_int messageCode; arg_string pMessage; arg_string pLayerPrefix]
         else
           log_Printf "[WARN] unknown debug message %d (layer %s)"
             [arg_int messageCode; arg_string pLayerPrefix]] |}).
Proof.
  unfold debugCallback.
  change vk.DebugReportErrorBit with (2 ^ 3).
  change vk.DebugReportWarningBit with (2 ^ 1).
  rewrite !land_bit_testbit by lia.
  destruct (Z.testbit flags 3); [reflexivity|].
  destruct (Z.testbit flags 1); reflexivity.
Qed.

(** Scenario 5 of the specification: only the warning bit set. *)
Example debugCallback_warning_only :
  debugCallback vk.DebugReportWarningBit 0 0 0 42 "layer" "message" 0 fresh =
  (Ok vk.False,
   {| app := app fresh;
      logged := [log_Printf "[WARN %d] %s on layer %s"
                   [arg_int 42; arg_string "message"; arg_string "layer"]] |}).
Proof. reflexivity. Qed.

(** ** Required extensions *)

(** C8: the extension names handed to [vk.CreateInstance] are the window's
    required extensions in their order, followed by the NUL-terminated
    debug-report extension name exactly when validation layers are enabled;
    nothing is removed, so the length is the window's count plus one or
    zero. *)
Theorem requiredExtensions_window_then_debug_report (cfg : Config) (rt : Runtime) :
  requiredExtensions cfg rt =
    GetRequiredInstanceExtensions rt ++
    (if enableValidationLayers cfg
     then [(vk.ExtDebugReportExtensionName ++ x00)%string] else []) /\
  vk.PpEnabledExtensionNames (createInfo cfg rt) = requiredExtensions cfg rt /\
  List.length (requiredExtensions cfg rt) =
    (List.length (GetRequiredInstanceExtensions rt) +
     (if enableValidationLayers cfg then 1 else 0))%nat.
Proof.
  unfold createInfo, requiredExtensions; simpl.
  destruct (enableValidationLayers cfg); repeat split;
    rewrite ?length_app, ?app_nil_r; simpl; try lia; reflexivity.
Qed.

(** A window that already asks for the debug-report extension gets it twice. *)
Example requiredExtensions_keeps_duplicates :
  requiredExtensions main_config
    (host [] ["VK_KHR_surface"; (vk.ExtDebugReportExtensionName ++ x00)%string]
       (vk.Success, 1) (enumeration_of []) []) =
  ["VK_KHR_surface"; (vk.ExtDebugReportExtensionName ++ x00)%string;
   (vk.ExtDebugReportExtensionName ++ x00)%string].
Proof. reflexivity. Qed.

(** ** Computations that leave the application alone *)

Lemma quiet_ret {A : Type} (a : A) : quiet (ret a).
Proof. intros w; split; [reflexivity|discriminate]. Qed.

Lemma quiet_fail {A : Type} (e : error) : quiet (@fail A e).
Proof. intros w; split; [reflexivity|discriminate]. Qed.

Lemma quiet_emit (c : log_call) : quiet (emit c).
Proof. intros w; split; [reflexivity|discriminate]. Qed.

Lemma quiet_check (result : vk.Result) (message : string) :
  quiet (check result message).
Proof.
  intros w. destruct (check_cases result message w) as [[_ ->]|[_ ->]];
    split; try reflexivity; discriminate.
Qed.

Lemma quiet_bind {A B : Type} (m : M A) (k : A -> M B) :
  quiet m -> (forall a, quiet (k a)) -> quiet (bind m k).
Proof.
  intros Hm Hk w. unfold bind. destruct (Hm w) as [Ha Hp].
  destruct (m w) as [[a|e|s] w'] eqn:E; simpl in *.
  - destruct (Hk a w') as [Ha' Hp']. split; [congruence|exact Hp'].
  - split; [exact Ha|discriminate].
  - now destruct (Hp s).
Qed.

Lemma quiet_wrapped {A : Type} (m : M A) (message : string) :
  quiet m -> quiet (wrapped m message).
Proof.
  intros Hm w. unfold wrapped. destruct (Hm w) as [Ha Hp].
  destruct (m w) as [[a|e|s] w'] eqn:E; simpl in *;
    (split; [exact Ha|]); try discriminate. exact Hp.
Qed.

Create HintDb quiet.
#[local] Hint Resolve quiet_ret quiet_fail quiet_emit quiet_check quiet_bind
  quiet_wrapped : quiet.

Lemma quiet_find_layer (vln : string) (names : list string) :
  quiet (find_layer vln names).
Proof.
  induction names as [|aln names IH]; simpl; [auto with quiet|].
  destruct (vln =? aln)%string; [|exact IH].
  apply quiet_bind; intros; unfold Printf; auto with quiet.
Qed.

Lemma quiet_all_layers_found (requested names : list string) :
  quiet (all_layers_found requested names).
Proof.
  induction requested as [|vln requested IH]; simpl; [auto with quiet|].
  apply quiet_bind; [apply quiet_find_layer|].
  intros [|]; auto with quiet.
Qed.

Lemma quiet_layer_names (layers : list vk.LayerProperties) :
  quiet (layer_names layers).
Proof.
  induction layers as [|layer layers IH]; simpl; [auto with quiet|].
  apply quiet_bind; [unfold Printf; auto with quiet|]. intros _.
  apply quiet_bind; [exact IH|]. auto with quiet.
Qed.

Lemma quiet_log_extensions (exts : list vk.ExtensionProperties) :
  quiet (log_extensions exts).
Proof.
  induction exts as [|ex exts IH]; simpl; [auto with quiet|].
  apply quiet_bind; [unfold Printf; auto with quiet|]. intros _. exact IH.
Qed.

Lemma quiet_checkValidationLayerSupport (cfg : Config) (rt : Runtime) :
  quiet (checkValidationLayerSupport cfg rt).
Proof.
  unfold checkValidationLayerSupport, Print.
  apply quiet_bind; [apply quiet_check|intros _].
  apply quiet_bind; [apply quiet_check|intros _].
  apply quiet_bind; [apply quiet_emit|intros _].
  apply quiet_bind; [apply quiet_layer_names|intros names].
  apply quiet_bind; [apply quiet_all_layers_found|intros supported].
  destruct supported; auto with quiet.
Qed.

(** ** Validation layers *)

Lemma bind_fst_Ok {A B : Type} (m : M A) (k : A -> M B) (w : World) (a : A) :
  fst (m w) = Ok a -> bind m k w = k a (snd (m w)).
Proof. unfold bind. destruct (m w) as [o w']; simpl. now intros ->. Qed.

Lemma find_layer_value (vln : string) (names : list string) (w : World) :
  fst (find_layer vln names w) = Ok (existsb (String.eqb vln) names).
Proof.
  induction names as [|aln names IH]; simpl; [reflexivity|].
  destruct (vln =? aln)%string; [reflexivity|exact IH].
Qed.

Lemma all_layers_found_value (requested names : list string) (w : World) :
  fst (all_layers_found requested names w) =
  Ok (forallb (fun vln => existsb (String.eqb vln) names) requested).
Proof.
  revert w; induction requested as [|vln requested IH]; intros w; simpl;
    [reflexivity|].
  rewrite (bind_fst_Ok _ _ _ _ (find_layer_value vln names w)).
  destruct (existsb (String.eqb vln) names); [apply IH|reflexivity].
Qed.

Lemma layer_names_value (layers : list vk.LayerProperties) (w : World) :
  fst (layer_names layers w) = Ok (map vk.LayerName layers).
Proof.
  revert w; induction layers as [|layer layers IH]; intros w; simpl;
    [reflexivity|].
  unfold bind at 1. simpl.
  rewrite (bind_fst_Ok _ _ _ _ (IH _)). reflexivity.
Qed.

Lemma checkValidationLayerSupport_value (cfg : Config) (rt : Runtime) (w : World) :
  count_status (EnumerateInstanceLayerProperties rt) = vk.Success ->
  fill_status (EnumerateInstanceLayerProperties rt) = vk.Success ->
  fst (checkValidationLayerSupport cfg rt w) =
  Ok (forallb (fun vln => existsb (String.eqb vln) (available_layer_names rt))
        (validationLayerNames cfg)).
Proof.
  intros Hc Hf. unfold checkValidationLayerSupport. rewrite Hc, Hf.
  unfold bind at 1; rewrite check_Success.
  unfold bind at 1; rewrite check_Success.
  unfold bind at 1; simpl.
  rewrite (bind_fst_Ok _ _ _ _ (layer_names_value _ _)).
  rewrite (bind_fst_Ok _ _ _ _ (all_layers_found_value _ _ _)).
  fold (available_layers rt). fold (available_layer_names rt).
  destruct (forallb _ _); reflexivity.
Qed.

(** C6: when the layer enumeration succeeds, [checkValidationLayerSupport]
    returns [true] exactly when every requested name is, character for
    character, the name of an available layer; with no requested name it
    returns [true] whatever layers are available. *)
Theorem checkValidationLayerSupport_iff_every_name_available
    (cfg : Config) (rt : Runtime) (w : World) :
  count_status (EnumerateInstanceLayerProperties rt) = vk.Success ->
  fill_status (EnumerateInstanceLayerProperties rt) = vk.Success ->
  exists supported : bool,
    fst (checkValidationLayerSupport cfg rt w) = Ok supported /\
    (supported = true <->
     forall name, In name (validationLayerNames cfg) ->
                  In name (available_layer_names rt)) /\
    (validationLayerNames cfg = [] -> supported = true).
Proof.
  intros Hc Hf. eexists. split; [now apply checkValidationLayerSupport_value|].
  split.
  - rewrite forallb_forall. split; intros H name Hin.
    + apply H in Hin. apply existsb_exists in Hin as [aln [Hin Heq]].
      apply String.eqb_eq in Heq. now subst.
    + apply existsb_exists. exists name. split; [now apply H|apply String.eqb_refl].
  - now intros ->.
Qed.

Lemma checkValidationLayerSupport_iff_every_name_available_witness :
  exists supported : bool,
    fst (checkValidationLayerSupport main_config validating_host fresh) = Ok supported /\
    (supported = true <->
     forall name, In name (validationLayerNames main_config) ->
                  In name (available_layer_names validating_host)) /\
    (validationLayerNames main_config = [] -> supported = true).
Proof.
  apply (checkValidationLayerSupport_iff_every_name_available
           main_config validating_host fresh); reflexivity.
Defined.

Example checkValidationLayerSupport_found :
  checkValidationLayerSupport main_config validating_host fresh =
  (Ok true,
   {| app := app fresh;
      logged :=
        [log_Print "Available validation layers";
         log_Printf " > %s <%s>"
           [arg_string "VK_LAYER_LUNARG_standard_validation";
            arg_string "LunarG Standard Validation"];
         log_Printf "%s is a supported validation layer"
           [arg_string "VK_LAYER_LUNARG_standard_validation"];
         log_Print "All validation layers are supported"] |}).
Proof. reflexivity. Qed.

(** Matching is by whole name and by case: neither a longer name nor the
    same name in lower case counts. *)
Example checkValidationLayerSupport_no_partial_match :
  fst (checkValidationLayerSupport main_config
         (host [{| vk.LayerName := "VK_LAYER_LUNARG_standard_validation_2";
                   vk.Description := "" |};
                {| vk.LayerName := "vk_layer_lunarg_standard_validation";
                   vk.Description := "" |}]
            [] (vk.Success, 7) (enumeration_of []) [])
         fresh) = Ok false.
Proof. reflexivity. Qed.

Example checkValidationLayerSupport_nothing_requested :
  fst (checkValidationLayerSupport
         {| enableValidationLayers := true; validationLayerNames := [] |}
         (host [] [] (vk.Success, 7) (enumeration_of []) []) fresh) = Ok true.
Proof. reflexivity. Qed.

(** ** Instance creation *)

Lemma bind_quiet {A B : Type} (m : M A) (k : A -> M B)
    (P : outcome B * World -> Prop) (w : World) :
  quiet m ->
  (forall e w', app w' = app w -> P (Err e, w')) ->
  (forall a w', app w' = app w -> P (k a w')) ->
  P (bind m k w).
Proof.
  intros Hm He Hk. unfold bind. destruct (Hm w) as [Ha Hp].
  destruct (m w) as [[a|e|s] w']; simpl in *.
  - now apply Hk.
  - now apply He.
  - now destruct (Hp s).
Qed.

Lemma quiet_validation_gate (cfg : Config) (rt : Runtime) :
  quiet (if enableValidationLayers cfg then
           supported <- wrapped (checkValidationLayerSupport cfg rt)
                          "can't check validation layers";;
           if supported then ret tt
           else fail (errors_New "validation layers requested but not available")
         else ret tt).
Proof.
  destruct (enableValidationLayers cfg); [|apply quiet_ret].
  apply quiet_bind.
  - apply quiet_wrapped, quiet_checkValidationLayerSupport.
  - intros [|]; auto with quiet.
Qed.

(** C7: started with no instance, [createInstance] either succeeds, and
    then [vk.CreateInstance] reported success and the one handle it produced
    is the application's instance (window and debug handle untouched), or
    returns an error, and then the application is as it was, its instance
    still null. It does not panic. *)
Theorem createInstance_stores_instance_only_on_success
    (cfg : Config) (rt : Runtime) (w : World) :
  instance (app w) = vk.NullHandle ->
  match createInstance cfg rt w with
  | (Ok _, w') =>
      fst (CreateInstance rt (createInfo cfg rt)) = vk.Success /\
      instance (app w') = snd (CreateInstance rt (createInfo cfg rt)) /\
      window (app w') = window (app w) /\
      debug (app w') = debug (app w)
  | (Err _, w') => instance (app w') = vk.NullHandle /\ app w' = app w
  | (Panic _, _) => False
  end.
Proof.
  intros Hnull.
  set (P := fun r : outcome unit * World =>
    match r with
    | (Ok _, w') =>
        fst (CreateInstance rt (createInfo cfg rt)) = vk.Success /\
        instance (app w') = snd (CreateInstance rt (createInfo cfg rt)) /\
        window (app w') = window (app w) /\
        debug (app w') = debug (app w)
    | (Err _, w') => instance (app w') = vk.NullHandle /\ app w' = app w
    | (Panic _, _) => False
    end).
  assert (Herr : forall e w', app w' = app w -> P (Err e, w'))
    by (intros e w' Hw; simpl; rewrite Hw; auto).
  change (P (createInstance cfg rt w)). unfold createInstance.
  apply bind_quiet; [apply quiet_validation_gate|auto|]. intros _ w1 H1.
  apply bind_quiet; [apply quiet_check|intros; apply Herr; congruence|].
  intros _ w2 H2.
  apply bind_quiet; [apply quiet_check|intros; apply Herr; congruence|].
  intros _ w3 H3.
  apply bind_quiet; [apply quiet_emit|intros; apply Herr; congruence|].
  intros _ w4 H4.
  apply bind_quiet; [apply quiet_log_extensions|intros; apply Herr; congruence|].
  intros _ w5 H5.
  apply bind_quiet; [apply quiet_emit|intros; apply Herr; congruence|].
  intros _ w6 H6.
  assert (H : app w6 = app w) by congruence.
  destruct (CreateInstance rt (createInfo cfg rt)) as [result handle]; simpl.
  destruct (check_cases result "can't create instance" w6) as [[-> Hc]|[Hne Hc]].
  - rewrite (bind_Ok _ _ _ _ _ Hc). simpl. rewrite H. auto.
  - rewrite (bind_Err _ _ _ _ _ Hc). now apply Herr.
Qed.

Lemma createInstance_stores_instance_only_on_success_witness :
  match createInstance main_config validating_host fresh with
  | (Ok _, w') =>
      fst (CreateInstance validating_host (createInfo main_config validating_host)) =
        vk.Success /\
      instance (app w') =
        snd (CreateInstance validating_host (createInfo main_config validating_host)) /\
      window (app w') = window (app fresh) /\
      debug (app w') = debug (app fresh)
  | (Err _, w') => instance (app w') = vk.NullHandle /\ app w' = app fresh
  | (Panic _, _) => False
  end.
Proof.
  apply (createInstance_stores_instance_only_on_success
           main_config validating_host fresh).
  reflexivity.
Defined.

(** Success: the handle the runtime produced is stored. *)
Example createInstance_success :
  fst (createInstance main_config validating_host fresh) = Ok tt /\
  app (snd (createInstance main_config validating_host fresh)) =
    {| window := 1; instance := 7; debug := vk.NullHandle |}.
Proof. split; reflexivity. Qed.

(** The three ways to fail; each leaves the instance null. *)
Example createInstance_layers_unavailable :
  let rt := host [] ["VK_KHR_surface"] (vk.Success, 7) (enumeration_of []) [] in
  fst (createInstance main_config rt fresh) =
    Err (errors_New "validation layers requested but not available") /\
  app (snd (createInstance main_config rt fresh)) = app fresh.
Proof. split; reflexivity. Qed.

Example createInstance_enumeration_error :
  let rt := {|
    EnumerateInstanceLayerProperties := enumeration_of [standard_validation];
    EnumerateInstanceExtensionProperties := failed_enumeration vk.ErrorLayerNotPresent;
    GetRequiredInstanceExtensions := ["VK_KHR_surface"];
    CreateInstance := fun _ => (vk.Success, 7);
    EnumeratePhysicalDevices := fun _ => enumeration_of [];
    GetPhysicalDeviceProperties := fun _ => fst zero_device;
    GetPhysicalDeviceFeatures := fun _ => snd zero_device |} in
  fst (createInstance main_config rt fresh) =
    Err (errors_Wrap (vk_Error vk.ErrorLayerNotPresent)
           "can't enumerate instance extensions") /\
  app (snd (createInstance main_config rt fresh)) = app fresh.
Proof. split; reflexivity. Qed.

Example createInstance_creation_error :
  let rt := host [standard_validation] ["VK_KHR_surface"]
              (vk.ErrorExtensionNotPresent, 7) (enumeration_of []) [] in
  fst (createInstance main_config rt fresh) =
    Err (errors_Wrap (vk_Error vk.ErrorExtensionNotPresent) "can't create instance") /\
  app (snd (createInstance main_config rt fresh)) = app fresh.
Proof. split; reflexivity. Qed.

(** ** Device selection *)

Lemma by_score_StrictWeakOrder : StrictWeakOrder by_score.
Proof.
  unfold by_score; split; intros *; rewrite ?Z.gtb_ltb, ?Z.ltb_lt, ?Z.ltb_ge; lia.
Qed.

(** In a slice sorted by [by_score] no element outscores the first. *)
Lemma SliceIsSorted_by_score_head (c : deviceScore) (rest : list deviceScore) :
  SliceIsSorted (c :: rest) by_score = true ->
  Forall (fun c' => Score c' <= Score c) rest.
Proof.
  revert c; induction rest as [|b rest IH]; intros c Hs; [constructor|].
  simpl in Hs. apply andb_true_iff in Hs as [Hcb Hs].
  apply negb_true_iff in Hcb. unfold by_score in Hcb.
  rewrite Z.gtb_ltb, Z.ltb_ge in Hcb.
  constructor; [exact Hcb|].
  eapply Forall_impl; [|apply IH, Hs]. simpl; intros; lia.
Qed.

Section Selection.

Context {sorter : SliceSorter}.
Variable rt : Runtime.

(** [pickPhysicalDevice] once both enumeration calls have succeeded. *)
Lemma pickPhysicalDevice_enumerated (w : World) :
  count_status (EnumeratePhysicalDevices rt (instance (app w))) = vk.Success ->
  fill_status (EnumeratePhysicalDevices rt (instance (app w))) = vk.Success ->
  pickPhysicalDevice rt w =
  match enumerated_devices rt (instance (app w)) with
  | [] => (Err (errors_New "no phyical device detected"), w)
  | _ :: _ =>
      match sort_Slice (candidates rt (instance (app w))) by_score with
      | [] => (Panic "index out of range [0] with length 0", w)
      | chosen :: _ =>
          if Device chosen =? vk.NullHandle then
            (Err (errors_New "failed to find suitable GPU"), w)
          else
            (Ok (Device chosen),
             {| app := app w;
                logged := logged w ++
                  [log_Printf "Selecting physical device '%s'"
                     [arg_string (Name chosen)]] |})
      end
  end.
Proof.
  intros Hc Hf. unfold pickPhysicalDevice, candidates, enumerated_devices.
  unfold bind at 1, get_app. rewrite Hc, Hf.
  unfold bind at 1; rewrite check_Success.
  unfold bind at 1; rewrite check_Success.
  destruct (fill _ _) as [|d devices]; [reflexivity|].
  cbn [List.length Nat.eqb].
  destruct (sort_Slice _ _) as [|chosen ranked]; [reflexivity|].
  destruct (Device chosen =? vk.NullHandle); reflexivity.
Qed.

(** Sorting a non-empty slice puts one of its elements first, and none of
    the others outscores it. *)
Lemma sort_Slice_head_top_score (cs : list deviceScore) :
  cs <> [] ->
  exists chosen ranked,
    sort_Slice cs by_score = chosen :: ranked /\
    In chosen cs /\
    forall c, In c cs -> Score c <= Score chosen.
Proof.
  intros Hne.
  pose proof (sort_Slice_Permutation _ cs by_score) as Hp.
  pose proof (sort_Slice_IsSorted _ cs by_score by_score_StrictWeakOrder) as Hs.
  destruct (sort_Slice cs by_score) as [|chosen ranked].
  - apply Permutation_sym, Permutation_nil in Hp. contradiction.
  - exists chosen, ranked. split; [reflexivity|]. split.
    + apply (Permutation_in _ (Permutation_sym Hp)). now left.
    + intros c Hin. apply (Permutation_in _ Hp) in Hin as [<-|Hin]; [lia|].
      apply SliceIsSorted_by_score_head in Hs.
      rewrite Forall_forall in Hs. now apply Hs.
Qed.

End Selection.

(** C5: when both enumeration calls succeed, [pickPhysicalDevice] returns
    the error "no phyical device detected" exactly when the device slice is
    empty; when it is not, the slice is scored and sorted and the outcome is
    decided by the first candidate of the sorted slice. *)
Theorem pickPhysicalDevice_no_device_iff_empty
    (sorter : SliceSorter) (rt : Runtime) (w : World) :
  count_status (EnumeratePhysicalDevices rt (instance (app w))) = vk.Success ->
  fill_status (EnumeratePhysicalDevices rt (instance (app w))) = vk.Success ->
  (fst (pickPhysicalDevice rt w) = Err (errors_New "no phyical device detected") <->
   enumerated_devices rt (instance (app w)) = []) /\
  (enumerated_devices rt (instance (app w)) <> [] ->
   exists chosen ranked,
     sort_Slice (candidates rt (instance (app w))) by_score = chosen :: ranked /\
     fst (pickPhysicalDevice rt w) =
       if Device chosen =? vk.NullHandle
       then Err (errors_New "failed to find suitable GPU")
       else Ok (Device chosen)).
Proof.
  intros Hc Hf. rewrite (pickPhysicalDevice_enumerated rt w Hc Hf).
  unfold candidates.
  destruct (enumerated_devices rt (instance (app w))) as [|d devices] eqn:Hd.
  - split; [split; reflexivity|]. now intros [].
  - destruct (sort_Slice_head_top_score (map (score_device rt) (d :: devices)))
      as (chosen & ranked & Hsort & _); [discriminate|].
    rewrite Hsort. split.
    + split; [|discriminate].
      destruct (Device chosen =? vk.NullHandle); simpl; intros H; discriminate H.
    + intros _. exists chosen, ranked. split; [reflexivity|].
      destruct (Device chosen =? vk.NullHandle); reflexivity.
Qed.

Lemma pickPhysicalDevice_no_device_iff_empty_witness :
  fst (pickPhysicalDevice (sorter := go_sort) no_device_host with_instance) =
  Err (errors_New "no phyical device detected").
Proof.
  apply (pickPhysicalDevice_no_device_iff_empty go_sort no_device_host with_instance);
    reflexivity.
Defined.

(** C4: a single enumerated device whose geometry-shader flag is set scores
    0 and is selected all the same, provided its handle is not null: the
    call returns that device, not the error "failed to find suitable GPU",
    and logs its name. *)
Theorem pickPhysicalDevice_selects_single_geometry_shader_device
    (sorter : SliceSorter) (rt : Runtime) (w : World) (d : vk.PhysicalDevice) :
  count_status (EnumeratePhysicalDevices rt (instance (app w))) = vk.Success ->
  fill_status (EnumeratePhysicalDevices rt (instance (app w))) = vk.Success ->
  count (EnumeratePhysicalDevices rt (instance (app w))) = 1%nat ->
  written (EnumeratePhysicalDevices rt (instance (app w))) = [d] ->
  vk.GeometryShader (GetPhysicalDeviceFeatures rt d) = true ->
  d <> vk.NullHandle ->
  Score (score_device rt d) = 0 /\
  pickPhysicalDevice rt w =
    (Ok d,
     {| app := app w;
        logged := logged w ++
          [log_Printf "Selecting physical device '%s'"
             [arg_string (vk.DeviceName (GetPhysicalDeviceProperties rt d))]] |}).
Proof.
  intros Hc Hf Hn Hw Hg Hd.
  split; [rewrite score_device_Score, Hg; reflexivity|].
  rewrite (pickPhysicalDevice_enumerated rt w Hc Hf).
  unfold candidates, enumerated_devices. rewrite Hn, Hw.
  change (fill (make vk.NullHandle 1) [d]) with [d]. cbn [map].
  pose proof (sort_Slice_Permutation _ [score_device rt d] by_score) as Hp.
  apply Permutation_length_1_inv in Hp.
  rewrite Hp, score_device_Device, score_device_Name.
  now rewrite (proj2 (Z.eqb_neq _ _) Hd).
Qed.

Lemma pickPhysicalDevice_selects_single_geometry_shader_device_witness :
  Score (score_device geometry_shader_host 5) = 0 /\
  pickPhysicalDevice (sorter := go_sort) geometry_shader_host with_instance =
    (Ok 5,
     {| app := app with_instance;
        logged := [log_Printf "Selecting physical device '%s'" [arg_string "GeForce"]] |}).
Proof.
  apply (pickPhysicalDevice_selects_single_geometry_shader_device
           go_sort geometry_shader_host with_instance 5);
    try reflexivity.
  discriminate.
Defined.

(** *** Ties *)

(** A slice of at most 12 elements is sorted by insertion. *)
Lemma Slice_short {A : Type} (x : list A) (less : A -> A -> bool) :
  (List.length x <= 12)%nat -> sort.Slice x less = rev (insert_all less x []).
Proof.
  intros Hl. unfold sort.Slice. cbn [sort.pdqsort_func].
  rewrite Nat.sub_0_r.
  replace (List.length x <=? sort.maxInsertion)%nat with true
    by (symmetry; now apply Nat.leb_le).
  apply insertionSort_func_whole.
Qed.

Lemma hd_error_snoc {A : Type} (l : list A) (b : A) :
  hd_error (l ++ [b]) = match hd_error l with Some h => Some h | None => Some b end.
Proof. now destruct l. Qed.

Lemma first_with_top_score_snoc (p : list deviceScore) (v : deviceScore) :
  first_with_top_score (p ++ [v]) =
  match first_with_top_score p with
  | Some best => if Score v >? Score best then Some v else Some best
  | None => Some v
  end.
Proof.
  induction p as [|c p IH]; [reflexivity|].
  cbn [List.app first_with_top_score]. rewrite IH.
  destruct (first_with_top_score p) as [best|]; [|reflexivity].
  repeat match goal with
  | |- context [?a >? ?b] => destruct (Z.gtb_spec a b)
  end; first [reflexivity|exfalso; lia].
Qed.

(** The element at the front of the part that insertion sort has passed,
    once [v] is inserted: [v] when it outscores the front [f], which no
    element outscores, and [f] otherwise. *)
Lemma move_left_front (v f : deviceScore) (before : list deviceScore) :
  hd_error (rev before) = Some f ->
  (forall c, In c before -> Score c <= Score f) ->
  hd_error (rev (move_left by_score v before)) =
  Some (if Score v >? Score f then v else f).
Proof.
  induction before as [|b before IH]; intros Hf Htop; [discriminate|].
  cbn [move_left]. unfold by_score at 1.
  cbn [rev] in Hf. rewrite hd_error_snoc in Hf.
  destruct (Score v >? Score b) eqn:Evb.
  - cbn [rev]. rewrite hd_error_snoc.
    destruct before as [|c before].
    + simpl in Hf. injection Hf as <-. simpl. now rewrite Evb.
    + destruct (hd_error (rev (c :: before))) as [h|] eqn:Eh.
      * rewrite (IH Hf); [reflexivity|]. intros; apply Htop; now right.
      * destruct (rev (c :: before)) eqn:Er; [|discriminate].
        apply (f_equal (@List.length _)) in Er. rewrite length_rev in Er. discriminate.
  - assert (Hle : Score v <= Score f).
    { specialize (Htop b (or_introl eq_refl)).
      rewrite Z.gtb_ltb, Z.ltb_ge in Evb. lia. }
    replace (Score v >? Score f) with false
      by (symmetry; rewrite Z.gtb_ltb, Z.ltb_ge; lia).
    change (rev (v :: b :: before)) with ((rev before ++ [b]) ++ [v]).
    rewrite hd_error_snoc, hd_error_snoc.
    destruct (hd_error (rev before)); exact Hf.
Qed.

(** Insertion sort by descending score puts first the first of the
    candidates that no other outscores. *)
Lemma insert_all_front (todo before passed : list deviceScore) :
  hd_error (rev before) = first_with_top_score passed ->
  (forall c f, In c before -> hd_error (rev before) = Some f -> Score c <= Score f) ->
  hd_error (rev (insert_all by_score todo before)) =
  first_with_top_score (passed ++ todo).
Proof.
  revert before passed; induction todo as [|v todo IH]; intros before passed Hf Htop.
  - now rewrite app_nil_r.
  - cbn [insert_all fold_left]. fold (insert_all by_score todo (move_left by_score v before)).
    replace (passed ++ v :: todo) with ((passed ++ [v]) ++ todo)
      by (now rewrite <- app_assoc).
    assert (Hfront : hd_error (rev (move_left by_score v before)) =
                     first_with_top_score (passed ++ [v])).
    { rewrite first_with_top_score_snoc, <- Hf.
      destruct (hd_error (rev before)) as [f|] eqn:Eh.
      - rewrite (move_left_front v f before Eh); [|intros c Hc; now apply Htop].
        now destruct (Score v >? Score f).
      - destruct before as [|b before]; [reflexivity|].
        cbn [rev] in Eh. rewrite hd_error_snoc in Eh.
        destruct (hd_error (rev before)); discriminate. }
    apply IH; [exact Hfront|].
    intros c f Hc Hfc.
    apply (Permutation_in _ (Permutation_sym (move_left_Permutation by_score v before)))
      in Hc.
    destruct (hd_error (rev before)) as [f0|] eqn:Eh.
    + rewrite (move_left_front v f0 before Eh) in Hfc; [|intros c' Hc'; now apply Htop].
      injection Hfc as <-.
      destruct (Score v >? Score f0) eqn:E; rewrite Z.gtb_ltb in E;
        [apply Z.ltb_lt in E|apply Z.ltb_ge in E];
        destruct Hc as [<-|Hc]; try lia; specialize (Htop c f0 Hc eq_refl); lia.
    + destruct before as [|b before].
      * simpl in Hfc. injection Hfc as <-. destruct Hc as [<-|[]]. lia.
      * cbn [rev] in Eh. rewrite hd_error_snoc in Eh.
        destruct (hd_error (rev before)); discriminate.
Qed.

Lemma go_sort_short_front (cs : list deviceScore) :
  (List.length cs <= 12)%nat ->
  hd_error (@sort_Slice go_sort _ cs by_score) = first_with_top_score cs.
Proof.
  intros Hl. cbn [sort_Slice go_sort]. rewrite (Slice_short cs by_score Hl).
  apply (insert_all_front cs [] []); [reflexivity|]. intros c f [].
Qed.

(** C1, as stated, fails: of thirteen devices the seventh and the tenth are
    discrete and score 1000, the others score 0. The sort package takes the
    tenth as its pivot and moves it to the front, and the tenth device is
    selected although the seventh has the same score and was enumerated
    before it. *)
Lemma pickPhysicalDevice_tie_not_first_enumerated :
  enumerated_devices thirteen_gpus 1 = [1; 2; 3; 4; 5; 6; 7; 8; 9; 10; 11; 12; 13] /\
  Score (score_device thirteen_gpus 7) = 1000 /\
  Score (score_device thirteen_gpus 10) = 1000 /\
  option_map Device (first_with_top_score (candidates thirteen_gpus 1)) = Some 7 /\
  map Device (sort.Slice (candidates thirteen_gpus 1) by_score) =
    [10; 7; 2; 3; 4; 5; 6; 8; 9; 1; 11; 12; 13] /\
  fst (pickPhysicalDevice (sorter := go_sort) thirteen_gpus with_instance) = Ok 10.
Proof. repeat split; vm_compute; reflexivity. Qed.

(** C1, amended: when both enumeration calls succeed and the device slice is
    not empty, the outcome of [pickPhysicalDevice] is decided by a candidate
    that no other candidate outscores, whatever sort meets the contract of
    [sort.Slice]; the call returns its device, or the error "failed to find
    suitable GPU" when that device is null. With the sort package, and at
    most 12 devices, that candidate is the first enumerated of those with
    the top score. *)
Theorem pickPhysicalDevice_selects_a_top_score
    (sorter : SliceSorter) (rt : Runtime) (w : World) :
  count_status (EnumeratePhysicalDevices rt (instance (app w))) = vk.Success ->
  fill_status (EnumeratePhysicalDevices rt (instance (app w))) = vk.Success ->
  enumerated_devices rt (instance (app w)) <> [] ->
  (exists chosen : deviceScore,
     In chosen (candidates rt (instance (app w))) /\
     (forall c, In c (candidates rt (instance (app w))) -> Score c <= Score chosen) /\
     fst (pickPhysicalDevice rt w) =
       if Device chosen =? vk.NullHandle
       then Err (errors_New "failed to find suitable GPU")
       else Ok (Device chosen)) /\
  ((List.length (enumerated_devices rt (instance (app w))) <= 12)%nat ->
   exists first : deviceScore,
     first_with_top_score (candidates rt (instance (app w))) = Some first /\
     fst (pickPhysicalDevice (sorter := go_sort) rt w) =
       if Device first =? vk.NullHandle
       then Err (errors_New "failed to find suitable GPU")
       else Ok (Device first)).
Proof.
  intros Hc Hf Hne. split.
  - rewrite (pickPhysicalDevice_enumerated rt w Hc Hf).
    destruct (sort_Slice_head_top_score (candidates rt (instance (app w))))
      as (chosen & ranked & Hsort & Hin & Htop).
    { unfold candidates. intros H. now apply map_eq_nil in H. }
    exists chosen. rewrite Hsort.
    destruct (enumerated_devices rt (instance (app w))); [contradiction|].
    repeat split; try assumption.
    destruct (Device chosen =? vk.NullHandle); reflexivity.
  - intros Hl.
    rewrite (pickPhysicalDevice_enumerated (sorter := go_sort) rt w Hc Hf).
    pose proof (go_sort_short_front (candidates rt (instance (app w)))) as Hfront.
    unfold candidates in Hfront at 1. rewrite length_map in Hfront.
    specialize (Hfront Hl).
    destruct (enumerated_devices rt (instance (app w))) as [|d ds] eqn:Ed;
      [contradiction|].
    destruct (sort_Slice (candidates rt (instance (app w))) by_score)
      as [|chosen ranked].
    + unfold candidates in Hfront. rewrite Ed in Hfront. simpl in Hfront.
      destruct (first_with_top_score (map (score_device rt) ds)) as [best|];
        [destruct (Score best >? _)|]; discriminate.
    + simpl in Hfront. exists chosen. split; [now symmetry|].
      destruct (Device chosen =? vk.NullHandle); reflexivity.
Qed.

Lemma pickPhysicalDevice_selects_a_top_score_witness :
  (exists chosen : deviceScore,
     In chosen (candidates seven_gpus 1) /\
     (forall c, In c (candidates seven_gpus 1) -> Score c <= Score chosen) /\
     fst (pickPhysicalDevice (sorter := go_sort) seven_gpus with_instance) =
       if Device chosen =? vk.NullHandle
       then Err (errors_New "failed to find suitable GPU")
       else Ok (Device chosen)) /\
  Score (score_device seven_gpus 2) = Score (score_device seven_gpus 7) /\
  fst (pickPhysicalDevice (sorter := go_sort) seven_gpus with_instance) = Ok 2.
Proof.
  destruct (pickPhysicalDevice_selects_a_top_score go_sort seven_gpus with_instance)
    as [Htop Hfirst]; [reflexivity|reflexivity|discriminate|].
  split; [exact Htop|]. split; [reflexivity|].
  destruct Hfirst as (first & Hf & ->); [simpl; lia|].
  vm_compute in Hf. injection Hf as <-. reflexivity.
Defined.

(** *** Discrete against integrated *)

(** C2: when exactly two devices are enumerated, in either order, a
    discrete GPU that reports the limit 4096 and an integrated GPU that
    reports the limit 8192, neither with the geometry-shader flag, the
    discrete GPU has the higher score and [pickPhysicalDevice] selects it,
    whatever order [sort.Slice] gives to equal scores. *)
Theorem pickPhysicalDevice_discrete_4096_beats_integrated_8192
    (sorter : SliceSorter) (rt : Runtime) (w : World)
    (discrete integrated : vk.PhysicalDevice) :
  let e := EnumeratePhysicalDevices rt (instance (app w)) in
  count_status e = vk.Success ->
  fill_status e = vk.Success ->
  count e = 2%nat ->
  written e = [discrete; integrated] \/ written e = [integrated; discrete] ->
  vk.DeviceType (GetPhysicalDeviceProperties rt discrete) = vk.PhysicalDeviceTypeDiscreteGpu ->
  vk.MaxImageDimension2D (GetPhysicalDeviceProperties rt discrete) = 4096 ->
  vk.GeometryShader (GetPhysicalDeviceFeatures rt discrete) = false ->
  vk.DeviceType (GetPhysicalDeviceProperties rt integrated) = vk.PhysicalDeviceTypeIntegratedGpu ->
  vk.MaxImageDimension2D (GetPhysicalDeviceProperties rt integrated) = 8192 ->
  vk.GeometryShader (GetPhysicalDeviceFeatures rt integrated) = false ->
  discrete <> vk.NullHandle ->
  Score (score_device rt integrated) < Score (score_device rt discrete) /\
  fst (pickPhysicalDevice rt w) = Ok discrete.
Proof.
  intros e Hc Hf Hn Hw Hdt _ Hdg Hit _ Hig Hnull. subst e.
  assert (Hsd : Score (score_device rt discrete) = 1000)
    by (now rewrite score_device_Score, Hdt, Hdg).
  assert (Hsi : Score (score_device rt integrated) = 0)
    by (now rewrite score_device_Score, Hit, Hig).
  split; [lia|].
  rewrite (pickPhysicalDevice_enumerated rt w Hc Hf).
  set (cd := score_device rt discrete) in *.
  set (ci := score_device rt integrated) in *.
  assert (Hhead : forall cs, cs = [cd; ci] \/ cs = [ci; cd] ->
                  exists ranked, sort_Slice cs by_score = cd :: ranked).
  { intros cs Hcs.
    pose proof (sort_Slice_Permutation _ cs by_score) as Hp.
    pose proof (sort_Slice_IsSorted _ cs by_score by_score_StrictWeakOrder) as Hs.
    assert (Hp' : Permutation [cd; ci] (sort_Slice cs by_score)).
    { destruct Hcs as [->| ->]; [exact Hp|].
      etransitivity; [apply perm_swap|exact Hp]. }
    apply Permutation_length_2_inv in Hp' as [E|E]; rewrite E in *; [eauto|].
    simpl in Hs. unfold by_score in Hs. rewrite Hsd, Hsi in Hs. discriminate. }
  unfold candidates, enumerated_devices. rewrite Hn.
  destruct Hw as [Hw|Hw]; rewrite Hw.
  - change (fill (make vk.NullHandle 2) [discrete; integrated])
      with [discrete; integrated].
    cbn [map]; fold cd ci.
    destruct (Hhead [cd; ci] (or_introl eq_refl)) as [ranked ->].
    unfold cd at 1; rewrite score_device_Device.
    now rewrite (proj2 (Z.eqb_neq _ _) Hnull).
  - change (fill (make vk.NullHandle 2) [integrated; discrete])
      with [integrated; discrete].
    cbn [map]; fold cd ci.
    destruct (Hhead [ci; cd] (or_intror eq_refl)) as [ranked ->].
    unfold cd at 1; rewrite score_device_Device.
    now rewrite (proj2 (Z.eqb_neq _ _) Hnull).
Qed.

Lemma pickPhysicalDevice_discrete_4096_beats_integrated_8192_witness :
  Score (score_device scenario_1 2) < Score (score_device scenario_1 1) /\
  fst (pickPhysicalDevice (sorter := go_sort) scenario_1 with_instance) = Ok 1.
Proof.
  apply (pickPhysicalDevice_discrete_4096_beats_integrated_8192
           go_sort scenario_1 with_instance 1 2);
    try reflexivity.
  - left; reflexivity.
  - discriminate.
Defined.

(** * Further properties of the program *)

(** ** Scores *)

(** X2: of two devices without the geometry-shader flag that report the
    same dimension limit, at most 2^32 - 1001, a discrete GPU scores exactly
    1000 more than a device of any other type. *)
Theorem discrete_gpu_scores_1000_more (rt : Runtime) (d d' : vk.PhysicalDevice) :
  vk.DeviceType (GetPhysicalDeviceProperties rt d) = vk.PhysicalDeviceTypeDiscreteGpu ->
  vk.DeviceType (GetPhysicalDeviceProperties rt d') <> vk.PhysicalDeviceTypeDiscreteGpu ->
  vk.MaxImageDimension2D (GetPhysicalDeviceProperties rt d) =
    vk.MaxImageDimension2D (GetPhysicalDeviceProperties rt d') ->
  0 <= vk.MaxImageDimension2D (GetPhysicalDeviceProperties rt d) <= 2 ^ 32 - 1001 ->
  vk.GeometryShader (GetPhysicalDeviceFeatures rt d) = false ->
  vk.GeometryShader (GetPhysicalDeviceFeatures rt d') = false ->
  Score (score_device rt d) = Score (score_device rt d') + 1000.
Proof.
  intros Hd Hd' _ _ Hg Hg'.
  rewrite !score_device_Score, Hg, Hg', Hd.
  assert (Hb : discrete_bonus (vk.DeviceType (GetPhysicalDeviceProperties rt d')) = 0)
    by (destruct (vk.DeviceType (GetPhysicalDeviceProperties rt d'));
        try reflexivity; contradiction).
  rewrite Hb. reflexivity.
Qed.

Lemma discrete_gpu_scores_1000_more_witness :
  Score (score_device same_limit_host 1) = Score (score_device same_limit_host 2) + 1000.
Proof.
  apply discrete_gpu_scores_1000_more; try reflexivity.
  - discriminate.
  - simpl; lia.
Defined.

(** ** Device selection, every outcome *)

Lemma first_status_Success {A : Type} (e : Enumeration A) :
  first_status e = vk.Success <->
  count_status e = vk.Success /\ fill_status e = vk.Success.
Proof.
  unfold first_status. destruct (count_status e =? vk.Success) eqn:E.
  - apply Z.eqb_eq in E. intuition congruence.
  - apply Z.eqb_neq in E. intuition congruence.
Qed.

Lemma pickPhysicalDevice_failed_enumeration
    (sorter : SliceSorter) (rt : Runtime) (w : World) :
  first_status (EnumeratePhysicalDevices rt (instance (app w))) <> vk.Success ->
  pickPhysicalDevice rt w =
  (Err (errors_Wrap
          (vk_Error (first_status (EnumeratePhysicalDevices rt (instance (app w)))))
          "can't get physical device count"), w).
Proof.
  intros Hne. unfold pickPhysicalDevice, first_status in *.
  unfold bind at 1, get_app.
  destruct (count_status _ =? vk.Success) eqn:E.
  - apply Z.eqb_eq in E. rewrite E.
    unfold bind at 1; rewrite check_Success.
    now rewrite (bind_Err _ _ _ _ _ (check_not_Success _ _ w Hne)).
  - now rewrite (bind_Err _ _ _ _ _ (check_not_Success _ _ w Hne)).
Qed.

(** The five ways [pickPhysicalDevice] can end. *)
Lemma pickPhysicalDevice_cases (sorter : SliceSorter) (rt : Runtime) (w : World) :
  let e := EnumeratePhysicalDevices rt (instance (app w)) in
  let cs := candidates rt (instance (app w)) in
  first_status e <> vk.Success /\
    pickPhysicalDevice rt w =
      (Err (errors_Wrap (vk_Error (first_status e)) "can't get physical device count"), w)
  \/
  first_status e = vk.Success /\
  (enumerated_devices rt (instance (app w)) = [] /\
     pickPhysicalDevice rt w = (Err (errors_New "no phyical device detected"), w)
   \/
   exists chosen : deviceScore,
     In chosen cs /\ (forall c, In c cs -> Score c <= Score chosen) /\
     (Device chosen = vk.NullHandle /\
        pickPhysicalDevice rt w = (Err (errors_New "failed to find suitable GPU"), w)
      \/
      Device chosen <> vk.NullHandle /\
        pickPhysicalDevice rt w =
          (Ok (Device chosen),
           {| app := app w;
              logged := logged w ++
                [log_Printf "Selecting physical device '%s'"
                   [arg_string (Name chosen)]] |}))).
Proof.
  intros e cs.
  destruct (Z.eq_dec (first_status e) vk.Success) as [Hs|Hs];
    [right; split; [exact Hs|]|left; split; [exact Hs|]].
  2: now apply pickPhysicalDevice_failed_enumeration.
  apply first_status_Success in Hs as [Hc Hf].
  rewrite (pickPhysicalDevice_enumerated rt w Hc Hf).
  destruct (enumerated_devices rt (instance (app w))) as [|d devices] eqn:Hd;
    [left; split; reflexivity|right].
  destruct (sort_Slice_head_top_score cs) as (chosen & ranked & Hsort & Hin & Htop).
  { unfold cs, candidates. rewrite Hd. discriminate. }
  exists chosen. fold cs. rewrite Hsort. repeat split; try assumption.
  destruct (Z.eq_dec (Device chosen) vk.NullHandle) as [E|E].
  - left. split; [exact E|]. now rewrite (proj2 (Z.eqb_eq _ _) E).
  - right. split; [exact E|]. now rewrite (proj2 (Z.eqb_neq _ _) E).
Qed.

(** X3: for every sorter that meets the contract of [sort.Slice] and every
    runtime, [pickPhysicalDevice] does not panic ([candidates[0]] is always
    in range) and does not write the application; it adds at most one line
    to the log. *)
Theorem pickPhysicalDevice_never_panics_or_writes
    (sorter : SliceSorter) (rt : Runtime) (w : World) :
  (forall s, fst (pickPhysicalDevice rt w) <> Panic s) /\
  app (snd (pickPhysicalDevice rt w)) = app w /\
  exists lines, logged (snd (pickPhysicalDevice rt w)) = logged w ++ lines /\
                (List.length lines <= 1)%nat.
Proof.
  destruct (pickPhysicalDevice_cases sorter rt w)
    as [[_ ->]|[_ [[_ ->]|(chosen & _ & _ & [[_ ->]|[_ ->]])]]]; simpl;
    (split; [discriminate|]); (split; [reflexivity|]);
    try (exists []; rewrite app_nil_r; split; [reflexivity|simpl; lia]).
  eexists. split; [reflexivity|simpl; lia].
Qed.

(** X4: when an enumeration call fails, [pickPhysicalDevice] returns the
    status of the first failing call wrapped with "can't get physical device
    count" (the same message for both calls), and logs nothing. *)
Theorem pickPhysicalDevice_reports_first_failed_status
    (sorter : SliceSorter) (rt : Runtime) (w : World) :
  let e := EnumeratePhysicalDevices rt (instance (app w)) in
  count_status e <> vk.Success \/ fill_status e <> vk.Success ->
  first_status e <> vk.Success /\
  pickPhysicalDevice rt w =
    (Err (errors_Wrap (vk_Error (first_status e)) "can't get physical device count"), w).
Proof.
  intros e Hfail.
  assert (Hne : first_status e <> vk.Success)
    by (rewrite first_status_Success; intuition).
  split; [exact Hne|]. now apply pickPhysicalDevice_failed_enumeration.
Qed.

Lemma pickPhysicalDevice_reports_first_failed_status_witness :
  pickPhysicalDevice (sorter := go_sort)
    (failing_host vk.ErrorInitializationFailed) with_instance =
  (Err (errors_Wrap (vk_Error vk.ErrorInitializationFailed)
          "can't get physical device count"), with_instance).
Proof.
  apply (pickPhysicalDevice_reports_first_failed_status go_sort
           (failing_host vk.ErrorInitializationFailed) with_instance).
  left. discriminate.
Defined.

(** X5: a device that [pickPhysicalDevice] returns is not null and is one
    of the enumerated devices, no enumerated device outscores it, both
    enumeration calls had succeeded, and exactly its name was logged. *)
Theorem pickPhysicalDevice_returns_enumerated_non_null_device
    (sorter : SliceSorter) (rt : Runtime) (w w' : World) (d : vk.PhysicalDevice) :
  pickPhysicalDevice rt w = (Ok d, w') ->
  d <> vk.NullHandle /\
  In d (enumerated_devices rt (instance (app w))) /\
  (forall d', In d' (enumerated_devices rt (instance (app w))) ->
              Score (score_device rt d') <= Score (score_device rt d)) /\
  first_status (EnumeratePhysicalDevices rt (instance (app w))) = vk.Success /\
  w' = {| app := app w;
          logged := logged w ++
            [log_Printf "Selecting physical device '%s'"
               [arg_string (vk.DeviceName (GetPhysicalDeviceProperties rt d))]] |}.
Proof.
  intros Hpick.
  destruct (pickPhysicalDevice_cases sorter rt w)
    as [[_ E]|[Hs [[_ E]|(chosen & Hin & Htop & [[_ E]|[Hnn E]])]]];
    rewrite E in Hpick; try discriminate.
  injection Hpick as <- <-.
  unfold candidates in *. apply in_map_iff in Hin as (x & <- & Hx).
  repeat split; try assumption.
  intros d' Hd'. apply Htop, in_map, Hd'.
Qed.

Lemma pickPhysicalDevice_returns_enumerated_non_null_device_witness :
  1 <> vk.NullHandle /\
  In 1 (enumerated_devices scenario_1 (instance (app with_instance))) /\
  (forall d', In d' (enumerated_devices scenario_1 (instance (app with_instance))) ->
              Score (score_device scenario_1 d') <= Score (score_device scenario_1 1)) /\
  first_status (EnumeratePhysicalDevices scenario_1 (instance (app with_instance))) =
    vk.Success /\
  snd (pickPhysicalDevice (sorter := go_sort) scenario_1 with_instance) =
    {| app := app with_instance;
       logged := logged with_instance ++
         [log_Printf "Selecting physical device '%s'"
            [arg_string (vk.DeviceName (GetPhysicalDeviceProperties scenario_1 1))]] |}.
Proof.
  apply (pickPhysicalDevice_returns_enumerated_non_null_device
           go_sort scenario_1 with_instance).
  reflexivity.
Defined.

(** X6: when both enumeration calls succeed and one enumerated device, not
    null, scores strictly more than every other enumerated device, that
    device is returned, wherever it stands in the enumeration and whatever
    sorter is used. *)
Theorem pickPhysicalDevice_returns_the_single_top_score
    (sorter : SliceSorter) (rt : Runtime) (w : World)
    (before after : list vk.PhysicalDevice) (d : vk.PhysicalDevice) :
  first_status (EnumeratePhysicalDevices rt (instance (app w))) = vk.Success ->
  enumerated_devices rt (instance (app w)) = before ++ d :: after ->
  (forall d', In d' (before ++ after) ->
              Score (score_device rt d') < Score (score_device rt d)) ->
  d <> vk.NullHandle ->
  fst (pickPhysicalDevice rt w) = Ok d.
Proof.
  intros Hs Hd Hlt Hnn.
  assert (Hsame : forall chosen,
            In chosen (candidates rt (instance (app w))) ->
            (forall c, In c (candidates rt (instance (app w))) -> Score c <= Score chosen) ->
            Device chosen = d).
  { intros chosen Hin Htop. unfold candidates in *. rewrite Hd in *.
    assert (Hind : In d (before ++ d :: after))
      by (apply in_or_app; right; left; reflexivity).
    specialize (Htop (score_device rt d) (in_map _ _ _ Hind)).
    apply in_map_iff in Hin as (x & <- & Hx). simpl.
    apply in_app_or in Hx as [Hx|[Hx|Hx]]; [|now symmetry|].
    - specialize (Hlt x (in_or_app _ _ _ (or_introl Hx))). lia.
    - specialize (Hlt x (in_or_app _ _ _ (or_intror Hx))). lia. }
  destruct (pickPhysicalDevice_cases sorter rt w)
    as [[Hne _]|[_ [[He _]|(chosen & Hin & Htop & [[Hz E]|[_ E]])]]].
  - contradiction.
  - rewrite Hd in He. now destruct before.
  - rewrite (Hsame chosen Hin Htop) in Hz. contradiction.
  - rewrite E. simpl. now rewrite (Hsame chosen Hin Htop).
Qed.

Lemma pickPhysicalDevice_returns_the_single_top_score_witness :
  fst (pickPhysicalDevice (sorter := go_sort) scenario_1 with_instance) = Ok 1.
Proof.
  apply (pickPhysicalDevice_returns_the_single_top_score go_sort
           scenario_1 with_instance [] [2] 1); try reflexivity.
  - intros d' [<-|[]]. vm_compute. reflexivity.
  - discriminate.
Defined.

(** ** Validation layers, every outcome *)

Lemma World_eta (w : World) : {| app := app w; logged := logged w |} = w.
Proof. now destruct w. Qed.

Lemma emit_run (c : log_call) (w : World) :
  emit c w = (Ok tt, {| app := app w; logged := logged w ++ [c] |}).
Proof. reflexivity. Qed.

Lemma layer_names_run (layers : list vk.LayerProperties) (w : World) :
  layer_names layers w =
  (Ok (map vk.LayerName layers),
   {| app := app w; logged := logged w ++ map layer_line layers |}).
Proof.
  revert w; induction layers as [|layer layers IH]; intros w; simpl.
  - now rewrite app_nil_r, World_eta.
  - unfold bind at 1, Printf. rewrite emit_run.
    unfold bind at 1. rewrite IH. simpl. unfold ret, layer_line.
    now rewrite <- app_assoc.
Qed.

Lemma find_layer_run (vln : string) (names : list string) (w : World) :
  find_layer vln names w =
  (Ok (existsb (String.eqb vln) names),
   {| app := app w;
      logged := logged w ++
        (if existsb (String.eqb vln) names then [supported_line vln] else []) |}).
Proof.
  induction names as [|aln names IH]; simpl.
  - now rewrite app_nil_r, World_eta.
  - destruct (vln =? aln)%string eqn:E; [|exact IH].
    apply String.eqb_eq in E. subst aln. reflexivity.
Qed.

Lemma all_layers_found_run (requested names : list string) (w : World) :
  all_layers_found requested names w =
  (Ok (all_supported names requested),
   {| app := app w;
      logged := logged w ++ map supported_line (supported_prefix names requested) |}).
Proof.
  revert w; induction requested as [|vln requested IH]; intros w; simpl.
  - now rewrite app_nil_r, World_eta.
  - unfold bind at 1. rewrite find_layer_run.
    destruct (existsb (String.eqb vln) names); simpl.
    + rewrite IH. simpl. now rewrite <- app_assoc.
    + now rewrite app_nil_r.
Qed.

Lemma checkValidationLayerSupport_run (cfg : Config) (rt : Runtime) (w : World) :
  first_status (EnumerateInstanceLayerProperties rt) = vk.Success ->
  checkValidationLayerSupport cfg rt w =
  (Ok (all_supported (available_layer_names rt) (validationLayerNames cfg)),
   {| app := app w;
      logged := logged w ++
        log_Print "Available validation layers"
        :: map layer_line (available_layers rt)
        ++ map supported_line
             (supported_prefix (available_layer_names rt) (validationLayerNames cfg))
        ++ (if all_supported (available_layer_names rt) (validationLayerNames cfg)
            then [log_Print "All validation layers are supported"] else []) |}).
Proof.
  intros Hs. apply first_status_Success in Hs as [Hc Hf].
  unfold checkValidationLayerSupport. rewrite Hc, Hf.
  unfold bind at 1; rewrite check_Success.
  unfold bind at 1; rewrite check_Success.
  unfold bind at 1, Print; rewrite emit_run.
  unfold bind at 1; rewrite layer_names_run.
  unfold bind at 1; rewrite all_layers_found_run.
  fold (available_layers rt). fold (available_layer_names rt).
  destruct (all_supported _ _); simpl.
  - unfold bind, ret; simpl. now rewrite <- !app_assoc.
  - unfold ret. now rewrite <- !app_assoc, app_nil_r.
Qed.

Lemma checkValidationLayerSupport_failed_enumeration
    (cfg : Config) (rt : Runtime) (w : World) :
  first_status (EnumerateInstanceLayerProperties rt) <> vk.Success ->
  checkValidationLayerSupport cfg rt w =
  (Err (errors_Wrap (vk_Error (first_status (EnumerateInstanceLayerProperties rt)))
          (if count_status (EnumerateInstanceLayerProperties rt) =? vk.Success
           then "can't get layers" else "can't get layer count")), w).
Proof.
  intros Hne. unfold checkValidationLayerSupport, first_status in *.
  destruct (count_status _ =? vk.Success) eqn:E.
  - apply Z.eqb_eq in E. rewrite E.
    unfold bind at 1; rewrite check_Success.
    now rewrite (bind_Err _ _ _ _ _ (check_not_Success _ _ w Hne)).
  - now rewrite (bind_Err _ _ _ _ _ (check_not_Success _ _ w Hne)).
Qed.

(** X7: when a layer enumeration call fails, [checkValidationLayerSupport]
    returns the status of the first failing call wrapped with "can't get
    layer count" (count call) or "can't get layers" (fill call), and logs
    nothing. *)
Theorem checkValidationLayerSupport_reports_failed_enumeration
    (cfg : Config) (rt : Runtime) (w : World) :
  let e := EnumerateInstanceLayerProperties rt in
  count_status e <> vk.Success \/ fill_status e <> vk.Success ->
  checkValidationLayerSupport cfg rt w =
    (Err (errors_Wrap (vk_Error (first_status e))
            (if count_status e =? vk.Success
             then "can't get layers" else "can't get layer count")), w).
Proof.
  intros e Hfail. apply checkValidationLayerSupport_failed_enumeration.
  fold e. rewrite first_status_Success. intuition.
Qed.

Lemma checkValidationLayerSupport_reports_failed_enumeration_witness :
  checkValidationLayerSupport main_config (failing_host vk.ErrorLayerNotPresent) fresh =
  (Err (errors_Wrap (vk_Error vk.ErrorLayerNotPresent) "can't get layer count"), fresh).
Proof.
  apply (checkValidationLayerSupport_reports_failed_enumeration
           main_config (failing_host vk.ErrorLayerNotPresent) fresh).
  left. discriminate.
Defined.

(** X8: when the layer enumeration succeeds, [checkValidationLayerSupport]
    logs, in this order, a header, one line for each available layer, one
    line for each requested name up to the first that is not available, and
    a closing line only when all are available; it returns whether all are
    available and does not write the application. *)
Theorem checkValidationLayerSupport_log
    (cfg : Config) (rt : Runtime) (w : World) :
  count_status (EnumerateInstanceLayerProperties rt) = vk.Success ->
  fill_status (EnumerateInstanceLayerProperties rt) = vk.Success ->
  checkValidationLayerSupport cfg rt w =
  (Ok (all_supported (available_layer_names rt) (validationLayerNames cfg)),
   {| app := app w;
      logged := logged w ++
        log_Print "Available validation layers"
        :: map layer_line (available_layers rt)
        ++ map supported_line
             (supported_prefix (available_layer_names rt) (validationLayerNames cfg))
        ++ (if all_supported (available_layer_names rt) (validationLayerNames cfg)
            then [log_Print "All validation layers are supported"] else []) |}).
Proof.
  intros Hc Hf. apply checkValidationLayerSupport_run.
  now apply first_status_Success.
Qed.

Lemma checkValidationLayerSupport_log_witness :
  checkValidationLayerSupport
    {| enableValidationLayers := true;
       validationLayerNames :=
         ["VK_LAYER_LUNARG_standard_validation"; "VK_LAYER_KHRONOS_validation";
          "VK_LAYER_LUNARG_standard_validation"] |}
    validating_host fresh =
  (Ok false,
   {| app := app fresh;
      logged :=
        [log_Print "Available validation layers";
         layer_line standard_validation;
         supported_line "VK_LAYER_LUNARG_standard_validation"] |}).
Proof.
  apply (checkValidationLayerSupport_log
           {| enableValidationLayers := true;
              validationLayerNames :=
                ["VK_LAYER_LUNARG_standard_validation"; "VK_LAYER_KHRONOS_validation";
                 "VK_LAYER_LUNARG_standard_validation"] |}
           validating_host fresh); reflexivity.
Defined.

(** ** Instance creation, every outcome *)

Lemma log_extensions_run (exts : list vk.ExtensionProperties) (w : World) :
  log_extensions exts w =
  (Ok tt,
   {| app := app w;
      logged := logged w ++
        map (fun ex => log_Printf (" > " ++ vk.ExtensionName ex)%string []) exts |}).
Proof.
  revert w; induction exts as [|ex exts IH]; intros w; simpl.
  - now rewrite app_nil_r, World_eta.
  - unfold bind at 1, Printf. rewrite emit_run, IH. simpl.
    now rewrite <- app_assoc.
Qed.

(** The validation gate at the head of [createInstance]. *)
Lemma validation_gate_cases (cfg : Config) (rt : Runtime) (w : World) :
  let gate :=
    if enableValidationLayers cfg then
      supported <- wrapped (checkValidationLayerSupport cfg rt)
                     "can't check validation layers";;
      if supported then ret tt
      else fail (errors_New "validation layers requested but not available")
    else ret tt in
  let layers := EnumerateInstanceLayerProperties rt in
  exists lines,
    gate w =
    (if enableValidationLayers cfg && negb (count_status layers =? vk.Success) then
       Err (errors_Wrap
              (errors_Wrap (vk_Error (count_status layers)) "can't get layer count")
              "can't check validation layers")
     else if enableValidationLayers cfg && negb (fill_status layers =? vk.Success) then
       Err (errors_Wrap
              (errors_Wrap (vk_Error (fill_status layers)) "can't get layers")
              "can't check validation layers")
     else if enableValidationLayers cfg
             && negb (all_supported (available_layer_names rt) (validationLayerNames cfg))
     then Err (errors_New "validation layers requested but not available")
     else Ok tt,
     {| app := app w; logged := logged w ++ lines |}).
Proof.
  intros gate layers. subst gate.
  destruct (enableValidationLayers cfg); simpl;
    [|exists []; now rewrite app_nil_r, World_eta].
  destruct (Z.eq_dec (first_status layers) vk.Success) as [Hs|Hs].
  - pose proof (checkValidationLayerSupport_run cfg rt w Hs) as Hrun.
    apply first_status_Success in Hs as [Hc Hf]. fold layers in Hc, Hf.
    rewrite Hc, Hf. simpl.
    unfold bind, wrapped. rewrite Hrun.
    destruct (all_supported _ _); simpl; eexists; reflexivity.
  - pose proof (checkValidationLayerSupport_failed_enumeration cfg rt w Hs) as Hrun.
    unfold bind, wrapped. rewrite Hrun. exists []. rewrite app_nil_r, World_eta.
    unfold first_status in *. fold layers in Hs |- *.
    destruct (count_status layers =? vk.Success) eqn:E; simpl.
    + now rewrite (proj2 (Z.eqb_neq _ _) Hs).
    + reflexivity.
Qed.

(** What follows the gate in [createInstance]. *)
Lemma createInstance_after_gate (cfg : Config) (rt : Runtime) (w : World) :
  let extensions := EnumerateInstanceExtensionProperties rt in
  let created := CreateInstance rt (createInfo cfg rt) in
  let tail :=
    check (count_status extensions) "can't enumerate instance extensions";;
    check (fill_status extensions) "can't enumerate instance extensions";;
    Printf "Available extensions" [];;
    log_extensions
      (fill (make zero_ExtensionProperties (count extensions)) (written extensions));;
    Printf "Attempting to create instance with %s extensions enabled"
      [arg_string (strings_Join (requiredExtensions cfg rt) ",")];;
    let '(result, instance) := created in
    check result "can't create instance";;
    set_instance instance in
  exists lines,
    tail w =
    if negb (count_status extensions =? vk.Success) then
      (Err (errors_Wrap (vk_Error (count_status extensions))
              "can't enumerate instance extensions"),
       {| app := app w; logged := logged w ++ lines |})
    else if negb (fill_status extensions =? vk.Success) then
      (Err (errors_Wrap (vk_Error (fill_status extensions))
              "can't enumerate instance extensions"),
       {| app := app w; logged := logged w ++ lines |})
    else if negb (fst created =? vk.Success) then
      (Err (errors_Wrap (vk_Error (fst created)) "can't create instance"),
       {| app := app w; logged := logged w ++ lines |})
    else
      (Ok tt,
       {| app := {| window := window (app w); instance := snd created;
                    debug := debug (app w) |};
          logged := logged w ++ lines |}).
Proof.
  intros extensions created tail. subst tail.
  destruct (check_cases (count_status extensions)
              "can't enumerate instance extensions" w) as [[Hc E]|[Hc E]].
  2: { exists []. rewrite (bind_Err _ _ _ _ _ E).
       now rewrite (proj2 (Z.eqb_neq _ _) Hc), app_nil_r, World_eta. }
  rewrite (bind_Ok _ _ _ _ _ E), Hc. simpl negb at 1. cbv iota.
  destruct (check_cases (fill_status extensions)
              "can't enumerate instance extensions" w) as [[Hf E']|[Hf E']].
  2: { exists []. rewrite (bind_Err _ _ _ _ _ E').
       now rewrite (proj2 (Z.eqb_neq _ _) Hf), app_nil_r, World_eta. }
  rewrite (bind_Ok _ _ _ _ _ E'), Hf. simpl negb at 1. cbv iota.
  unfold bind at 1, Printf at 1. rewrite emit_run.
  unfold bind at 1. rewrite log_extensions_run.
  unfold bind at 1, Printf at 1. rewrite emit_run.
  destruct created as [result handle]. simpl fst; simpl snd.
  eexists.
  match goal with |- bind _ _ ?w1 = _ =>
    destruct (check_cases result "can't create instance" w1) as [[Hr E'']|[Hr E'']]
  end.
  - rewrite (bind_Ok _ _ _ _ _ E''), Hr. simpl.
    unfold set_instance. simpl. rewrite <- !app_assoc. reflexivity.
  - rewrite (bind_Err _ _ _ _ _ E''), (proj2 (Z.eqb_neq _ _) Hr). simpl.
    rewrite <- !app_assoc. reflexivity.
Qed.

(** [createInstance], every way it can end. *)
Lemma createInstance_run (cfg : Config) (rt : Runtime) (w : World) :
  exists lines,
    createInstance cfg rt w =
    match createInstance_failure cfg rt with
    | Some e => (Err e, {| app := app w; logged := logged w ++ lines |})
    | None =>
        (Ok tt,
         {| app := {| window := window (app w);
                      instance := snd (CreateInstance rt (createInfo cfg rt));
                      debug := debug (app w) |};
            logged := logged w ++ lines |})
    end.
Proof.
  unfold createInstance, createInstance_failure.
  destruct (validation_gate_cases cfg rt w) as (l1 & Hgate). cbv zeta in Hgate.
  unfold bind at 1. rewrite Hgate. clear Hgate.
  destruct (enableValidationLayers cfg && negb (count_status _ =? vk.Success));
    [now exists l1|].
  destruct (enableValidationLayers cfg && negb (fill_status _ =? vk.Success));
    [now exists l1|].
  destruct (enableValidationLayers cfg && negb (all_supported _ _));
    [now exists l1|].
  destruct (createInstance_after_gate cfg rt
              {| app := app w; logged := logged w ++ l1 |}) as (l2 & Htail).
  cbv zeta in Htail. rewrite Htail. clear Htail. simpl app. simpl logged.
  exists (l1 ++ l2). rewrite <- !app_assoc.
  destruct (negb (count_status _ =? vk.Success)); [reflexivity|].
  destruct (negb (fill_status _ =? vk.Success)); [reflexivity|].
  destruct (negb (fst (CreateInstance rt (createInfo cfg rt)) =? vk.Success));
    reflexivity.
Qed.

(** X9: whether [createInstance] succeeds, and with which error it fails,
    is decided by the configuration and the runtime alone, in this order:
    with validation layers enabled, a failed layer count call, a failed
    layer fill call, a requested layer that is not available; then a failed
    extension count call, a failed extension fill call, and last a
    [vk.CreateInstance] that does not report success. Without any of these
    it returns no error. *)
Theorem createInstance_fails_with_first_failure
    (cfg : Config) (rt : Runtime) (w : World) :
  fst (createInstance cfg rt w) =
  match createInstance_failure cfg rt with
  | Some e => Err e
  | None => Ok tt
  end.
Proof.
  destruct (createInstance_run cfg rt w) as (lines & ->).
  now destruct (createInstance_failure cfg rt).
Qed.

(** ** The controller *)

Lemma quiet_pickPhysicalDevice (sorter : SliceSorter) (rt : Runtime) :
  quiet (pickPhysicalDevice rt).
Proof.
  intros w.
  destruct (pickPhysicalDevice_cases sorter rt w)
    as [[_ ->]|[_ [[_ ->]|(chosen & _ & _ & [[_ ->]|[_ ->]])]]]; simpl;
    split; try reflexivity; discriminate.
Qed.

Lemma lift_run {A : Type} (m : M A) (p : Process) :
  lift m p =
  Some (fst (m (world p)),
        {| world := snd (m (world p)); calls := calls p; polls := polls p |}).
Proof. unfold lift. now destruct (m (world p)). Qed.

Lemma setupDebugCallback_run (cfg : Config) (pf : Platform) (w : World) :
  setupDebugCallback cfg pf w =
  if enableValidationLayers cfg then
    let created := vk_CreateDebugReportCallback pf (instance (app w)) debugCreateInfo in
    if fst created =? vk.Success then
      (Ok tt,
       {| app := {| window := window (app w); instance := instance (app w);
                    debug := snd created |};
          logged := logged w |})
    else (Err (errors_Wrap (vk_Error (fst created)) "can't create debug report"), w)
  else (Ok tt, w).
Proof.
  unfold setupDebugCallback. destruct (enableValidationLayers cfg); [|reflexivity].
  simpl. unfold bind at 1, get_app.
  destruct (vk_CreateDebugReportCallback pf (instance (app w)) debugCreateInfo)
    as [result callback]. simpl.
  destruct (check_cases result "can't create debug report" w) as [[-> E]|[Hne E]].
  - now rewrite (bind_Ok _ _ _ _ _ E).
  - now rewrite (bind_Err _ _ _ _ _ E), (proj2 (Z.eqb_neq _ _) Hne).
Qed.

Lemma cleanup_run (cfg : Config) (p : Process) :
  cleanup cfg p =
  Some (Ok tt,
        {| world := world p;
           calls := calls p ++ teardown cfg (app (world p));
           polls := polls p |}).
Proof.
  destruct p as [[[wi i d] l] c n].
  unfold cleanup, teardown, vk_NullDebugReportCallback, vk.NullHandle,
    bindP, lift, get_app, call, retP.
  destruct (enableValidationLayers cfg); simpl;
    repeat match goal with
           | |- context [?x =? 0] => destruct (x =? 0); simpl
           end;
    rewrite <- ?app_assoc; reflexivity.
Qed.

(** *** Rules for [triple] *)

Lemma triple_bind {A B : Type} (Pre : Process -> Prop) (m : P A) (k : A -> P B)
    (Mid : outcome A -> Process -> Prop) (Post : outcome B -> Process -> Prop) :
  triple Pre m Mid ->
  (forall a, triple (Mid (Ok a)) (k a) Post) ->
  (forall e p, Mid (Err e) p -> Post (Err e) p) ->
  (forall s p, Mid (Panic s) p -> Post (Panic s) p) ->
  triple Pre (bindP m k) Post.
Proof.
  intros Hm Hk He Hs p r p' Hpre Hrun. unfold bindP in Hrun.
  destruct (m p) as [[[a|e|s] p1]|] eqn:E; try discriminate;
    specialize (Hm p _ p1 Hpre E).
  - exact (Hk a p1 r p' Hm Hrun).
  - injection Hrun as <- <-. now apply He.
  - injection Hrun as <- <-. now apply Hs.
Qed.

Lemma triple_wrapped {A : Type} (Pre : Process -> Prop) (m : P A) (message : string)
    (Mid Post : outcome A -> Process -> Prop) :
  triple Pre m Mid ->
  (forall a p, Mid (Ok a) p -> Post (Ok a) p) ->
  (forall e p, Mid (Err e) p -> Post (Err (errors_Wrap e message)) p) ->
  (forall s p, Mid (Panic s) p -> Post (Panic s) p) ->
  triple Pre (wrappedP m message) Post.
Proof.
  intros Hm Ha He Hs p r p' Hpre Hrun. unfold wrappedP in Hrun.
  destruct (m p) as [[[a|e|s] p1]|] eqn:E; try discriminate;
    specialize (Hm p _ p1 Hpre E); injection Hrun as <- <-; auto.
Qed.

Lemma triple_weaken {A : Type} (Pre Pre' : Process -> Prop) (m : P A)
    (Post Post' : outcome A -> Process -> Prop) :
  triple Pre' m Post' ->
  (forall p, Pre p -> Pre' p) ->
  (forall r p, Post' r p -> Post r p) ->
  triple Pre m Post.
Proof. intros Hm Hpre Hpost p r p' H Hrun. eapply Hpost, Hm; eauto. Qed.

(** *** The stages of [Run] *)

Section Stages.

Context {sorter : SliceSorter}.
Variable cfg : Config.
Variable pf : Platform.
Variable a0 : HelloTriangleApplication.

Lemma initWindow_triple :
  triple (fun p => app (world p) = a0) (initWindow pf)
    (fun r p' =>
       match r with
       | Ok _ =>
           glfw_Init pf = None /\
           exists w, glfw_CreateWindow pf width height title = inr w /\
                     app (world p') = with_window a0 w
       | Err _ => app (world p') = a0
       | Panic _ => False
       end).
Proof.
  intros p r p' Hpre Hrun. unfold initWindow in Hrun.
  destruct (glfw_Init pf) as [err|]; [injection Hrun as <- <-; exact Hpre|].
  unfold bindP, call, failP, lift, set_window in Hrun. simpl in Hrun.
  destruct (glfw_CreateWindow pf width height title) as [err|w] eqn:E;
    injection Hrun as <- <-; simpl.
  - exact Hpre.
  - split; [reflexivity|]. exists w. rewrite Hpre. now split.
Qed.

Lemma initVulkan_triple (w : Z) :
  glfw_Init pf = None ->
  glfw_CreateWindow pf width height title = inr w ->
  triple (fun p => app (world p) = with_window a0 w) (initVulkan cfg pf)
    (fun r p' =>
       acquired cfg pf a0 (app (world p')) /\ window (app (world p')) = w /\
       forall s, r <> Panic s).
Proof.
  intros Hinit Hwin p r p' Hpre Hrun. unfold initVulkan in Hrun.
  assert (Hbase : acquired cfg pf a0 (with_window a0 w))
    by now apply acquired_window.
  destruct (glfw_GetVulkanGetInstanceProcAddress pf =? 0).
  { injection Hrun as <- <-. rewrite Hpre. repeat split; [assumption|discriminate]. }
  unfold bindP at 1, call in Hrun. cbv iota beta in Hrun.
  destruct (vk_Init pf) as [err|].
  { injection Hrun as <- <-. simpl. rewrite Hpre.
    repeat split; [assumption|discriminate]. }
  unfold bindP at 1, wrappedP at 1 in Hrun. rewrite lift_run in Hrun.
  cbn [world calls polls] in Hrun.
  destruct (createInstance_run cfg (vulkan pf) (world p)) as (lines & Hci).
  rewrite Hci in Hrun. clear Hci.
  destruct (createInstance_failure cfg (vulkan pf)) as [e|] eqn:Hfail;
    cbn [fst snd] in Hrun.
  { injection Hrun as <- <-. simpl. rewrite Hpre.
    repeat split; [assumption|discriminate]. }
  unfold bindP at 1, wrappedP at 1 in Hrun. rewrite lift_run in Hrun.
  cbn [world calls polls] in Hrun.
  rewrite setupDebugCallback_run in Hrun. cbn [app instance window debug logged] in Hrun.
  rewrite Hpre in Hrun. cbn [with_window window instance debug] in Hrun.
  fold (created_instance cfg pf) in Hrun.
  assert (Hinst : acquired cfg pf a0
            {| window := w; instance := snd (created_instance cfg pf);
               debug := debug a0 |})
    by now apply acquired_instance.
  destruct (enableValidationLayers cfg) eqn:Hen.
  - cbv zeta in Hrun. fold (created_callback cfg pf) in Hrun.
    destruct (fst (created_callback cfg pf) =? vk.Success) eqn:Hcb;
      cbn [fst snd] in Hrun.
    + apply Z.eqb_eq in Hcb.
      unfold bindP at 1, wrappedP at 1 in Hrun. rewrite lift_run in Hrun.
      cbn [world calls polls] in Hrun.
      match type of Hrun with context [pickPhysicalDevice ?rt ?w1] =>
        destruct (quiet_pickPhysicalDevice sorter rt w1) as [Happ Hnp];
        destruct (pickPhysicalDevice rt w1) as [[d|e|s] w2]
      end; cbn [fst snd] in *; injection Hrun as <- <-; cbn [world app] in *;
        try (now destruct (Hnp s)); rewrite Happ;
        (repeat split; [now apply acquired_debug|discriminate]).
    + injection Hrun as <- <-. simpl. repeat split; [assumption|discriminate].
  - cbn [fst snd] in Hrun.
    unfold bindP at 1, wrappedP at 1 in Hrun. rewrite lift_run in Hrun.
    cbn [world calls polls] in Hrun.
    match type of Hrun with context [pickPhysicalDevice ?rt ?w1] =>
      destruct (quiet_pickPhysicalDevice sorter rt w1) as [Happ Hnp];
      destruct (pickPhysicalDevice rt w1) as [[d|e|s] w2]
    end; cbn [fst snd] in *; injection Hrun as <- <-; cbn [world app] in *;
      try (now destruct (Hnp s)); rewrite Happ;
      (repeat split; [assumption|discriminate]).
Qed.

End Stages.

(** *** The main loop *)

Lemma Process_eta (p : Process) :
  {| world := world p; calls := calls p; polls := polls p |} = p.
Proof. now destruct p. Qed.

Lemma exit_time_ge (pf : Platform) (w : Z) (fuel n T : nat) :
  exit_time pf w fuel n = Some T -> (n <= T)%nat.
Proof.
  revert n; induction fuel as [|fuel IH]; intros n H; simpl in H; [discriminate|].
  destruct (Window_ShouldClose pf w n); [injection H as <-; lia|].
  destruct (Window_EscapePressed pf w (S n)); [injection H as <-; lia|].
  apply IH in H. lia.
Qed.

Lemma mainLoop_for_run (pf : Platform) (w : Z) (fuel : nat) (p : Process) :
  mainLoop_for pf w fuel p =
  match exit_time pf w fuel (polls p) with
  | Some T =>
      Some (Ok tt,
            {| world := world p;
               calls := calls p ++ repeat glfw_PollEvents (T - polls p);
               polls := T |})
  | None => None
  end.
Proof.
  revert p; induction fuel as [|fuel IH]; intros p; simpl; [reflexivity|].
  unfold bindP at 1, get_polls.
  destruct (Window_ShouldClose pf w (polls p)).
  - rewrite Nat.sub_diag. simpl. now rewrite app_nil_r, Process_eta.
  - unfold bindP at 1, PollEvents. unfold bindP at 1. simpl.
    destruct (Window_EscapePressed pf w (S (polls p))).
    + replace (S (polls p) - polls p)%nat with 1%nat by lia. reflexivity.
    + rewrite IH. simpl.
      destruct (exit_time pf w fuel (S (polls p))) as [T|] eqn:E; [|reflexivity].
      apply exit_time_ge in E.
      replace (T - polls p)%nat with (S (T - S (polls p))) by lia.
      simpl. now rewrite <- app_assoc.
Qed.

(** [exit_time] is the first moment at which the loop condition or the
    escape test lets the loop go. *)
Lemma exit_time_first (pf : Platform) (w : Z) (fuel n T : nat) :
  (n <= T)%nat ->
  (forall t, (n <= t < T)%nat -> Window_ShouldClose pf w t = false) ->
  (forall t, (n < t < T)%nat -> Window_EscapePressed pf w t = false) ->
  (n < T)%nat /\ Window_EscapePressed pf w T = true \/
    Window_ShouldClose pf w T = true ->
  (T - n < fuel)%nat ->
  exit_time pf w fuel n = Some T.
Proof.
  revert n; induction fuel as [|fuel IH]; intros n Hle Hclose Hesc Hexit Hfuel;
    [lia|].
  simpl. destruct (Nat.eq_dec n T) as [->|Hne].
  - destruct Hexit as [[Hlt _]|Hc]; [lia|now rewrite Hc].
  - rewrite (Hclose n) by lia.
    destruct (Nat.eq_dec (S n) T) as [<-|Hne'].
    + destruct Hexit as [[_ ->]|Hc]; [reflexivity|].
      destruct (Window_EscapePressed pf w (S n)); [reflexivity|].
      destruct fuel; [lia|]. simpl. now rewrite Hc.
    + rewrite (Hesc (S n)) by lia.
      apply IH; try lia.
      * intros t Ht. apply Hclose. lia.
      * intros t Ht. apply Hesc. lia.
      * destruct Hexit as [[_ He]|Hc]; [left; split; [lia|exact He]|now right].
Qed.

Lemma mainLoop_run (pf : Platform) (fuel : nat) (p : Process) :
  mainLoop pf fuel p = mainLoop_for pf (window (app (world p))) fuel p.
Proof.
  unfold mainLoop, bindP at 1. rewrite lift_run. simpl. now rewrite Process_eta.
Qed.

(** X10: [mainLoop] polls events until the first moment [T] (counted in
    polls) at which the window asks to close or, right after a poll, the
    escape key is down. Given fuel for more than the polls that takes, it
    returns no error, has called [glfw.PollEvents] once per elapsed moment
    and nothing else, and leaves the application and the log as they
    were. *)
Theorem mainLoop_polls_until_close_or_escape
    (pf : Platform) (fuel : nat) (p : Process) (T : nat) :
  let w := window (app (world p)) in
  (polls p <= T)%nat ->
  (forall t, (polls p <= t < T)%nat -> Window_ShouldClose pf w t = false) ->
  (forall t, (polls p < t < T)%nat -> Window_EscapePressed pf w t = false) ->
  (polls p < T)%nat /\ Window_EscapePressed pf w T = true \/
    Window_ShouldClose pf w T = true ->
  (T - polls p < fuel)%nat ->
  mainLoop pf fuel p =
  Some (Ok tt,
        {| world := world p;
           calls := calls p ++ repeat glfw_PollEvents (T - polls p);
           polls := T |}).
Proof.
  intros w Hle Hclose Hesc Hexit Hfuel.
  rewrite mainLoop_run, mainLoop_for_run. fold w.
  now rewrite (exit_time_first pf w fuel (polls p) T).
Qed.

Lemma mainLoop_polls_until_close_or_escape_witness :
  mainLoop working_platform 3 after_window =
  Some (Ok tt,
        {| world := world after_window;
           calls := [glfw_PollEvents; glfw_PollEvents];
           polls := 2 |}).
Proof.
  apply (mainLoop_polls_until_close_or_escape working_platform 3 after_window 2).
  - simpl; lia.
  - intros t Ht. simpl in Ht. destruct t as [|[|t]]; try reflexivity. lia.
  - reflexivity.
  - right. reflexivity.
  - simpl; lia.
Defined.

(** X11: whenever [mainLoop] returns, it returns [nil]: it has only called
    [glfw.PollEvents], at least as often as before, and has left the
    application and the log untouched. The error branch that [Run] wraps
    around it is never taken. *)
Theorem mainLoop_returns_only_nil
    (pf : Platform) (fuel : nat) (p p' : Process) (r : outcome unit) :
  mainLoop pf fuel p = Some (r, p') ->
  r = Ok tt /\
  world p' = world p /\
  (polls p <= polls p')%nat /\
  calls p' = calls p ++ repeat glfw_PollEvents (polls p' - polls p).
Proof.
  intros Hrun. rewrite mainLoop_run, mainLoop_for_run in Hrun.
  destruct (exit_time pf _ fuel (polls p)) as [T|] eqn:E; [|discriminate].
  injection Hrun as <- <-. simpl. apply exit_time_ge in E. auto.
Qed.

Lemma mainLoop_returns_only_nil_witness :
  Ok tt = Ok tt /\
  world after_window = world after_window /\
  (polls after_window <= 2)%nat /\
  [glfw_PollEvents; glfw_PollEvents] =
    calls after_window ++ repeat glfw_PollEvents (2 - polls after_window).
Proof.
  apply (mainLoop_returns_only_nil working_platform 3 after_window
           {| world := world after_window;
              calls := [glfw_PollEvents; glfw_PollEvents]; polls := 2 |} (Ok tt)).
  reflexivity.
Defined.

(** X12: a main loop whose window never asks to close and whose escape key
    is never down does not return, whatever fuel it is given. *)
Theorem mainLoop_runs_while_nothing_happens
    (pf : Platform) (fuel : nat) (p : Process) :
  let w := window (app (world p)) in
  (forall t, (polls p <= t)%nat -> Window_ShouldClose pf w t = false) ->
  (forall t, (polls p < t)%nat -> Window_EscapePressed pf w t = false) ->
  mainLoop pf fuel p = None.
Proof.
  intros w Hclose Hesc. rewrite mainLoop_run, mainLoop_for_run. fold w.
  assert (H : forall n, (polls p <= n)%nat -> exit_time pf w fuel n = None).
  { induction fuel as [|fuel IH]; intros n Hn; simpl; [reflexivity|].
    rewrite (Hclose n Hn), (Hesc (S n)) by lia. apply IH. lia. }
  now rewrite H.
Qed.

Lemma mainLoop_runs_while_nothing_happens_witness :
  mainLoop idle_platform 1000 after_window = None.
Proof.
  apply (mainLoop_runs_while_nothing_happens idle_platform 1000 after_window);
    reflexivity.
Defined.

(** *** [Run] *)

Section RunFacts.

Context {sorter : SliceSorter}.
Variable cfg : Config.
Variable pf : Platform.

(** The part of [Run] that [cleanup] is deferred around. *)
Lemma Run_body_triple (a0 : HelloTriangleApplication) (fuel : nat) :
  triple (fun p => app (world p) = a0)
    (wrappedP (initWindow pf) "can't init window";;
     wrappedP (initVulkan cfg pf) "can't init vulkan";;
     wrappedP (mainLoop pf fuel) "can't init vulkan";;
     retP tt)%P
    (fun r p' => acquired cfg pf a0 (app (world p')) /\ forall s, r <> Panic s).
Proof.
  set (Post := fun (r : outcome unit) (p' : Process) =>
    acquired cfg pf a0 (app (world p')) /\ forall s, r <> Panic s).
  apply (triple_bind _ _ _
           (fun r p' =>
              match r with
              | Ok _ =>
                  glfw_Init pf = None /\
                  exists w, glfw_CreateWindow pf width height title = inr w /\
                            app (world p') = with_window a0 w
              | Err _ => app (world p') = a0
              | Panic _ => False
              end) Post).
  - eapply triple_wrapped; [apply initWindow_triple|..]; intros; eassumption.
  - intros _ p r p' [Hinit (w & Hcw & Happ)] Hrun.
    revert p r p' Happ Hrun.
    change (triple (fun p => app (world p) = with_window a0 w)
              (wrappedP (initVulkan cfg pf) "can't init vulkan";;
               wrappedP (mainLoop pf fuel) "can't init vulkan";;
               retP tt)%P Post).
    apply (triple_bind _ _ _
             (fun r p' =>
                acquired cfg pf a0 (app (world p')) /\ window (app (world p')) = w /\
                forall s, r <> Panic s) Post).
    + eapply triple_wrapped; [now apply initVulkan_triple|..];
        intros; cbv beta in *; intuition discriminate.
    + intros _ q r2 q' (Hacq & Hwin & _) Hrun2.
      unfold bindP, wrappedP in Hrun2.
      rewrite mainLoop_run, mainLoop_for_run in Hrun2.
      destruct (exit_time pf _ fuel (polls q)); [|discriminate].
      injection Hrun2 as <- <-. split; [exact Hacq|discriminate].
    + intros e q (Hacq & _). split; [exact Hacq|discriminate].
    + intros s q (_ & _ & Hnp). now destruct (Hnp s).
  - intros e p Happ. cbv beta in Happ. unfold Post. rewrite Happ.
    split; [constructor|discriminate].
  - intros s p [].
Qed.

Lemma Run_cases (fuel : nat) (p p' : Process) (r : outcome unit) :
  Run cfg pf fuel p = Some (r, p') ->
  exists pb,
    (wrappedP (initWindow pf) "can't init window";;
     wrappedP (initVulkan cfg pf) "can't init vulkan";;
     wrappedP (mainLoop pf fuel) "can't init vulkan";;
     retP tt)%P p = Some (r, pb) /\
    p' = {| world := world pb;
            calls := calls pb ++ teardown cfg (app (world pb));
            polls := polls pb |}.
Proof.
  unfold Run, deferred. intros Hrun.
  match type of Hrun with match ?b with _ => _ end = _ =>
    destruct b as [[rb pb]|] eqn:Eb; [|discriminate]
  end.
  rewrite cleanup_run in Hrun. injection Hrun as <- <-. now exists pb.
Qed.

Lemma Run_ends_with_teardown (fuel : nat) (p p' : Process) (r : outcome unit) :
  Run cfg pf fuel p = Some (r, p') ->
  exists done, calls p' = done ++ teardown cfg (app (world p')).
Proof.
  intros Hrun. apply Run_cases in Hrun as (pb & _ & ->). now exists (calls pb).
Qed.

(** X13: when [Run] returns, with or without an error, it has not
    panicked, the application holds only what the platform handed out,
    stage by stage (nothing; a window; a window and the created instance;
    these and the diagnostics handle, with validation layers enabled), and
    the last calls [Run] made are the teardown of exactly that: the
    diagnostics handle (validation enabled), the instance, the window, each
    only when not null, then [glfw.Terminate]. *)
Theorem Run_tears_down_what_it_acquired (fuel : nat) (p p' : Process)
    (r : outcome unit) :
  Run cfg pf fuel p = Some (r, p') ->
  (forall s, r <> Panic s) /\
  acquired cfg pf (app (world p)) (app (world p')) /\
  exists done, calls p' = done ++ teardown cfg (app (world p')).
Proof.
  intros Hrun. pose proof (Run_ends_with_teardown fuel p p' r Hrun) as Hdone.
  apply Run_cases in Hrun as (pb & Hbody & ->).
  apply (Run_body_triple (app (world p)) fuel p r pb eq_refl) in Hbody as [Hacq Hnp].
  auto.
Qed.

End RunFacts.

Lemma Run_tears_down_what_it_acquired_witness :
  (forall s,
     Err (errors_Wrap
            (errors_Wrap (errors_New "validation layers requested but not available")
               "can't create vk instance")
            "can't init vulkan") <> @Panic unit s) /\
  acquired main_config platform_without_layer (app (world started))
    (app (world stopped_without_layer)) /\
  exists done,
    calls stopped_without_layer =
    done ++ teardown main_config (app (world stopped_without_layer)).
Proof.
  apply (Run_tears_down_what_it_acquired (sorter := go_sort)
           main_config platform_without_layer 0 started stopped_without_layer).
  reflexivity.
Defined.

Lemma initWindow_run_ok (pf : Platform) (p : Process) (w : Z) :
  glfw_Init pf = None ->
  glfw_CreateWindow pf width height title = inr w ->
  initWindow pf p =
  Some (Ok tt,
        {| world :=
             {| app := {| window := w; instance := instance (app (world p));
                          debug := debug (app (world p)) |};
                logged := logged (world p) |};
           calls := calls p ++ [glfw_WindowHint glfw_ClientAPI glfw_NoAPI;
                                glfw_WindowHint glfw_Resizable glfw_False];
           polls := polls p |}).
Proof.
  intros Hinit Hcw. unfold initWindow. rewrite Hinit, Hcw.
  unfold bindP, call, lift, set_window. simpl. now rewrite <- app_assoc.
Qed.

Lemma pickPhysicalDevice_succeeds (sorter : SliceSorter) (rt : Runtime) (w : World) :
  first_status (EnumeratePhysicalDevices rt (instance (app w))) = vk.Success ->
  enumerated_devices rt (instance (app w)) <> [] ->
  ~ In vk.NullHandle (enumerated_devices rt (instance (app w))) ->
  exists d name,
    pickPhysicalDevice rt w =
    (Ok d,
     {| app := app w;
        logged := logged w ++
          [log_Printf "Selecting physical device '%s'" [arg_string name]] |}).
Proof.
  intros Hs Hne Hnn.
  destruct (pickPhysicalDevice_cases sorter rt w)
    as [[Hf _]|[_ [[He _]|(chosen & Hin & _ & [[Hz _]|[_ E]])]]].
  - contradiction.
  - contradiction.
  - unfold candidates in Hin. apply in_map_iff in Hin as (x & <- & Hx).
    simpl in Hz. subst x. contradiction.
  - eauto.
Qed.

Section RunOutcomes.

Context {sorter : SliceSorter}.
Variable cfg : Config.
Variable pf : Platform.

(** X14: when [glfw.Init] fails with [err], [Run] returns [err] wrapped with
    "can't init GLFW" and then "can't init window". No window hint is
    given, no window is created and nothing is logged; the teardown still
    runs, so [glfw.Terminate] is called all the same. *)
Theorem Run_when_glfw_Init_fails (fuel : nat) (p : Process) (err : error) :
  glfw_Init pf = Some err ->
  Run cfg pf fuel p =
  Some (Err (errors_Wrap (errors_Wrap err "can't init GLFW") "can't init window"),
        {| world := world p;
           calls := calls p ++ teardown cfg (app (world p));
           polls := polls p |}).
Proof.
  intros Hinit. unfold Run, deferred, bindP at 1, wrappedP at 1, initWindow.
  rewrite Hinit. unfold failP. now rewrite cleanup_run.
Qed.

(** X15: when the window is created and the loader is ready but
    [createInstance] fails with [e], [Run] returns [e] wrapped with "can't
    create vk instance" and then "can't init vulkan"; the instance and the
    diagnostics handle are left as they were, the main loop is not entered
    (no event is polled), and the teardown still runs on the application
    with its new window. *)
Theorem Run_when_createInstance_fails (fuel : nat) (p : Process) (w : Z) (e : error) :
  glfw_Init pf = None ->
  glfw_CreateWindow pf width height title = inr w ->
  glfw_GetVulkanGetInstanceProcAddress pf <> 0 ->
  vk_Init pf = None ->
  createInstance_failure cfg (vulkan pf) = Some e ->
  let a := {| window := w; instance := instance (app (world p));
              debug := debug (app (world p)) |} in
  exists lines,
    Run cfg pf fuel p =
    Some (Err (errors_Wrap (errors_Wrap e "can't create vk instance")
                 "can't init vulkan"),
          {| world := {| app := a; logged := logged (world p) ++ lines |};
             calls := calls p
               ++ [glfw_WindowHint glfw_ClientAPI glfw_NoAPI;
                   glfw_WindowHint glfw_Resizable glfw_False;
                   vk_SetGetInstanceProcAddr (glfw_GetVulkanGetInstanceProcAddress pf)]
               ++ teardown cfg a;
             polls := polls p |}).
Proof.
  intros Hinit Hcw Hproc Hvk Hfail a.
  unfold Run, deferred.
  unfold bindP at 1, wrappedP at 1. rewrite (initWindow_run_ok pf p w Hinit Hcw).
  unfold bindP at 1, wrappedP at 1, initVulkan.
  rewrite (proj2 (Z.eqb_neq _ _) Hproc), Hvk.
  unfold bindP at 1, call. cbv iota beta.
  unfold bindP at 1, wrappedP at 1. rewrite lift_run. cbn [world calls polls].
  match goal with |- context [createInstance cfg (vulkan pf) ?w1] =>
    destruct (createInstance_run cfg (vulkan pf) w1) as (lines & ->)
  end.
  rewrite Hfail. cbn [fst snd app logged]. fold a.
  rewrite cleanup_run. cbn [world app calls polls].
  exists lines. now rewrite <- !app_assoc.
Qed.

(** X16: when every stage succeeds (window, loader, instance, diagnostics
    handle with validation enabled, at least one enumerated device and none
    of them null) and the main loop leaves at moment [T], [Run] returns no
    error. Its calls are, in order: the two window hints, the loader
    address, one [glfw.PollEvents] per elapsed moment, then the teardown of
    the diagnostics handle (validation enabled), the instance, the window
    and GLFW. *)
Theorem Run_succeeds (fuel : nat) (p : Process) (w : Z) (T : nat) :
  glfw_Init pf = None ->
  glfw_CreateWindow pf width height title = inr w ->
  glfw_GetVulkanGetInstanceProcAddress pf <> 0 ->
  vk_Init pf = None ->
  createInstance_failure cfg (vulkan pf) = None ->
  (enableValidationLayers cfg = true -> fst (created_callback cfg pf) = vk.Success) ->
  let i := snd (created_instance cfg pf) in
  first_status (EnumeratePhysicalDevices (vulkan pf) i) = vk.Success ->
  enumerated_devices (vulkan pf) i <> [] ->
  ~ In vk.NullHandle (enumerated_devices (vulkan pf) i) ->
  exit_time pf w fuel (polls p) = Some T ->
  let a := {| window := w; instance := i;
              debug := if enableValidationLayers cfg
                       then snd (created_callback cfg pf)
                       else debug (app (world p)) |} in
  exists lines,
    Run cfg pf fuel p =
    Some (Ok tt,
          {| world := {| app := a; logged := logged (world p) ++ lines |};
             calls := calls p
               ++ [glfw_WindowHint glfw_ClientAPI glfw_NoAPI;
                   glfw_WindowHint glfw_Resizable glfw_False;
                   vk_SetGetInstanceProcAddr (glfw_GetVulkanGetInstanceProcAddress pf)]
               ++ repeat glfw_PollEvents (T - polls p)
               ++ teardown cfg a;
             polls := T |}).
Proof.
  intros Hinit Hcw Hproc Hvk Hfail Hcb i Hs Hne Hnn Hexit a.
  unfold Run, deferred.
  unfold bindP at 1, wrappedP at 1. rewrite (initWindow_run_ok pf p w Hinit Hcw).
  unfold bindP at 1, wrappedP at 1, initVulkan.
  rewrite (proj2 (Z.eqb_neq _ _) Hproc), Hvk.
  unfold bindP at 1, call. cbv iota beta.
  unfold bindP at 1, wrappedP at 1. rewrite lift_run. cbn [world calls polls].
  match goal with |- context [createInstance cfg (vulkan pf) ?w1] =>
    destruct (createInstance_run cfg (vulkan pf) w1) as (l1 & ->)
  end.
  rewrite Hfail. cbn [fst snd app logged window instance debug].
  fold (created_instance cfg pf). fold i.
  unfold bindP at 1, wrappedP at 1. rewrite lift_run. cbn [world calls polls].
  rewrite setupDebugCallback_run. cbn [app instance window debug logged].
  subst a.
  change (vk_CreateDebugReportCallback pf i debugCreateInfo)
    with (created_callback cfg pf).
  destruct (enableValidationLayers cfg) eqn:Hen;
    [rewrite (Hcb eq_refl); change (vk.Success =? vk.Success) with true|];
    cbv zeta iota; cbn [fst snd];
    (unfold bindP at 1, wrappedP at 1; rewrite lift_run; cbn [world calls polls];
     match goal with |- context [pickPhysicalDevice (vulkan pf) ?w2] =>
       destruct (pickPhysicalDevice_succeeds sorter (vulkan pf) w2)
         as (d & name & ->); try assumption
     end;
     cbn [fst snd]; unfold retP at 1;
     unfold bindP at 1, wrappedP at 1;
     rewrite mainLoop_run, mainLoop_for_run;
     cbn [polls world app window]; rewrite Hexit;
     cbn [world calls polls]; unfold bindP, retP;
     rewrite cleanup_run; cbn [world app calls polls logged];
     rewrite <- !app_assoc; cbn [List.app]; eexists; reflexivity).
Qed.

End RunOutcomes.

Lemma Run_when_glfw_Init_fails_witness :
  Run (sorter := go_sort) main_config platform_without_glfw 0 started =
  Some (Err (errors_Wrap (errors_Wrap (errors_New "PlatformError") "can't init GLFW")
               "can't init window"),
        {| world := world started; calls := [glfw_Terminate]; polls := 0 |}).
Proof.
  apply (Run_when_glfw_Init_fails (sorter := go_sort)).
  reflexivity.
Defined.

Lemma Run_when_createInstance_fails_witness :
  exists lines,
    Run (sorter := go_sort) main_config platform_without_layer 0 started =
    Some (Err (errors_Wrap
                 (errors_Wrap
                    (errors_New "validation layers requested but not available")
                    "can't create vk instance")
                 "can't init vulkan"),
          {| world :=
               {| app := {| window := 3; instance := instance (app (world started));
                            debug := debug (app (world started)) |};
                  logged := logged (world started) ++ lines |};
             calls := calls started
               ++ [glfw_WindowHint glfw_ClientAPI glfw_NoAPI;
                   glfw_WindowHint glfw_Resizable glfw_False;
                   vk_SetGetInstanceProcAddr
                     (glfw_GetVulkanGetInstanceProcAddress platform_without_layer)]
               ++ teardown main_config
                    {| window := 3; instance := instance (app (world started));
                       debug := debug (app (world started)) |};
             polls := polls started |}).
Proof.
  apply (Run_when_createInstance_fails (sorter := go_sort)
           main_config platform_without_layer 0 started 3
           (errors_New "validation layers requested but not available"));
    try reflexivity.
  discriminate.
Defined.

Lemma Run_succeeds_witness :
  exists lines,
    Run (sorter := go_sort) main_config working_platform 5 started =
    Some (Ok tt,
          {| world :=
               {| app := {| window := 3; instance := 7; debug := 9 |};
                  logged := logged (world started) ++ lines |};
             calls :=
               [glfw_WindowHint glfw_ClientAPI glfw_NoAPI;
                glfw_WindowHint glfw_Resizable glfw_False;
                vk_SetGetInstanceProcAddr 11;
                glfw_PollEvents; glfw_PollEvents;
                vk_DestroyDebugReportCallback 7 9;
                vk_DestroyInstance 7;
                Window_Destroy 3;
                glfw_Terminate];
             polls := 2 |}).
Proof.
  apply (Run_succeeds (sorter := go_sort)
           main_config working_platform 5 started 3 2);
    try reflexivity; try discriminate.
  intros [H|[]]. discriminate H.
Defined.

(** *** The diagnostics handle and the teardown *)

(** X17: [setupDebugCallback] returns at once, changing nothing, when
    validation layers are disabled. Otherwise it asks the runtime for a
    callback on the current instance: on success it stores the handle in
    [debug] and touches nothing else; on any other status it returns that
    status wrapped with "can't create debug report" and changes nothing. It
    logs nothing and does not panic. *)
Theorem setupDebugCallback_stores_callback_only_on_success
    (cfg : Config) (pf : Platform) (w : World) :
  let created := vk_CreateDebugReportCallback pf (instance (app w)) debugCreateInfo in
  match setupDebugCallback cfg pf w with
  | (Ok _, w') =>
      logged w' = logged w /\
      window (app w') = window (app w) /\
      instance (app w') = instance (app w) /\
      (enableValidationLayers cfg = false /\ debug (app w') = debug (app w) \/
       enableValidationLayers cfg = true /\ fst created = vk.Success /\
         debug (app w') = snd created)
  | (Err e, w') =>
      w' = w /\ enableValidationLayers cfg = true /\ fst created <> vk.Success /\
      e = errors_Wrap (vk_Error (fst created)) "can't create debug report"
  | (Panic _, _) => False
  end.
Proof.
  intros created. rewrite setupDebugCallback_run. fold created.
  destruct (enableValidationLayers cfg); [|simpl; auto 6].
  cbv zeta. destruct (fst created =? vk.Success) eqn:E.
  - apply Z.eqb_eq in E. simpl. auto 8.
  - apply Z.eqb_neq in E. auto.
Qed.

Lemma teardown_ends_with_Terminate (cfg : Config) (a : HelloTriangleApplication) :
  exists handles,
    teardown cfg a = handles ++ [glfw_Terminate] /\ ~ In glfw_Terminate handles.
Proof.
  unfold teardown.
  exists ((if enableValidationLayers cfg && negb (debug a =? vk.NullHandle)
           then [vk_DestroyDebugReportCallback (instance a) (debug a)] else [])
          ++ (if negb (instance a =? vk.NullHandle)
              then [vk_DestroyInstance (instance a)] else [])
          ++ (if negb (window a =? 0) then [Window_Destroy (window a)] else [])).
  split; [now rewrite <- !app_assoc|].
  rewrite !in_app_iff.
  destruct (enableValidationLayers cfg && negb (debug a =? vk.NullHandle)),
    (negb (instance a =? vk.NullHandle)), (negb (window a =? 0));
    simpl; intuition discriminate.
Qed.

(** X18: [cleanup] cannot fail and touches neither the application nor the
    log. It makes the teardown calls in the order diagnostics handle,
    instance, window, [glfw.Terminate]; the last is always made, the others
    only for a handle that is not null, and the diagnostics handle only
    with validation layers enabled. *)
Theorem cleanup_tears_down_in_order (cfg : Config) (p : Process) :
  let a := app (world p) in
  cleanup cfg p =
    Some (Ok tt,
          {| world := world p;
             calls := calls p ++ teardown cfg a;
             polls := polls p |}) /\
  (exists handles, teardown cfg a = handles ++ [glfw_Terminate] /\
                   ~ In glfw_Terminate handles) /\
  ~ In (vk_DestroyInstance vk.NullHandle) (teardown cfg a) /\
  ~ In (Window_Destroy 0) (teardown cfg a) /\
  (forall i, ~ In (vk_DestroyDebugReportCallback i vk.NullHandle) (teardown cfg a)) /\
  (enableValidationLayers cfg = false ->
   forall i d, ~ In (vk_DestroyDebugReportCallback i d) (teardown cfg a)).
Proof.
  intros a. split; [apply cleanup_run|].
  split; [apply teardown_ends_with_Terminate|].
  unfold teardown, vk.NullHandle.
  destruct (enableValidationLayers cfg);
    destruct (debug a =? 0) eqn:Ed;
    destruct (instance a =? 0) eqn:Ei;
    destruct (window a =? 0) eqn:Ew; simpl;
    rewrite ?Z.eqb_eq, ?Z.eqb_neq in *;
    repeat split; try discriminate;
    intros; simpl; intuition (try discriminate; try congruence).
Qed.

(** *** [main] *)

Section MainFacts.

Context {sorter : SliceSorter}.
Variable cfg : Config.
Variable pf : Platform.

Lemma wrapped_stage (m : P unit) (stage : string) :
  stage = "can't init window" \/ stage = "can't init vulkan" ->
  triple (fun _ => True) (wrappedP m stage) (fun r _ => staged r).
Proof.
  intros Hstage p r p' _ Hrun. unfold wrappedP in Hrun.
  destruct (m p) as [[[a|e|s] p1]|]; try discriminate;
    injection Hrun as <- <-; intros x Hx; try discriminate.
  injection Hx as <-. eauto.
Qed.

Lemma then_stage (m k : P unit) :
  triple (fun _ => True) m (fun r _ => staged r) ->
  triple (fun _ => True) k (fun r _ => staged r) ->
  triple (fun _ => True) (bindP m (fun _ => k)) (fun r _ => staged r).
Proof.
  intros Hm Hk.
  apply (triple_bind _ _ _ (fun r _ => staged r) (fun r _ => staged r));
    [exact Hm| | |].
  - intros a. eapply triple_weaken; [exact Hk|intros; exact I|intros r p H; exact H].
  - intros e p H. exact H.
  - intros s p _ x Hx. discriminate.
Qed.

Lemma Run_errors (fuel : nat) (p p' : Process) (r : outcome unit) :
  Run cfg pf fuel p = Some (r, p') -> staged r.
Proof.
  intros Hrun. apply Run_cases in Hrun as (pb & Hbody & _).
  assert (Ht : triple (fun _ => True)
            (wrappedP (initWindow pf) "can't init window";;
             wrappedP (initVulkan cfg pf) "can't init vulkan";;
             wrappedP (mainLoop pf fuel) "can't init vulkan";;
             retP tt)%P (fun r _ => staged r)).
  { apply then_stage; [apply wrapped_stage; auto|].
    apply then_stage; [apply wrapped_stage; auto|].
    apply then_stage; [apply wrapped_stage; auto|].
    intros q r0 q' _ H. injection H as <- <-. intros x Hx. discriminate. }
  exact (Ht p r pb I Hbody).
Qed.

(** X19: [main] does not end in a panic, and however it ends, [Run] has
    torn down before: the last calls are the teardown of the application as
    it then is. When [Run] returns no error, [main] logs "Ran ...
    successfully" and then the deferred "Closing ..." and returns. When
    [Run] returns an error, [main] exits through [log.Fatal] with that
    error, which names its stage, wrapped with "can't run Learn Vulkan",
    and the deferred "Closing ..." line is not logged: the process is as
    [Run] left it. *)
Theorem main_exits_after_teardown (fuel : nat) (st : exit_status) (p : Process) :
  main cfg pf fuel = Some (st, p) ->
  (exists done, calls p = done ++ teardown cfg (app (world p))) /\
  match st with
  | returned =>
      exists lines,
        logged (world p) =
        lines ++ [log_Printf "Ran %s successfully" [arg_string title];
                  log_Printf "Closing %s" [arg_string title]]
  | fatal err =>
      exists e stage,
        err = errors_Wrap (errors_Wrap e stage) "can't run Learn Vulkan" /\
        (stage = "can't init window" \/ stage = "can't init vulkan") /\
        Run cfg pf fuel started = Some (Err (errors_Wrap e stage), p)
  | crashed _ => False
  end.
Proof.
  unfold main. intros Hmain.
  destruct (Run cfg pf fuel started) as [[[[]|e|s] q]|] eqn:Hrun; try discriminate;
    injection Hmain as <- <-;
    pose proof (Run_ends_with_teardown cfg pf fuel started q _ Hrun) as Hdone.
  - split; [exact Hdone|]. simpl. eexists. rewrite <- app_assoc. reflexivity.
  - split; [exact Hdone|].
    destruct (Run_errors fuel started q _ Hrun e eq_refl) as (e' & stage & -> & Hst).
    exists e', stage. auto.
  - split; [exact Hdone|].
    apply Run_cases in Hrun as (pb & Hbody & _).
    apply (Run_body_triple cfg pf (app (world started)) fuel started _ pb eq_refl)
      in Hbody as [_ Hp].
    now apply (Hp s).
Qed.

End MainFacts.

Lemma main_exits_after_teardown_witness :
  (exists done,
     calls stopped_without_layer =
     done ++ teardown main_config (app (world stopped_without_layer))) /\
  exists e stage,
    errors_Wrap
      (errors_Wrap
         (errors_Wrap (errors_New "validation layers requested but not available")
            "can't create vk instance")
         "can't init vulkan")
      "can't run Learn Vulkan" =
    errors_Wrap (errors_Wrap e stage) "can't run Learn Vulkan" /\
    (stage = "can't init window" \/ stage = "can't init vulkan") /\
    Run (sorter := go_sort) main_config platform_without_layer 0 started =
      Some (Err (errors_Wrap e stage), stopped_without_layer).
Proof.
  apply (main_exits_after_teardown (sorter := go_sort)
           main_config platform_without_layer 0
           (fatal
              (errors_Wrap
                 (errors_Wrap
                    (errors_Wrap
                       (errors_New "validation layers requested but not available")
                       "can't create vk instance")
                    "can't init vulkan")
                 "can't run Learn Vulkan"))
           stopped_without_layer).
  reflexivity.
Defined.
